(** * Prompt-optimisation control loop: scoring, response parsing, history

    A shallow embedding of the Python sources [main.py],
    [prompt_optimizer.py], [api_clients.py] and [process_gt.py], and the
    proofs of the properties stated for them.

    Conventions of the embedding.
    - A Python [str] is the list of its Unicode code points ([list N]).
    - A Python [set] of strings is a [gset] of such lists; [len] is [size]
      and [list(s)] is [elements s].
    - A [dict] read with [in], [get] or a subscript is a record whose
      fields are optional where the code tests for the key; a document
      built by [json.loads] is a value of [json], an object being the list
      of its pairs in the order of the text.
    - Python numbers that the program produces by true division of two
      lengths, or by summing and averaging such quotients, are modelled by
      the exact rational ([Q]) they denote.  The program only compares
      them with [0], with [1.0], with [0.01] and with each other.
    - An exception is a result [None] (or [Err]) at the place where it is
      raised, and the handler is the [match] on that result.
    - Builtins whose behaviour depends on the Unicode database or on the
      interpreter ([str.lower], [str()] of a value that is not a string,
      the recursion limit) are fields of the class [PyEnv]; every general
      theorem holds for all environments.
    - The three text-generation services are oracles over an abstract
      [World], threaded through every call in the order of the calls.
    - Logging and the files written by [main] are left out (of
      [center_log] the message it builds is kept); the cases loaded by
      [main] are a parameter. *)

From Stdlib Require Import ZArith NArith QArith Qabs Lia Lqa.
From Stdlib Require Import Strings.String Strings.Ascii.
From Stdlib Require PrimFloat.
From stdpp Require Import base option list gmap sets.

Set Warnings "-register-all,-clear-no-such-hyp,-inexact-float".
Local Open Scope nat_scope.
Local Open Scope list_scope.

(** ** Text *)

Abbreviation str := (list N).

Module Text.

(** Decoding of the UTF-8 bytes of a literal into code points; only used to
    write constants legibly. *)
Fixpoint utf8_decode (bs : list N) : str :=
  match bs with
  | [] => []
  | b0 :: r0 =>
    if (b0 <? 128)%N then b0 :: utf8_decode r0
    else match r0 with
    | [] => [b0]
    | b1 :: r1 =>
      if (b0 <? 224)%N then ((b0 - 192) * 64 + (b1 - 128))%N :: utf8_decode r1
      else match r1 with
      | [] => [b0; b1]
      | b2 :: r2 =>
        if (b0 <? 240)%N
        then ((b0 - 224) * 4096 + (b1 - 128) * 64 + (b2 - 128))%N :: utf8_decode r2
        else match r2 with
        | [] => [b0; b1; b2]
        | b3 :: r3 =>
          ((b0 - 240) * 262144 + (b1 - 128) * 4096 + (b2 - 128) * 64 + (b3 - 128))%N
            :: utf8_decode r3
        end
      end
    end
  end.

Fixpoint bytes_of (s : string) : list N :=
  match s with
  | EmptyString => []
  | String a r => N_of_ascii a :: bytes_of r
  end.

Definition utf8 (s : string) : str := utf8_decode (bytes_of s).

(** JSON literals are written with apostrophes in place of quotation marks. *)
Definition jtext (s : string) : str :=
  (fun c : N => if (c =? 39)%N then 34%N else c) <$> utf8 s.

(** [str.isspace] for one code point. *)
Definition is_space (c : N) : bool :=
  ((9 <=? c) && (c <=? 13) || (28 <=? c) && (c <=? 32) || (c =? 133) || (c =? 160)
   || (c =? 5760) || (8192 <=? c) && (c <=? 8202) || (c =? 8232) || (c =? 8233)
   || (c =? 8239) || (c =? 8287) || (c =? 12288))%N.

Definition mem_char (c : N) (cs : str) : bool := bool_decide (c ∈ cs).

Fixpoint lstrip_by (p : N -> bool) (s : str) : str :=
  match s with
  | c :: r => if p c then lstrip_by p r else s
  | [] => []
  end.

Definition rstrip_by (p : N -> bool) (s : str) : str :=
  rev (lstrip_by p (rev s)).

Definition strip_by (p : N -> bool) (s : str) : str :=
  rstrip_by p (lstrip_by p s).

(** [s.strip()] *)
Definition strip (s : str) : str := strip_by is_space s.

(** [s.strip(chars)] *)
Definition strip_chars (chars s : str) : str :=
  strip_by (fun c => mem_char c chars) s.

Fixpoint starts_with (p s : str) : bool :=
  match p, s with
  | [], _ => true
  | a :: p', b :: s' => (a =? b)%N && starts_with p' s'
  | _ :: _, [] => false
  end.

(** Offset of the first occurrence of [sub] in [s], if any. *)
Fixpoint index_of (sub s : str) : option nat :=
  if starts_with sub s then Some 0
  else match s with
       | [] => None
       | _ :: r => S <$> index_of sub r
       end.

(** [s.find(sub, start)] for [start >= 0]: [-1] when absent. *)
Definition find (s sub : str) (start : Z) : Z :=
  let k := Z.to_nat start in
  if decide (length s < k) then (-1)%Z
  else match index_of sub (drop k s) with
       | Some i => Z.of_nat (k + i)
       | None => (-1)%Z
       end.

(** [sub in s] *)
Definition contains (sub s : str) : bool :=
  match index_of sub s with Some _ => true | None => false end.

(** [s[a:b]] for [0 <= a], [0 <= b]. *)
Definition slice (s : str) (a b : Z) : str :=
  take (Z.to_nat b - Z.to_nat a) (drop (Z.to_nat a) s).

(** [s.split(d)] for a separator of one code point. *)
Fixpoint split_on (d : N) (s : str) : list str :=
  match s with
  | [] => [[]]
  | c :: r =>
    if (c =? d)%N then [] :: split_on d r
    else match split_on d r with
         | p :: ps => (c :: p) :: ps
         | [] => [[c]]
         end
  end.

Fixpoint count_char (d : N) (s : str) : nat :=
  match s with
  | [] => 0
  | c :: r => (if (c =? d)%N then 1 else 0) + count_char d r
  end.

End Text.

(** ** JSON documents as [json.loads] builds them *)

(** A Python [float] read from a JSON number keeps its decimal lexeme:
    sign, digits, power of ten. *)
Inductive pyfloat :=
| FNan
| FInf (neg : bool)
| FDec (neg : bool) (m : N) (e10 : Z).

Inductive json :=
| JNull
| JBool (b : bool)
| JInt (z : Z)
| JFloat (f : pyfloat)
| JStr (s : str)
| JArr (items : list json)
| JObj (pairs : list (str * json)).

(** What the interpreter and the Unicode database supply. *)
Class PyEnv := {
  (** [s.lower()] *)
  py_lower : str -> str;
  (** [str(v)] for a value that is not itself a [str] *)
  py_repr : json -> str;
  (** how many nested containers the JSON scanner may enter before it
      raises [RecursionError] *)
  recursion_limit : nat
}.

Module Json.

(** [0.0 == float(lexeme)]: the decimal is zero or rounds to zero, that is,
    it is at most [2^-1075] in magnitude. *)
Definition float_is_zero (f : pyfloat) : bool :=
  match f with
  | FNan | FInf _ => false
  | FDec _ m e10 =>
    (m =? 0)%N
    || ((e10 <? 0)%Z && (Z.of_N m * 2 ^ 1075 <=? 10 ^ (- e10))%Z)
  end.

(** [bool(v)] *)
Definition truthy (v : json) : bool :=
  match v with
  | JNull => false
  | JBool b => b
  | JInt z => negb (z =? 0)%Z
  | JFloat f => negb (float_is_zero f)
  | JStr s => match s with [] => false | _ => true end
  | JArr l => match l with [] => false | _ => true end
  | JObj l => match l with [] => false | _ => true end
  end.

(** [k in d] and [d[k]] for the dict built from [pairs]: a later pair with
    the same key replaces an earlier one. *)
Fixpoint obj_get (k : str) (pairs : list (str * json)) : option json :=
  match pairs with
  | [] => None
  | (k', v) :: r =>
    match obj_get k r with
    | Some w => Some w
    | None => if decide (k = k') then Some v else None
    end
  end.

Definition obj_has (k : str) (pairs : list (str * json)) : bool :=
  match obj_get k pairs with Some _ => true | None => false end.

(** Results of the scanner.  [OutOfFuel] is an artefact of the embedding
    and is shown not to occur ([loads_fuel_adequate]). *)
Inductive json_error := DecodeError | RecursionError | OutOfFuel.

Inductive res (A : Type) :=
| Ok (a : A)
| Err (e : json_error).
Arguments Ok {A} a.
Arguments Err {A} e.

#[export] Instance res_ret : MRet res := fun A a => Ok a.
#[export] Instance res_bind : MBind res := fun A B f m =>
  match m with
  | Ok a => f a
  | Err e => Err e
  end.

Definition is_ws (c : N) : bool :=
  ((c =? 32) || (c =? 9) || (c =? 10) || (c =? 13))%N.

Definition is_digit (c : N) : bool := ((48 <=? c) && (c <=? 57))%N.

Definition skip_ws (s : str) : str := Text.lstrip_by is_ws s.

Definition hex_val (c : N) : option N :=
  if is_digit c then Some (c - 48)%N
  else if ((97 <=? c) && (c <=? 102))%N then Some (c - 87)%N
  else if ((65 <=? c) && (c <=? 70))%N then Some (c - 55)%N
  else None.

Definition hex4 (a b c d : N) : option N :=
  x1 ← hex_val a; x2 ← hex_val b; x3 ← hex_val c; x4 ← hex_val d;
  Some (x1 * 4096 + x2 * 256 + x3 * 16 + x4)%N.

Definition simple_escape (c : N) : option N :=
  if (c =? 34)%N then Some 34%N          (* quotation mark *)
  else if (c =? 92)%N then Some 92%N     (* backslash *)
  else if (c =? 47)%N then Some 47%N     (* solidus *)
  else if (c =? 98)%N then Some 8%N      (* b: backspace *)
  else if (c =? 102)%N then Some 12%N    (* f: form feed *)
  else if (c =? 110)%N then Some 10%N    (* n: line feed *)
  else if (c =? 114)%N then Some 13%N    (* r: carriage return *)
  else if (c =? 116)%N then Some 9%N     (* t: tab *)
  else None.

Definition is_high_surrogate (c : N) : bool := ((55296 <=? c) && (c <=? 56319))%N.
Definition is_low_surrogate (c : N) : bool := ((56320 <=? c) && (c <=? 57343))%N.

Definition join_surrogates (hi lo : N) : N :=
  (65536 + (hi - 55296) * 1024 + (lo - 56320))%N.

Definition cons_fst (c : N) (p : str * str) : str * str := (c :: p.1, p.2).

(** The body of a string after its opening quotation mark (strict mode:
    a raw control character is an error). *)
Fixpoint scan_string (s : str) : option (str * str) :=
  match s with
  | [] => None
  | c :: r =>
    if (c =? 34)%N then Some ([], r)
    else if (c =? 92)%N then
      match r with
      | [] => None
      | e :: r1 =>
        if (e =? 117)%N then
          match r1 with
          | h1 :: h2 :: h3 :: h4 :: r2 =>
            match hex4 h1 h2 h3 h4 with
            | None => None
            | Some u =>
              match r2 with
              | b :: v :: g1 :: g2 :: g3 :: g4 :: r3 =>
                if is_high_surrogate u && (b =? 92)%N && (v =? 117)%N then
                  match hex4 g1 g2 g3 g4 with
                  | None => None
                  | Some u2 =>
                    if is_low_surrogate u2
                    then cons_fst (join_surrogates u u2) <$> scan_string r3
                    else cons_fst u <$> scan_string r2
                  end
                else cons_fst u <$> scan_string r2
              | _ => cons_fst u <$> scan_string r2
              end
            end
          | _ => None
          end
        else
          match simple_escape e with
          | Some ch => cons_fst ch <$> scan_string r1
          | None => None
          end
      end
    else if (c <=? 31)%N then None
    else cons_fst c <$> scan_string r
  end.

Fixpoint take_digits (s : str) : str * str :=
  match s with
  | c :: r =>
    if is_digit c then cons_fst c (take_digits r) else ([], s)
  | [] => ([], [])
  end.

Definition digits_value (ds : str) : N :=
  fold_left (fun acc c => (acc * 10 + (c - 48))%N) ds 0%N.

(** The fraction of a number: a point and at least one digit. *)
Definition scan_fraction (s : str) : str * str :=
  match s with
  | d :: r =>
    if (d =? 46)%N then
      match take_digits r with
      | ([], _) => ([], s)
      | (ds, rest) => (ds, rest)
      end
    else ([], s)
  | [] => ([], s)
  end.

(** The exponent of a number: [e] or [E], an optional sign, at least one
    digit. *)
Definition scan_exponent (s : str) : option Z * str :=
  match s with
  | e :: r =>
    if ((e =? 101) || (e =? 69))%N then
      let '(eneg, r1) :=
        match r with
        | g :: r2 =>
          if (g =? 45)%N then (true, r2)
          else if (g =? 43)%N then (false, r2)
          else (false, r)
        | [] => (false, r)
        end in
      match take_digits r1 with
      | ([], _) => (None, s)
      | (ds, rest) =>
        let v := Z.of_N (digits_value ds) in
        (Some (if eneg then (- v)%Z else v), rest)
      end
    else (None, s)
  | [] => (None, s)
  end.

(** A JSON number: an optional minus sign, then a single zero or a run of
    digits that does not start with zero, then optionally a fraction, then
    optionally an exponent; the longest match.  An integer lexeme is an
    [int], any other a [float]. *)
Definition scan_number (s : str) : option (json * str) :=
  let '(neg, s1) :=
    match s with
    | c :: r => if (c =? 45)%N then (true, r) else (false, s)
    | [] => (false, s)
    end in
  match s1 with
  | [] => None
  | c :: r =>
    if negb (is_digit c) then None
    else
      let '(ip, s2) := if (c =? 48)%N then ([c], r) else take_digits s1 in
      let '(fr, s3) := scan_fraction s2 in
      let '(ex, s4) := scan_exponent s3 in
      match fr, ex with
      | [], None =>
        let v := Z.of_N (digits_value ip) in
        Some (JInt (if neg then (- v)%Z else v), s4)
      | _, _ =>
        Some (JFloat (FDec neg (digits_value (ip ++ fr))
                           (default 0%Z ex - Z.of_nat (length fr))), s4)
      end
  end.

Definition lit_null := Text.utf8 "null".
Definition lit_true := Text.utf8 "true".
Definition lit_false := Text.utf8 "false".
Definition lit_nan := Text.utf8 "NaN".
Definition lit_inf := Text.utf8 "Infinity".
Definition lit_neg_inf := Text.utf8 "-Infinity".

(** Values that are neither an array nor an object. *)
Definition scan_scalar (s : str) : option (json * str) :=
  match s with
  | [] => None
  | c :: r =>
    if (c =? 34)%N then '(t, rest) ← scan_string r; Some (JStr t, rest)
    else if Text.starts_with lit_null s then Some (JNull, drop 4 s)
    else if Text.starts_with lit_true s then Some (JBool true, drop 4 s)
    else if Text.starts_with lit_false s then Some (JBool false, drop 5 s)
    else if Text.starts_with lit_nan s then Some (JFloat FNan, drop 3 s)
    else if Text.starts_with lit_inf s then Some (JFloat (FInf false), drop 8 s)
    else if Text.starts_with lit_neg_inf s then Some (JFloat (FInf true), drop 9 s)
    else scan_number s
  end.

(** A syntax error is [JSONDecodeError]. *)
Definition decode {A} (o : option A) : res A :=
  match o with
  | Some a => Ok a
  | None => Err DecodeError
  end.

(** A scanner of values that never reports [OutOfFuel] and consumes what
    it scans. *)
Definition well_behaved (scan : str -> res (json * str)) : Prop :=
  ∀ s, scan s ≠ Err OutOfFuel
       ∧ ∀ v rest, scan s = Ok (v, rest) → length rest < length s.

Section Containers.
Context (scan_value : str -> res (json * str)).

(** The elements of an array, from the first character of an element;
    [fuel] bounds their number. *)
Fixpoint scan_items (fuel : nat) (s : str) : res (list json * str) :=
  match fuel with
  | 0 => Err OutOfFuel
  | S fuel' =>
    '(v, s1) ← scan_value s;
    match skip_ws s1 with
    | c :: r =>
      if (c =? 93)%N then Ok ([v], r)
      else if (c =? 44)%N then
        '(vs, rest) ← scan_items fuel' (skip_ws r); Ok (v :: vs, rest)
      else Err DecodeError
    | [] => Err DecodeError
    end
  end.

(** After the opening bracket of an array. *)
Definition scan_array (s : str) : res (json * str) :=
  match skip_ws s with
  | c :: r =>
    if (c =? 93)%N then Ok (JArr [], r)
    else '(vs, rest) ← scan_items (S (length s)) (skip_ws s); Ok (JArr vs, rest)
  | [] => Err DecodeError
  end.

(** The pairs of an object, from the quotation mark of a key. *)
Fixpoint scan_pairs (fuel : nat) (s : str) : res (list (str * json) * str) :=
  match fuel with
  | 0 => Err OutOfFuel
  | S fuel' =>
    match s with
    | q :: r0 =>
      if negb (q =? 34)%N then Err DecodeError
      else
        '(k, s1) ← decode (scan_string r0);
        match skip_ws s1 with
        | c :: r1 =>
          if negb (c =? 58)%N then Err DecodeError
          else
            '(v, s2) ← scan_value (skip_ws r1);
            match skip_ws s2 with
            | d :: r2 =>
              if (d =? 125)%N then Ok ([(k, v)], r2)
              else if (d =? 44)%N then
                '(kvs, rest) ← scan_pairs fuel' (skip_ws r2);
                Ok ((k, v) :: kvs, rest)
              else Err DecodeError
            | [] => Err DecodeError
            end
        | [] => Err DecodeError
        end
    | [] => Err DecodeError
    end
  end.

(** After the opening brace of an object. *)
Definition scan_object (s : str) : res (json * str) :=
  match skip_ws s with
  | c :: r =>
    if (c =? 125)%N then Ok (JObj [], r)
    else '(kvs, rest) ← scan_pairs (S (length s)) (skip_ws s); Ok (JObj kvs, rest)
  | [] => Err DecodeError
  end.

End Containers.

(** [scan_once] at the first character of a value; [depth] containers may
    still be entered before the interpreter raises [RecursionError]. *)
Fixpoint scan_value (depth : nat) (s : str) : res (json * str) :=
  match s with
  | [] => Err DecodeError
  | c :: r =>
    if ((c =? 91) || (c =? 123))%N then
      match depth with
      | 0 => Err RecursionError
      | S depth' =>
        if (c =? 91)%N then scan_array (scan_value depth') r
        else scan_object (scan_value depth') r
      end
    else decode (scan_scalar s)
  end.

(** [json.loads(s)] for a [str]. *)
Definition loads `{PyEnv} (s : str) : res json :=
  match s with
  | c :: _ =>
    if (c =? 65279)%N then Err DecodeError
    else
      '(v, rest) ← scan_value recursion_limit (skip_ws s);
      match skip_ws rest with
      | [] => Ok v
      | _ => Err DecodeError
      end
  | [] => Err DecodeError
  end.

End Json.

(** ** Response parser ([PromptOptimizer.extract_diseases_from_response]) *)

Section Parser.
Context `{PyEnv}.

(** [str(v)] *)
Definition str_of (v : json) : str :=
  match v with
  | JStr s => s
  | _ => py_repr v
  end.

Definition nonempty (s : str) : bool :=
  match s with [] => false | _ => true end.

Definition fence : str := [96; 96; 96]%N.
Definition key_error : str := Text.utf8 "error".
Definition key_diseases : str := Text.utf8 "diseases".

(** Lines 107-118: removal of a Markdown code fence. *)
Definition strip_fence (response : str) : str :=
  let cleaned_response := Text.strip response in
  if Text.starts_with fence cleaned_response then
    let first_marker := Text.find cleaned_response fence 0 in
    if (first_marker =? -1)%Z then cleaned_response
    else
      let content_start := (Text.find cleaned_response [10%N] first_marker + 1)%Z in
      let end_marker := Text.find cleaned_response fence content_start in
      if (end_marker =? -1)%Z then cleaned_response
      else Text.strip (Text.slice cleaned_response content_start end_marker)
  else cleaned_response.

(** Lines 133-137: the value under [diseases]. *)
Definition diseases_of_value (diseases : json) : list str :=
  match diseases with
  | JArr items =>
    omap (fun disease =>
            if Json.truthy disease && nonempty (Text.strip (str_of disease))
            then Some (Text.strip (str_of disease)) else None) items
  | _ => if Json.truthy diseases then [Text.strip (str_of diseases)] else []
  end.

(** Lines 122-140: what is read out of the parsed document. *)
Definition diseases_of_document (result : json) : list str :=
  match result with
  | JObj pairs =>
    if Json.obj_has key_error pairs then []
    else match Json.obj_get key_diseases pairs with
         | Some diseases => diseases_of_value diseases
         | None => []
         end
  | _ => []
  end.

(** Every exception is caught and answered with the empty list. *)
Definition extract_diseases_from_response (response : str) : list str :=
  match Json.loads (strip_fence response) with
  | Json.Ok result => diseases_of_document result
  | Json.Err _ => []
  end.

End Parser.

(** ** Label normaliser and scorer *)

Section Scorer.
Context `{PyEnv}.

(** The characters of ['.,，。 \t']. *)
Definition punctuation : str := [46; 44; 65292; 12290; 32; 9]%N.

(** [d.strip('.,，。 \t').lower()] *)
Definition normalize (d : str) : str :=
  py_lower (Text.strip_chars punctuation d).

(** [{normalize(d) for d in labels if d}] *)
Definition label_set (labels : list str) : gset str :=
  list_to_set (normalize <$> filter (fun d => d ≠ []) labels).

(** [len(a) / b] as Python evaluates it: [None] is [ZeroDivisionError]. *)
Definition py_div (a b : nat) : option Q :=
  if decide (b = 0) then None
  else Some (inject_Z (Z.of_nat a) / inject_Z (Z.of_nat b))%Q.

Record DifferenceReport := {
  missed_diagnoses : list str;
  wrong_diagnoses : list str;
  correct_diagnoses : list str;
  accuracy : Q;
  precision : Q
}.

(** [PromptOptimizer.analyze_differences]; [None] if a division raised. *)
Definition analyze_differences (predicted ground_truth : list str)
  : option DifferenceReport :=
  let pred_set := label_set predicted in
  let truth_set := label_set ground_truth in
  let missed := truth_set ∖ pred_set in
  let extra := pred_set ∖ truth_set in
  let correct := pred_set ∩ truth_set in
  acc ← (if decide (truth_set = ∅) then Some 0%Q
         else py_div (size correct) (Nat.max (size truth_set) 1));
  prec ← (if decide (pred_set = ∅) then Some 0%Q
          else py_div (size correct) (Nat.max (size pred_set) 1));
  Some {| missed_diagnoses := elements missed;
          wrong_diagnoses := elements extra;
          correct_diagnoses := elements correct;
          accuracy := acc;
          precision := prec |}.

(** What [calculate_overlap] returns: a bare [float] or a [dict]. *)
Inductive overlap_result :=
| BareFloat (x : Q)
| OverlapRecord (score : Q) (overlap_diseases missed_diseases extra_diseases : list str).

(** [main.calculate_overlap]; [None] if the division raised. *)
Definition calculate_overlap (predicted_diseases ground_truth : list str)
  : option overlap_result :=
  if decide (predicted_diseases = [] ∨ ground_truth = []) then Some (BareFloat 0)
  else
    let pred_set := label_set predicted_diseases in
    let truth_set := label_set ground_truth in
    if decide (pred_set = ∅ ∨ truth_set = ∅) then Some (BareFloat 0)
    else
      let overlap := pred_set ∩ truth_set in
      let union := pred_set ∪ truth_set in
      score ← py_div (size overlap) (size union);
      Some (OverlapRecord score (elements overlap)
                          (elements (truth_set ∖ pred_set))
                          (elements (pred_set ∖ truth_set))).

(** The number a caller sees as the overlap of the two lists. *)
Definition overlap_value (r : overlap_result) : Q :=
  match r with
  | BareFloat x => x
  | OverlapRecord score _ _ _ => score
  end.

(** The overlap score of two label lists. *)
Definition overlap_score (predicted_diseases ground_truth : list str) : option Q :=
  overlap_value <$> calculate_overlap predicted_diseases ground_truth.

(** A list has a label to normalise iff one of its strings is non-empty. *)
Definition has_label (labels : list str) : Prop := ∃ d, d ∈ labels ∧ d ≠ [].

(** [overlap_result['score']]: a [float] cannot be subscripted. *)
Definition subscript_score (r : overlap_result) : option Q :=
  match r with
  | BareFloat _ => None
  | OverlapRecord score _ _ _ => Some score
  end.

End Scorer.

(** An environment that agrees with CPython on ASCII letters and on the
    text of integers, booleans and [None]; used to run the model on
    concrete inputs inside that fragment. *)
Module AsciiEnv.

Definition lower_char (c : N) : N :=
  if ((65 <=? c) && (c <=? 90))%N then (c + 32)%N else c.

Fixpoint pos_digits (fuel : nat) (n : N) (acc : str) : str :=
  match fuel with
  | 0 => acc
  | S fuel' =>
    let acc' := (48 + n mod 10)%N :: acc in
    if (n <? 10)%N then acc' else pos_digits fuel' (n / 10)%N acc'
  end.

Definition int_repr (z : Z) : str :=
  let ds := pos_digits (S (N.to_nat (N.log2 (Z.abs_N z)))) (Z.abs_N z) [] in
  if (z <? 0)%Z then 45%N :: ds else ds.

Definition repr (v : json) : str :=
  match v with
  | JNull => Text.utf8 "None"
  | JBool true => Text.utf8 "True"
  | JBool false => Text.utf8 "False"
  | JInt z => int_repr z
  | JStr s => s
  | _ => Text.utf8 "<repr>"
  end.

#[export] Instance env : PyEnv :=
  {| py_lower := map lower_char; py_repr := repr; recursion_limit := 990 |}.

End AsciiEnv.

(** ** Rational comparisons as the program writes them *)

Definition Qgtb (x y : Q) : bool := negb (Qle_bool x y).
Definition Qltb (x y : Q) : bool := negb (Qle_bool y x).

(** ** Records of [prompt_optimizer.py] *)

(** A dict may lack a key: such fields are optional. *)
Record case_dict := {
  cd_case_id : option str;
  cd_input_data : option json;
  cd_gt_data : option json
}.

(** One entry of [analysis_results]. *)
Record case_result := {
  cr_case_id : option str;
  cr_predictions : option (list str);
  cr_ground_truth : option json;
  cr_differences : option DifferenceReport;
  cr_analysis_report : option str
}.

Record summary_data := {
  total_cases : nat;
  common_missed_diagnoses : list str;
  common_wrong_diagnoses : list str
}.

(** One entry of [optimization_history]. *)
Record iteration_data := {
  it_iteration : Z;
  it_old_prompt : str;
  it_new_prompt : option str;
  it_analysis_results : option (list case_result);
  it_summary : option summary_data
}.

Record PromptOptimizer := {
  current_iteration : Z;
  optimization_history : list iteration_data
}.

(** The [context] argument of [PromptOptimizer.generate_prompt]. *)
Record gen_context := {
  ctx_base_prompt : option str;
  ctx_all_cases : option (list case_dict);
  ctx_iteration : option Z;
  ctx_previous_results : option (Q * Z)
}.

(** [not context] *)
Definition context_is_empty (c : gen_context) : bool :=
  match ctx_base_prompt c, ctx_all_cases c, ctx_iteration c, ctx_previous_results c with
  | None, None, None, None => true
  | _, _, _, _ => false
  end.

(** ** What is sent to the collaborators *)

Record case_analysis := {
  ca_case_id : str;
  ca_predictions : list str;
  ca_ground_truth : json;
  ca_missed_diagnoses : list str;
  ca_wrong_diagnoses : list str;
  ca_analysis_report : str
}.

Record previous_analysis := {
  pa_prompt : str;
  pa_case_analyses : list case_analysis;
  pa_analysis_summary : summary_data
}.

Record optimizer_request := {
  req_base_prompt : str;
  req_iteration : Z;
  req_previous_analysis : option previous_analysis
}.

Record analysis_context := {
  ac_base_prompt : str;
  ac_input_data : json;
  ac_predictions : list str;
  ac_ground_truth : json;
  ac_differences : DifferenceReport
}.

(** The three collaborators a [PromptOptimizer] is built from.  A call
    consumes the world; [None] is a raised exception.  The optimizer may
    return any value. *)
Class Services (World : Type) := {
  optimizer_generate_prompt : optimizer_request -> World -> option json * World;
  analyzer_analyze_results : analysis_context -> World -> option str * World;
  qwen_predict : str -> json -> World -> option str * World
}.

(** ** The prompt template *)

Definition marker_task : str := Text.utf8 "【任务说明】".
Definition marker_rules : str := Text.utf8 "【重要规则】".
Definition marker_requirements : str := Text.utf8 "【输出要求】".
Definition marker_format : str := Text.utf8 "【输出格式】".
Definition section_markers : list str :=
  [marker_task; marker_rules; marker_requirements; marker_format].

(** The opening bracket on which [DeepSeekAPI.generate_prompt] splits. *)
Definition left_bracket : N := 12304%N.

Definition base_prompt_template : str := Text.jtext
"你是一位拥有30年临床经验的资深医生，精通各种医学影像的解读和疾病诊断。请严格按照以下要求分析患者的影像报告：

【任务说明】
仔细分析输入的医学影像数据，识别所有异常描述，结合临床经验判断可能的疾病。你需要综合考虑各项指标之间的相互关系，而不是孤立地看待单个异常值。

【重要规则】
1. 只输出有明确异常支持的疾病诊断
2. 如果指标在正常范围内或异常程度轻微，不作为诊断依据
3. 优先考虑常见病、多发病
4. 使用标准ICD-10疾病命名，但一定不要输出icd-10编码，只许输出疾病名称
5. 必须保证输出格式不变

【输出要求】
1. 必须以 JSON 格式输出，包含 diseases 数组
2. 不要输出任何解释性文字

【输出格式】
{
    'diseases': ['疾病1', '疾病2', '疾病3']
}".

Definition analysis_failed : str := Text.utf8 "分析失败".

(** The long constants are not to be unfolded by simplification, and
    conversion unfolds them last. *)
Strategy opaque [base_prompt_template marker_task marker_rules
                 marker_requirements marker_format analysis_failed].
Arguments base_prompt_template : simpl never.
Arguments marker_task : simpl never.
Arguments marker_rules : simpl never.
Arguments marker_requirements : simpl never.
Arguments marker_format : simpl never.
Arguments analysis_failed : simpl never.

(** ** [PromptOptimizer] *)

Section Optimizer.
Context `{PyEnv} {World : Type} `{Services World}.

(** [predict_diseases]: up to [max_retries] calls of the predictor; the
    first non-empty label list wins. *)
Fixpoint predict_attempts (remaining : nat) (prompt : str) (data : json)
    (w : World) : list str * World :=
  match remaining with
  | 0 => ([], w)
  | S remaining' =>
    let '(reply, w1) := qwen_predict prompt data w in
    match reply with
    | Some response =>
      match extract_diseases_from_response response with
      | [] => predict_attempts remaining' prompt data w1
      | diseases => (diseases, w1)
      end
    | None => predict_attempts remaining' prompt data w1
    end
  end.

Definition max_retries : nat := 3.

Definition predict_diseases (prompt : str) (data : json) (w : World)
  : list str * World :=
  predict_attempts max_retries prompt data w.

(** What [for d in v] visits; [None] when [v] is not iterable. *)
Definition py_iter (v : json) : option (list json) :=
  match v with
  | JArr items => Some items
  | JStr s => Some ((fun c => JStr [c]) <$> s)
  | JObj pairs => Some ((fun kv => JStr kv.1) <$> pairs)
  | _ => None
  end.

(** The elements of [ground_truth] that [analyze_differences] normalises:
    the true ones, each of which must have a [strip] method. *)
Definition truth_labels (ground_truth : json) : option (list str) :=
  items ← py_iter ground_truth;
  mapM (fun d => match d with JStr s => Some s | _ => None end)
       (filter (fun d => Json.truthy d = true) items).

(** [gt_data.get('diseases', [])] *)
Definition gt_diseases_of (gt_data : json) : option json :=
  match gt_data with
  | JObj pairs => Some (default (JArr []) (Json.obj_get key_diseases pairs))
  | _ => None
  end.

(** [analyze_results]: [None] when an exception leaves the method. *)
Definition analyze_results (optimized_prompt : str) (input : json) (gt : json)
    (w : World) : option case_result * World :=
  let '(predicted, w1) := predict_diseases optimized_prompt input w in
  match gt_diseases_of gt with
  | None => (None, w1)
  | Some gt_diseases =>
    match truth_labels gt_diseases ≫= analyze_differences predicted with
    | None => (None, w1)
    | Some differences =>
      let '(report, w2) :=
        analyzer_analyze_results
          {| ac_base_prompt := optimized_prompt; ac_input_data := input;
             ac_predictions := predicted; ac_ground_truth := gt_diseases;
             ac_differences := differences |} w1 in
      match report with
      | None => (None, w2)
      | Some analysis_report =>
        (Some {| cr_case_id := None;
                 cr_predictions := Some predicted;
                 cr_ground_truth := Some gt_diseases;
                 cr_differences := Some differences;
                 cr_analysis_report := Some analysis_report |}, w2)
      end
    end
  end.

(** Lines 266-292: the per-case loop.  A case that lacks a key or whose
    analysis raises is skipped. *)
Fixpoint analyze_cases (optimized_prompt : str) (cases : list case_dict)
    (w : World) : list case_result * gset str * gset str * World :=
  match cases with
  | [] => ([], ∅, ∅, w)
  | case :: rest =>
    match cd_case_id case, cd_input_data case, cd_gt_data case with
    | Some cid, Some input, Some gt =>
      let '(case_analysis, w1) := analyze_results optimized_prompt input gt w in
      let '(results, missed, wrong, w2) := analyze_cases optimized_prompt rest w1 in
      match case_analysis with
      | Some r =>
        let d := default [] (missed_diagnoses <$> cr_differences r) in
        let e := default [] (wrong_diagnoses <$> cr_differences r) in
        ({| cr_case_id := Some cid;
            cr_predictions := cr_predictions r;
            cr_ground_truth := cr_ground_truth r;
            cr_differences := cr_differences r;
            cr_analysis_report := cr_analysis_report r |} :: results,
         list_to_set d ∪ missed, list_to_set e ∪ wrong, w2)
      | None => (results, missed, wrong, w2)
      end
    | _, _, _ => analyze_cases optimized_prompt rest w
    end
  end.

(** Lines 222-232: one entry of [case_analyses]; [None] is [KeyError]. *)
Definition case_analysis_of (result : case_result) : option case_analysis :=
  cid ← cr_case_id result;
  predictions ← cr_predictions result;
  ground_truth ← cr_ground_truth result;
  differences ← cr_differences result;
  analysis_report ← cr_analysis_report result;
  Some {| ca_case_id := cid; ca_predictions := predictions;
          ca_ground_truth := ground_truth;
          ca_missed_diagnoses := missed_diagnoses differences;
          ca_wrong_diagnoses := wrong_diagnoses differences;
          ca_analysis_report := analysis_report |}.

(** Lines 199-250: the request for the optimizer; [None] is one of the
    early [return base_prompt]. *)
Definition build_request (self : PromptOptimizer) (base_prompt : str)
  : option optimizer_request :=
  if (current_iteration self =? 1)%Z then
    Some {| req_base_prompt := base_prompt;
            req_iteration := current_iteration self;
            req_previous_analysis := None |}
  else
    last_iteration ← last (optimization_history self);
    results ← it_analysis_results last_iteration;
    new_prompt ← it_new_prompt last_iteration;
    summary ← it_summary last_iteration;
    match omap case_analysis_of results with
    | [] => None
    | case_analyses =>
      Some {| req_base_prompt := base_prompt;
              req_iteration := current_iteration self;
              req_previous_analysis :=
                Some {| pa_prompt := new_prompt;
                        pa_case_analyses := case_analyses;
                        pa_analysis_summary := summary |} |}
    end.

(** Lines 253-259: a true [str] that contains the rules marker. *)
Definition valid_optimized (optimized_prompt : option json) : option str :=
  match optimized_prompt with
  | Some (JStr p) =>
    if nonempty p && Text.contains marker_rules p then Some p else None
  | _ => None
  end.

(** Line 191: the prompt a call starts from and falls back to. *)
Definition base_prompt_of (context : gen_context) : str :=
  default base_prompt_template (ctx_base_prompt context).

(** The object once line 190 has run. *)
Definition entered (self : PromptOptimizer) (context : gen_context)
  : PromptOptimizer :=
  {| current_iteration :=
       default (current_iteration self + 1)%Z (ctx_iteration context);
     optimization_history := optimization_history self |}.

(** [PromptOptimizer.generate_prompt]: the returned prompt, the object
    after the call and the world after the call. *)
Definition generate_prompt (self : PromptOptimizer) (context : gen_context)
    (w : World) : str * PromptOptimizer * World :=
  if context_is_empty context then (base_prompt_template, self, w)
  else
    let self1 := entered self context in
    let base_prompt := base_prompt_of context in
    let all_cases := default [] (ctx_all_cases context) in
    match all_cases with
    | [] => (base_prompt, self1, w)
    | _ :: _ =>
      match build_request self1 base_prompt with
      | None => (base_prompt, self1, w)
      | Some request =>
        let '(reply, w1) := optimizer_generate_prompt request w in
        match valid_optimized reply with
        | None => (base_prompt, self1, w1)
        | Some optimized_prompt =>
          let '(analysis_results, total_missed, total_wrong, w2) :=
            analyze_cases optimized_prompt all_cases w1 in
          match analysis_results with
          | [] => (base_prompt, self1, w2)
          | _ :: _ =>
            let iteration_data :=
              {| it_iteration := current_iteration self1;
                 it_old_prompt := base_prompt;
                 it_new_prompt := Some optimized_prompt;
                 it_analysis_results := Some analysis_results;
                 it_summary :=
                   Some {| total_cases := length all_cases;
                           common_missed_diagnoses := elements total_missed;
                           common_wrong_diagnoses := elements total_wrong |} |} in
            (optimized_prompt,
             {| current_iteration := current_iteration self1;
                optimization_history :=
                  optimization_history self1 ++ [iteration_data] |},
             w2)
          end
        end
      end
    end.

(** The invocations of [generate_prompt] that fail, cause by cause. *)
Inductive failing_invocation (self : PromptOptimizer) (context : gen_context)
    (w : World) : Prop :=
| EmptyContext :
    context_is_empty context = true →
    failing_invocation self context w
| NoCases :
    default [] (ctx_all_cases context) = [] →
    failing_invocation self context w
| MissingHistory :
    current_iteration (entered self context) ≠ 1%Z →
    optimization_history self = [] →
    failing_invocation self context w
| IncompleteHistory (last_iteration : iteration_data) :
    current_iteration (entered self context) ≠ 1%Z →
    last (optimization_history self) = Some last_iteration →
    it_analysis_results last_iteration = None
    ∨ it_new_prompt last_iteration = None
    ∨ it_summary last_iteration = None
    ∨ (∃ results, it_analysis_results last_iteration = Some results
                  ∧ omap case_analysis_of results = []) →
    failing_invocation self context w
| InvalidOptimizerOutput (request : optimizer_request) :
    (* the optimizer raised, or returned no prompt with the rules marker *)
    build_request (entered self context) (base_prompt_of context) = Some request →
    valid_optimized (optimizer_generate_prompt request w).1 = None →
    failing_invocation self context w
| NoCaseAnalysed (request : optimizer_request) (optimized_prompt : str) :
    build_request (entered self context) (base_prompt_of context) = Some request →
    valid_optimized (optimizer_generate_prompt request w).1 = Some optimized_prompt →
    (analyze_cases optimized_prompt (default [] (ctx_all_cases context))
                   (optimizer_generate_prompt request w).2).1.1.1 = [] →
    failing_invocation self context w.

End Optimizer.

(** ** Progress classification ([evaluate_optimization_progress]) *)

Inductive progress_status := NoProgress | Improving | Stagnating | Unstable.

Record progress := {
  status : progress_status;
  best_iteration : nat;
  best_accuracy : Q;
  accuracy_trend : list Q
}.

Definition Qsum (l : list Q) : Q := fold_left Qplus l 0%Q.

(** Lines 354-362: the mean of the [accuracy] fields of one iteration. *)
Definition iteration_accuracy (results : list case_result) : Q :=
  let scored := omap (fun r => accuracy <$> cr_differences r) results in
  match scored with
  | [] => 0%Q
  | _ => (Qsum scored / inject_Z (Z.of_nat (length scored)))%Q
  end.

(** Lines 353-367; [None] is the [KeyError] of a record without
    [analysis_results]. *)
Definition trend_of (history : list iteration_data) : option (list Q) :=
  mapM (fun it => iteration_accuracy <$> it_analysis_results it) history.

(** The running maximum with the index (from 1) where it was first reached. *)
Fixpoint best_of (i : nat) (trend : list Q) (best : Q) (best_i : nat) : Q * nat :=
  match trend with
  | [] => (best, best_i)
  | a :: rest =>
    if Qgtb a best then best_of (S i) rest a i else best_of (S i) rest best best_i
  end.

Definition epsilon : Q := (1 # 100)%Q.

(** Line 370. *)
Definition is_improving (trend : list Q) : bool :=
  match rev trend with
  | a :: b :: _ => Qgtb a b
  | _ => false
  end.

(** Lines 371-374. *)
Definition is_stagnating (trend : list Q) : bool :=
  match rev trend with
  | a :: b :: c :: _ =>
    Qltb (Qabs (a - b)) epsilon && Qltb (Qabs (b - c)) epsilon
  | _ => false
  end.

(** Line 376. *)
Definition trend_status (trend : list Q) : progress_status :=
  if is_improving trend then Improving
  else if is_stagnating trend then Stagnating
  else Unstable.

(** Lines 370-376 once more, over IEEE doubles, to run the classification
    on literal trends exactly as the interpreter does. *)
Module DoubleTrend.
Import PrimFloat.

Definition is_improving_double (trend : list float) : bool :=
  match rev trend with
  | a :: b :: _ => ltb b a
  | _ => false
  end.

Definition is_stagnating_double (trend : list float) : bool :=
  match rev trend with
  | a :: b :: c :: _ =>
    ltb (abs (sub a b)) 0.01%float && ltb (abs (sub b c)) 0.01%float
  | _ => false
  end.

Definition trend_status_double (trend : list float) : progress_status :=
  if is_improving_double trend then Improving
  else if is_stagnating_double trend then Stagnating
  else Unstable.

(** The three example histories. *)
Definition flat : list float := [0.50; 0.50; 0.50]%float.
Definition rising : list float := [0.30; 0.50]%float.
Definition falling : list float := [0.90; 0.20]%float.

End DoubleTrend.

Definition evaluate_optimization_progress (self : PromptOptimizer)
  : option progress :=
  match optimization_history self with
  | [] => Some {| status := NoProgress; best_iteration := 0;
                  best_accuracy := 0; accuracy_trend := [] |}
  | history =>
    trend ← trend_of history;
    let '(best, best_i) := best_of 1 trend 0%Q 0 in
    Some {| status := trend_status trend; best_iteration := best_i;
            best_accuracy := best; accuracy_trend := trend |}
  end.

(** ** What [QwenAPI.predict] does to a reply *)

(** The pattern of [QwenAPI.predict], as a backtracking matcher: a
    continuation receives the text after the part matched so far; a star is
    greedy and gives characters back one at a time. *)
Module Regex.

Definition cont := str -> option str.

Definition lit (l : str) (k : cont) : cont :=
  fun s => if Text.starts_with l s then k (drop (length l) s) else None.

Fixpoint star (p : N -> bool) (k : cont) (s : str) : option str :=
  match s with
  | c :: r =>
    if p c then
      match star p k r with
      | Some rest => Some rest
      | None => k s
      end
    else k s
  | [] => k s
  end.

Definition not_brace (c : N) : bool := negb ((c =? 123) || (c =? 125))%N.
Definition not_rbracket (c : N) : bool := negb (c =? 93)%N.

(** An opening brace, no braces, the quoted key, a colon between optional
    spaces, a bracketed run without a closing bracket, no braces, a
    closing brace. *)
Definition json_pattern : cont :=
  lit [123%N] (star not_brace (lit (Text.jtext "'diseases'")
    (star Text.is_space (lit [58%N] (star Text.is_space
      (lit [91%N] (star not_rbracket (lit [93%N]
        (star not_brace (lit [125%N] Some)))))))))).

(** The texts the pattern matches. *)
Definition pattern_shape (m : str) : Prop :=
  ∃ r1 w1 w2 r2 r3,
    m = [123%N] ++ r1 ++ Text.jtext "'diseases'" ++ w1 ++ [58%N] ++ w2
        ++ [91%N] ++ r2 ++ [93%N] ++ r3 ++ [125%N]
    ∧ Forall (fun c => not_brace c = true) r1
    ∧ Forall (fun c => Text.is_space c = true) w1
    ∧ Forall (fun c => Text.is_space c = true) w2
    ∧ Forall (fun c => not_rbracket c = true) r2
    ∧ Forall (fun c => not_brace c = true) r3.

(** [re.findall(json_pattern, content)[0]]: the leftmost match. *)
Fixpoint first_match (s : str) : option str :=
  match json_pattern s with
  | Some rest => Some (take (length s - length rest) s)
  | None =>
    match s with
    | [] => None
    | _ :: r => first_match r
    end
  end.

End Regex.

(** [json.dumps({'diseases': labels}, ensure_ascii=False, indent=2)] *)
Module Dumps.

Definition hex_digit (n : N) : N :=
  if (n <? 10)%N then (48 + n)%N else (87 + n)%N.

Definition escape_char (c : N) : str :=
  if (c =? 34)%N then [92; 34]%N
  else if (c =? 92)%N then [92; 92]%N
  else if (c =? 10)%N then [92; 110]%N
  else if (c =? 13)%N then [92; 114]%N
  else if (c =? 9)%N then [92; 116]%N
  else if (c =? 8)%N then [92; 98]%N
  else if (c =? 12)%N then [92; 102]%N
  else if (c <? 32)%N
       then [92; 117; 48; 48; hex_digit (c / 16); hex_digit (c mod 16)]%N
  else [c].

Definition dumps_str (s : str) : str :=
  [34%N] ++ concat (escape_char <$> s) ++ [34%N].

Definition newline_indent (level : nat) : str :=
  10%N :: replicate (2 * level) 32%N.

Fixpoint join_items (items : list str) : str :=
  match items with
  | [] => []
  | [x] => x
  | x :: rest => x ++ [44%N] ++ newline_indent 2 ++ join_items rest
  end.

Definition dumps_list (labels : list str) : str :=
  match labels with
  | [] => [91; 93]%N
  | _ => [91%N] ++ newline_indent 2 ++ join_items (dumps_str <$> labels)
         ++ newline_indent 1 ++ [93%N]
  end.

Definition dumps_diseases (labels : list str) : str :=
  [123%N] ++ newline_indent 1 ++ dumps_str (Text.utf8 "diseases") ++ [58; 32]%N
  ++ dumps_list labels ++ newline_indent 0 ++ [125%N].

End Dumps.

Definition format_instruction : str := Text.jtext "
请严格按照以下JSON格式返回结果：
{
    'diseases': [
        '疾病1',
        '疾病2'
    ]
}

格式要求：
1. 必须是合法的JSON格式
2. diseases数组必须存在，即使为空也要保留
3. 每个疾病名称必须是非空字符串
4. 不要在JSON外添加任何注释或说明
5. 不要使用Markdown代码块

示例输出：
{'diseases': ['支气管炎', '肺气肿']}".

(** Lines 199-220 of [api_clients.py]. *)
Definition enhanced_prompt (prompt : str) : str :=
  if Text.contains key_diseases prompt then prompt
  else prompt ++ [10; 10]%N ++ format_instruction.

Section QwenCleaning.
Context `{PyEnv}.

(** Lines 272-281 of [api_clients.py]; the comprehension is the one of
    [extract_diseases_from_response]. *)
Definition qwen_standardise (result : json) : str :=
  match result with
  | JObj pairs =>
    match Json.obj_get key_diseases pairs with
    | Some diseases => Dumps.dumps_diseases (diseases_of_value diseases)
    | None => Dumps.dumps_diseases []
    end
  | _ => Dumps.dumps_diseases []
  end.

(** Lines 252-285 of [api_clients.py]: direct parse; on [JSONDecodeError]
    the first match of the pattern; in every other case the empty
    document. *)
Definition qwen_clean (content : str) : str :=
  match Json.loads content with
  | Json.Ok result => qwen_standardise result
  | Json.Err Json.DecodeError =>
    match Regex.first_match content with
    | Some m =>
      match Json.loads m with
      | Json.Ok result => qwen_standardise result
      | Json.Err _ => Dumps.dumps_diseases []
      end
    | None => Dumps.dumps_diseases []
    end
  | Json.Err _ => Dumps.dumps_diseases []
  end.

End QwenCleaning.

(** ** [DeepSeekAPI] and [QwenAPI] over the raw services *)

(** The chat completions behind the three clients.  [None] is an exception
    that survives the retries of the client, or a reply without text. *)
Class Oracles (World : Type) := {
  chat_optimizer : optimizer_request -> World -> option str * World;
  chat_analyzer : analysis_context -> World -> option str * World;
  chat_predictor : str -> json -> World -> option str * World
}.

(** Lines 124-135 of [api_clients.py]. *)
Definition skeleton_ok (content : str) : bool :=
  forallb (fun section => Text.contains section content) section_markers
  && bool_decide (length (Text.split_on left_bracket content) = 5).

Section Clients.
Context `{PyEnv} {World : Type} `{Oracles World}.

(** [DeepSeekAPI.generate_prompt] *)
Definition deepseek_generate_prompt (context : optimizer_request) (w : World)
  : option json * World :=
  let '(reply, w1) := chat_optimizer context w in
  match reply with
  | Some content =>
    if skeleton_ok content then (Some (JStr content), w1)
    else (Some (JStr (req_base_prompt context)), w1)
  | None => (Some (JStr (req_base_prompt context)), w1)
  end.

(** The worlds in which whatever the optimizer service is asked, its
    reply is a candidate that fails the validation. *)
Definition candidate_invalid_at (w : World) : Prop :=
  ∀ request content w1,
    chat_optimizer request w = (Some content, w1) → skeleton_ok content = false.

(** [DeepSeekAPI.analyze_results] *)
Definition deepseek_analyze_results (context : analysis_context) (w : World)
  : option str * World :=
  let '(reply, w1) := chat_analyzer context w in
  (Some (default analysis_failed reply), w1).

(** [QwenAPI.predict]: it never raises. *)
Definition qwen_api_predict (prompt : str) (data : json) (w : World)
  : option str * World :=
  let '(reply, w1) := chat_predictor (enhanced_prompt prompt) data w in
  match reply with
  | Some raw => (Some (qwen_clean (Text.strip raw)), w1)
  | None => (Some (Dumps.dumps_diseases []), w1)
  end.

#[export] Instance api_services : Services World :=
  {| optimizer_generate_prompt := deepseek_generate_prompt;
     analyzer_analyze_results := deepseek_analyze_results;
     qwen_predict := qwen_api_predict |}.

End Clients.

(** ** [main.py] *)

(** A loaded case: [main] builds these dicts itself, with all three keys. *)
Record case := {
  case_id : str;
  input_data : json;
  gt_data : json
}.

Definition to_dict (c : case) : case_dict :=
  {| cd_case_id := Some (case_id c);
     cd_input_data := Some (input_data c);
     cd_gt_data := Some (gt_data c) |}.

Section ProcessInput.
Context `{PyEnv}.

(** [[str(d).strip() for d in items if d is not None]] *)
Definition stripped_strs (items : list json) : list str :=
  omap (fun d => match d with
                 | JNull => None
                 | _ => Some (Text.strip (str_of d))
                 end) items.

(** [process_input_data] *)
Definition process_input_data (data : json) : list str :=
  match data with
  | JArr items => stripped_strs items
  | JObj pairs =>
    match Json.obj_get key_diseases pairs with
    | Some (JArr items) => stripped_strs items
    | Some JNull => []
    | Some diseases => [Text.strip (str_of diseases)]
    | None => []
    end
  | _ => []
  end.

End ProcessInput.

(** One entry of [all_results]. *)
Record case_score := {
  cs_case_id : str;
  cs_iteration : nat;
  cs_predicted : list str;
  cs_ground_truth : list str;
  cs_overlap : Q
}.

Record loop_state := {
  best_prompt : str;
  best_avg_overlap : Q;
  stagnation_count : nat;
  optimizer : PromptOptimizer
}.

(** How a round leaves the body of the [for] loop. *)
Inductive round_exit :=
| NextRound         (* the body ran to its end *)
| PerfectMatch      (* [break] of line 303 *)
| Stagnated.        (* [break] of line 322 *)

(** What a round did, for the statements below. *)
Record round_log := {
  rl_round : nat;                    (* [i + 1] *)
  rl_new_prompt : str;
  rl_generation_cases : list case;   (* [all_cases] sent to [generate_prompt] *)
  rl_context_cases : list case;      (* [optimization_context['all_cases']] when the [try] ends *)
  rl_evaluated_cases : list case;    (* the cases the loop of line 250 ran over *)
  rl_scored : nat;                   (* [total_files] *)
  rl_avg_overlap : Q;
  rl_stagnation_count : nat;         (* after lines 222-231 *)
  rl_exit : round_exit
}.

Definition max_iterations : nat := 10.
Definition stagnation_limit : nat := 5.

Section Main.
Context `{PyEnv} {World : Type} `{Services World}.
Context (all_cases : list case).

(** Lines 255-284: [None] is an exception caught by line 282. *)
Definition evaluate_case (round : nat) (new_prompt : str) (c : case) (w : World)
  : option case_score * World :=
  let '(predicted_diseases, w1) := predict_diseases new_prompt (input_data c) w in
  let processed_predictions := process_input_data (JArr (JStr <$> predicted_diseases)) in
  let processed_gt := process_input_data (gt_data c) in
  (overlap_result ← calculate_overlap processed_predictions processed_gt;
   current_overlap ← subscript_score overlap_result;
   Some {| cs_case_id := case_id c; cs_iteration := round;
           cs_predicted := processed_predictions;
           cs_ground_truth := processed_gt;
           cs_overlap := current_overlap |}, w1).

(** Lines 246-284: the accumulators are [total_overlap], [total_files]
    and [all_results]. *)
Fixpoint evaluate_cases (round : nat) (new_prompt : str) (cases : list case)
    (acc : Q * nat * list case_score) (w : World)
  : Q * nat * list case_score * World :=
  match cases with
  | [] => (acc, w)
  | c :: rest =>
    let '(r, w1) := evaluate_case round new_prompt c w in
    let acc1 :=
      match r with
      | Some s =>
        let '(total_overlap, total_files, all_results) := acc in
        ((total_overlap + cs_overlap s)%Q, S total_files, all_results ++ [s])
      | None => acc
      end in
    evaluate_cases round new_prompt rest acc1 w1
  end.

(** Line 286. *)
Definition average (total_overlap : Q) (total_files : nat) : Q :=
  if decide (0 < total_files)
  then (total_overlap / inject_Z (Z.of_nat total_files))%Q
  else 0%Q.

(** Lines 196-322: the body of the loop for index [i]. *)
Definition run_round (i : nat) (st : loop_state) (w : World)
  : round_log * loop_state * World :=
  let generation_cases := take 3 all_cases in
  let optimization_context :=
    {| ctx_base_prompt := Some (best_prompt st);
       ctx_all_cases := Some (to_dict <$> generation_cases);
       ctx_iteration := Some (Z.of_nat (i + 1));
       ctx_previous_results := Some (best_avg_overlap st, Z.of_nat i) |} in
  let '(generated, optimizer1, w1) :=
    generate_prompt (optimizer st) optimization_context w in
  let '(new_prompt, stagnation1, context_cases) :=
    match evaluate_optimization_progress optimizer1 with
    | Some progress =>
      match status progress with
      | Stagnating =>
        let stagnation := S (stagnation_count st) in
        if decide (3 ≤ stagnation) then
          let all_cases_used := Nat.min (length all_cases) (3 + stagnation) in
          (generated, stagnation, take all_cases_used all_cases)
        else (generated, stagnation, generation_cases)
      | _ => (generated, 0, generation_cases)
      end
    | None => (best_prompt st, stagnation_count st, generation_cases)
    end in
  let '(total_overlap, total_files, all_results, w2) :=
    evaluate_cases (i + 1) new_prompt all_cases (0%Q, 0, []) w1 in
  let avg_overlap := average total_overlap total_files in
  let improved := Qgtb avg_overlap (best_avg_overlap st) in
  let st1 :=
    {| best_prompt := if improved then new_prompt else best_prompt st;
       best_avg_overlap := if improved then avg_overlap else best_avg_overlap st;
       stagnation_count := stagnation1;
       optimizer := optimizer1 |} in
  let exit :=
    if improved && Qeq_bool avg_overlap 1 then PerfectMatch
    else if decide (stagnation_limit ≤ stagnation1) then Stagnated
    else NextRound in
  ({| rl_round := i + 1; rl_new_prompt := new_prompt;
      rl_generation_cases := generation_cases;
      rl_context_cases := context_cases;
      rl_evaluated_cases := all_cases;
      rl_scored := total_files;
      rl_avg_overlap := avg_overlap;
      rl_stagnation_count := stagnation1;
      rl_exit := exit |}, st1, w2).

(** [for i in range(i, i + remaining)] *)
Fixpoint run_rounds (remaining : nat) (i : nat) (st : loop_state) (w : World)
  : list round_log * loop_state * World :=
  match remaining with
  | 0 => ([], st, w)
  | S remaining' =>
    let '(log, st1, w1) := run_round i st w in
    match rl_exit log with
    | NextRound =>
      let '(logs, st2, w2) := run_rounds remaining' (S i) st1 w1 in
      (log :: logs, st2, w2)
    | _ => ([log], st1, w1)
    end
  end.

(** Lines 164-168. *)
Definition initial_state : loop_state :=
  {| best_prompt := base_prompt_template;
     best_avg_overlap := 0;
     stagnation_count := 0;
     optimizer := {| current_iteration := 0; optimization_history := [] |} |}.

(** The loop of [main]: the log of the rounds it ran and the final state. *)
Definition main_loop (w : World) : list round_log * loop_state * World :=
  run_rounds max_iterations 0 initial_state w.

End Main.


(** ** A concrete run

    Ten cases with the ground truth [a, b]; an optimizer service that
    always answers with [candidate] and an analyzer that always answers;
    a predictor that always answers with [reply]. *)
Module Demo.

Definition gt_ab : json :=
  JObj [(key_diseases, JArr [JStr (Text.utf8 "a"); JStr (Text.utf8 "b")])].

Definition mk_case (n : N) : case :=
  {| case_id := [(48 + n)%N];
     input_data := JObj [(Text.utf8 "content", JStr (Text.utf8 "x"))];
     gt_data := gt_ab |}.

Definition cases10 : list case := mk_case <$> [0; 1; 2; 3; 4; 5; 6; 7; 8; 9]%N.

Definition oracles (candidate : option str) (reply : str) : Oracles unit :=
  {| chat_optimizer := fun _ w => (candidate, w);
     chat_analyzer := fun _ w => (Some (Text.utf8 "ok"), w);
     chat_predictor := fun _ _ w => (Some reply, w) |}.

Definition services (candidate : option str) (reply : str) : Services unit :=
  api_services (H := AsciiEnv.env) (H0 := oracles candidate reply).

(** The predictor names one of the two true labels. *)
Definition reply_a : str := Text.jtext "{'diseases': ['a']}".

(** The predictor names no label. *)
Definition reply_none : str := Text.jtext "{'diseases': []}".

(** A candidate prompt without the marker of the rules section. *)
Definition candidate_without_rules : str := Text.utf8 "【任务说明】
x
【输出要求】
y
【输出格式】
z".

Definition run (candidate : option str) (reply : str)
  : list round_log * loop_state * unit :=
  main_loop (H := AsciiEnv.env) (H0 := services candidate reply) cases10 tt.

End Demo.

(** ** Further definitions for the properties of the rest of the code *)

(** A text whose first character, if any, is kept by [p]-stripping, and
    one whose last character is. *)
Definition no_lead (p : N -> bool) (s : str) : Prop :=
  match s with
  | c :: _ => p c = false
  | [] => True
  end.

Definition no_trail (p : N -> bool) (s : str) : Prop := no_lead p (rev s).

(** A text that [s.strip()] leaves as it is. *)
Definition stripped (s : str) : Prop :=
  no_lead Text.is_space s ∧ no_trail Text.is_space s.

(** The labels of a list that survive the test [d and str(d).strip()] of
    the two comprehensions, trimmed. *)
Definition kept_labels (labels : list str) : list str :=
  omap (fun l => if nonempty (Text.strip l) then Some (Text.strip l) else None)
       labels.

(** A label as the pipeline delivers it: not empty, nothing to trim. *)
Definition clean_label (l : str) : Prop := l ≠ [] ∧ stripped l.

(** An entry of [analysis_results] with all five keys, as
    [generate_prompt] builds them, whose accuracy and precision are
    ratios. *)
Definition complete_result (r : case_result) : Prop :=
  is_Some (cr_case_id r) ∧ is_Some (cr_predictions r)
  ∧ is_Some (cr_ground_truth r) ∧ is_Some (cr_analysis_report r)
  ∧ ∃ d, cr_differences r = Some d
         ∧ (0 <= accuracy d <= 1)%Q ∧ (0 <= precision d <= 1)%Q.

(** An entry of [optimization_history] as [generate_prompt] appends them. *)
Definition well_formed_record (it : iteration_data) : Prop :=
  (∃ results, it_analysis_results it = Some results
              ∧ results ≠ [] ∧ Forall complete_result results)
  ∧ (∃ p, it_new_prompt it = Some p ∧ Text.contains marker_rules p = true)
  ∧ is_Some (it_summary it).

(** ** [center_log] *)

(** [char * n]: nothing when [n] is not positive. *)
Definition py_repeat (char : str) (n : Z) : str :=
  mjoin (replicate (Z.to_nat n) char).

(** The message that [center_log] hands to the logger. *)
Definition center_log (text : str) (width : Z) (char : str) : str :=
  let text := [32%N] ++ text ++ [32%N] in
  let padding := ((width - Z.of_nat (length text)) / 2)%Z in
  let line := py_repeat char padding ++ text ++ py_repeat char padding in
  let line := if decide (Z.of_nat (length line) < width)%Z then line ++ char else line in
  [10%N] ++ line ++ [10%N].

(** ** [APIClient.make_request] *)


Section MakeRequest.
Context `{PyEnv} {World : Type}.

(** The chat completion with the statements around it (lines 317-327):
    [None] when they raise, or when the reply has no text, so that
    [json.loads] raises a [TypeError], which the outer handler catches. *)
Context (create : World -> option str * World).



End MakeRequest.

(** ** [extract_rules] *)

Definition rules_not_found : str := Text.utf8 "未找到规则部分".

Definition extract_rules (prompt : str) : str :=
  let rules_start := Text.find prompt marker_rules 0 in
  let rules_end := Text.find prompt marker_requirements 0 in
  if decide (rules_start ≠ (-1)%Z ∧ rules_end ≠ (-1)%Z)
  then Text.strip (Text.slice prompt rules_start rules_end)
  else rules_not_found.

(** ** [process_gt.py] and the loading of its files *)

(** The labels that [process_excel_data] writes for one row.  The [gt]
    cell is [None] when it is missing ([pd.notna] is false) and its text
    [str(row['gt'])] otherwise. *)
Definition gt_labels (gt : option str) : list str :=
  match gt with
  | Some s => Text.strip <$> Text.split_on 44 s
  | None => []
  end.

(** The text of the file [<case_id>_gt.json]. *)
Definition gt_file (gt : option str) : str :=
  Dumps.dumps_diseases (gt_labels gt).

(** [main.load_example_data] on the text of a file: the exception of
    [json.loads] is logged and raised again. *)
Definition load_example_data `{PyEnv} (data : str) : Json.res json :=
  Json.loads data.

(** ** Cases whose ground truth can be read *)

(** The ground truth of the case is a dict whose [diseases] value can be
    iterated and whose true elements are strings, as [analyze_results]
    needs it. *)
Definition readable_truth (c : case) : Prop :=
  is_Some (gt_diseases_of (gt_data c) ≫= truth_labels).

(** ** More of the concrete run *)

(** The context of the first round of [main] on the ten cases. *)
Definition demo_context : gen_context :=
  {| ctx_base_prompt := Some base_prompt_template;
     ctx_all_cases := Some (to_dict <$> take 3 Demo.cases10);
     ctx_iteration := Some 1%Z;
     ctx_previous_results := Some (0%Q, 0%Z) |}.

(** The optimizer at the end of the run in which the optimizer service
    answers with the template and the predictor names one true label. *)
Definition demo_optimizer : PromptOptimizer :=
  optimizer (Demo.run (Some base_prompt_template) Demo.reply_a).1.2.

(** A reply inside a code fence, and its parts. *)
Definition demo_fence_tag : str := Text.utf8 "json".
Definition demo_fence_payload : str := Text.jtext "{'diseases': ['a']}
".
Definition demo_fenced_reply : str :=
  fence ++ demo_fence_tag ++ [10%N] ++ demo_fence_payload ++ fence.

(** A reply with prose around the document. *)
Definition demo_prose_reply : str :=
  Text.jtext "The findings suggest: {'diseases': [' a ', '']} as requested.".

(** A [gt] cell of the spreadsheet. *)
Definition demo_gt_cell : option str := Some (Text.utf8 "a, b").

(** ** A document inside prose *)

(** A text of the shape the pattern of [QwenAPI.predict] looks for, whose
    parts hold no brace, whose list holds no closing bracket and after
    whose list no bracket opens. *)
Definition flat_document (r1 w1 w2 r2 r3 : str) : str :=
  [123%N] ++ r1 ++ Text.jtext "'diseases'" ++ w1 ++ [58%N] ++ w2
  ++ [91%N] ++ r2 ++ [93%N] ++ r3 ++ [125%N].

Definition flat_parts (r1 w1 w2 r2 r3 : str) : Prop :=
  Forall (fun c => Regex.not_brace c = true) r1
  ∧ Forall (fun c => Text.is_space c = true) w1
  ∧ Forall (fun c => Text.is_space c = true) w2
  ∧ Forall (fun c => Regex.not_rbracket c = true ∧ Regex.not_brace c = true) r2
  ∧ Forall (fun c => Regex.not_brace c = true ∧ c ≠ 91%N) r3.

(** The parts of [demo_prose_reply]. *)
Definition demo_prose_before : str := Text.utf8 "The findings suggest: ".
Definition demo_prose_list : str := Text.jtext "' a ', ''".
Definition demo_prose_after : str := Text.utf8 " as requested.".

(** ** Services whose optimizer always raises *)

Definition demo_failing_services : Services unit :=
  {| optimizer_generate_prompt := fun _ w => (None, w);
     analyzer_analyze_results := fun _ w => (Some (Text.utf8 "ok"), w);
     qwen_predict := fun _ _ w => (Some Demo.reply_a, w) |}.

(** * Properties *)

(** ** Quotients of two lengths *)

Lemma inject_nat_pos (b : nat) : b ≠ 0 → (0 < inject_Z (Z.of_nat b))%Q.
Proof.
  intros Hb. change 0%Q with (inject_Z 0). rewrite <- Zlt_Qlt. lia.
Qed.

Lemma Qdiv_nat_bounds (a b : nat) :
  a ≤ b → b ≠ 0 → (0 <= inject_Z (Z.of_nat a) / inject_Z (Z.of_nat b) <= 1)%Q.
Proof.
  intros Hab Hb. pose proof (inject_nat_pos b Hb) as Hpos. split.
  - apply Qle_shift_div_l; [done|]. rewrite Qmult_0_l.
    change 0%Q with (inject_Z 0). rewrite <- Zle_Qle. lia.
  - apply Qle_shift_div_r; [done|]. rewrite Qmult_1_l, <- Zle_Qle. lia.
Qed.

Lemma Qdiv_nat_eq1 (a b : nat) :
  b ≠ 0 → (inject_Z (Z.of_nat a) / inject_Z (Z.of_nat b) == 1)%Q ↔ a = b.
Proof.
  intros Hb.
  assert (Hnz : ¬ (inject_Z (Z.of_nat b) == 0)%Q).
  { intros E. pose proof (inject_nat_pos b Hb) as Hpos.
    rewrite E in Hpos. by apply Qlt_irrefl in Hpos. }
  split.
  - intros E. apply (Qmult_inj_r _ _ (inject_Z (Z.of_nat b))) in E; [|done].
    rewrite Qmult_1_l in E. unfold Qdiv in E.
    rewrite <- Qmult_assoc, (Qmult_comm (/ _)), Qmult_inv_r, Qmult_1_r in E by done.
    rewrite inject_Z_injective in E. lia.
  - intros ->. unfold Qdiv. by rewrite Qmult_inv_r.
Qed.

Lemma Qdiv_nat_eq0 (a b : nat) :
  b ≠ 0 → (inject_Z (Z.of_nat a) / inject_Z (Z.of_nat b) == 0)%Q ↔ a = 0.
Proof.
  intros Hb. pose proof (inject_nat_pos b Hb) as Hpos. split.
  - intros E.
    assert (Hnz : ¬ (inject_Z (Z.of_nat b) == 0)%Q).
    { intros E'. rewrite E' in Hpos. by apply Qlt_irrefl in Hpos. }
    apply (Qmult_inj_r _ _ (inject_Z (Z.of_nat b))) in E; [|done].
    rewrite Qmult_0_l in E. unfold Qdiv in E.
    rewrite <- Qmult_assoc, (Qmult_comm (/ _)), Qmult_inv_r, Qmult_1_r in E by done.
    change 0%Q with (inject_Z 0) in E. rewrite inject_Z_injective in E. lia.
  - intros ->. unfold Qdiv. simpl. apply Qmult_0_l.
Qed.

Lemma py_div_some (a b : nat) :
  b ≠ 0 → py_div a b = Some (inject_Z (Z.of_nat a) / inject_Z (Z.of_nat b))%Q.
Proof. intros Hb. unfold py_div. by destruct (decide (b = 0)). Qed.

Lemma Qgtb_lt (x y : Q) : Qgtb x y = true ↔ (y < x)%Q.
Proof.
  unfold Qgtb. rewrite negb_true_iff. split.
  - intros E. apply Qnot_le_lt. intros Hle. apply Qle_bool_iff in Hle. congruence.
  - intros Hlt. destruct (Qle_bool x y) eqn:E; [|done].
    apply Qle_bool_iff in E. by apply Qle_not_lt in E.
Qed.


(** ** Label sets *)

Lemma size_pos_of_nonempty (X : gset str) : X ≠ ∅ → size X ≠ 0.
Proof. intros HX E. apply size_empty_iff in E. by apply leibniz_equiv in E. Qed.

Lemma inter_size_le_l (X Y : gset str) : size (X ∩ Y) ≤ size X.
Proof. apply subseteq_size. set_solver. Qed.

Lemma inter_size_le_r (X Y : gset str) : size (X ∩ Y) ≤ size Y.
Proof. apply subseteq_size. set_solver. Qed.

Lemma inter_size_le_union (X Y : gset str) : size (X ∩ Y) ≤ size (X ∪ Y).
Proof. apply subseteq_size. set_solver. Qed.

Lemma inter_size_full_r (X Y : gset str) : size (X ∩ Y) = size Y ↔ Y ⊆ X.
Proof.
  split.
  - intros E. assert (X ∩ Y = Y) as <-; [|set_solver].
    apply set_subseteq_size_eq; [set_solver|lia].
  - intros HYX. f_equal. set_solver.
Qed.

Lemma inter_size_full_l (X Y : gset str) : size (X ∩ Y) = size X ↔ X ⊆ Y.
Proof. rewrite (comm_L (∩) X Y). apply inter_size_full_r. Qed.

Lemma inter_size_zero (X Y : gset str) : size (X ∩ Y) = 0 ↔ X ## Y.
Proof. rewrite size_empty_iff. set_solver. Qed.

Section ScorerFacts.
Context `{PyEnv}.

Lemma label_set_empty_iff (labels : list str) :
  label_set labels = ∅ ↔ ¬ has_label labels.
Proof.
  unfold label_set, has_label. split.
  - intros E (d & Hd & Hne).
    assert (Hin : normalize d ∈ (∅ : gset str)); [|by apply not_elem_of_empty in Hin].
    rewrite <- E, elem_of_list_to_set, list_elem_of_fmap.
    exists d. split; [done|]. by apply list_elem_of_filter.
  - intros Hno. apply set_eq. intros x. split; [|by intros ?%not_elem_of_empty].
    rewrite elem_of_list_to_set, list_elem_of_fmap.
    intros (d & _ & Hd%list_elem_of_filter). destruct Hno. exists d. tauto.
Qed.

Lemma has_label_nil : ¬ has_label [].
Proof. intros (d & Hd & _). by apply not_elem_of_nil in Hd. Qed.

(** [analyze_differences] always returns a report, with these two ratios. *)
Lemma analyze_differences_some (predicted ground_truth : list str) :
  ∃ r, analyze_differences predicted ground_truth = Some r
     ∧ accuracy r =
         (if decide (label_set ground_truth = ∅) then 0%Q
          else inject_Z (Z.of_nat (size (label_set predicted ∩ label_set ground_truth)))
               / inject_Z (Z.of_nat (Nat.max (size (label_set ground_truth)) 1)))%Q
     ∧ precision r =
         (if decide (label_set predicted = ∅) then 0%Q
          else inject_Z (Z.of_nat (size (label_set predicted ∩ label_set ground_truth)))
               / inject_Z (Z.of_nat (Nat.max (size (label_set predicted)) 1)))%Q
     ∧ correct_diagnoses r = elements (label_set predicted ∩ label_set ground_truth)
     ∧ missed_diagnoses r = elements (label_set ground_truth ∖ label_set predicted)
     ∧ wrong_diagnoses r = elements (label_set predicted ∖ label_set ground_truth).
Proof.
  unfold analyze_differences.
  set (P := label_set predicted). set (T := label_set ground_truth).
  destruct (decide (T = ∅)) as [HT|HT], (decide (P = ∅)) as [HP|HP]; simpl;
    rewrite ?py_div_some by lia; simpl; eauto 10.
Qed.

(** The ratio of [analyze_differences], guarded or not, is the quotient by
    [max(len(set), 1)]. *)
Lemma guarded_ratio (k n : nat) (X : gset str) :
  n = size X → k ≤ n →
  ((if decide (X = ∅) then 0
    else inject_Z (Z.of_nat k) / inject_Z (Z.of_nat (Nat.max n 1)))
   == inject_Z (Z.of_nat k) / inject_Z (Z.of_nat (Nat.max n 1)))%Q.
Proof.
  intros -> Hk. destruct (decide (X = ∅)) as [->|HX]; [|reflexivity].
  rewrite size_empty in Hk. assert (k = 0) as -> by lia.
  symmetry. apply Qdiv_nat_eq0; [lia|done].
Qed.

Lemma guarded_ratio_one (k : nat) (X : gset str) :
  k ≤ size X →
  ((if decide (X = ∅) then 0
    else inject_Z (Z.of_nat k) / inject_Z (Z.of_nat (Nat.max (size X) 1))) == 1)%Q
  ↔ X ≠ ∅ ∧ k = size X.
Proof.
  intros Hk. destruct (decide (X = ∅)) as [->|HX].
  - split; [intros E; discriminate E | tauto].
  - pose proof (size_pos_of_nonempty X HX).
    rewrite Qdiv_nat_eq1 by lia. split; [intros; split; [done|lia]|intros [_ ->]; lia].
Qed.

(** C8, as amended: [analyze_differences] returns a report for every pair
    of label lists; its accuracy is [|correct| / max(|truth|, 1)] and its
    precision [|correct| / max(|pred|, 1)] over the normalised sets; and
    accuracy and precision are both [1] if and only if the two normalised
    sets are equal and not empty. *)
Theorem analyze_differences_exact (pred truth : list str) :
  ∃ r, analyze_differences pred truth = Some r
     ∧ (accuracy r ==
          inject_Z (Z.of_nat (size (label_set pred ∩ label_set truth)))
          / inject_Z (Z.of_nat (Nat.max (size (label_set truth)) 1)))%Q
     ∧ (precision r ==
          inject_Z (Z.of_nat (size (label_set pred ∩ label_set truth)))
          / inject_Z (Z.of_nat (Nat.max (size (label_set pred)) 1)))%Q
     ∧ ((accuracy r == 1 ∧ precision r == 1)%Q
        ↔ label_set pred = label_set truth ∧ label_set pred ≠ ∅).
Proof.
  destruct (analyze_differences_some pred truth) as (r & Hr & Ha & Hp & _).
  exists r. split; [done|]. rewrite Ha, Hp. clear Hr Ha Hp.
  set (P := label_set pred). set (T := label_set truth).
  pose proof (inter_size_le_l P T) as HlP. pose proof (inter_size_le_r P T) as HlT.
  split; [by apply guarded_ratio|]. split; [by apply guarded_ratio|].
  rewrite !guarded_ratio_one by done.
  rewrite inter_size_full_r, inter_size_full_l. split.
  - intros [[HT HTP] [HP HPT]]. split; [|done].
    apply set_eq. intros x. split; [apply HPT|apply HTP].
  - intros [E HP]. rewrite <- E. done.
Qed.

(** C7, as amended: for every pair of label lists the overlap score is
    computed without a division by zero, is the same in both orders and
    lies in [0,1]; it is [1] when the two lists are equal and hold at
    least one non-empty string; it is [0] when the normalised sets are
    disjoint, or one of the lists is empty or holds no non-empty string. *)
Theorem calculate_overlap_properties (A B : list str) :
  ∃ s, overlap_score A B = Some s
     ∧ overlap_score B A = Some s
     ∧ (0 <= s <= 1)%Q
     ∧ (A = B → has_label A → (s == 1)%Q)
     ∧ (label_set A ## label_set B → (s == 0)%Q)
     ∧ (A = [] ∨ B = [] ∨ ¬ has_label A ∨ ¬ has_label B → (s == 0)%Q).
Proof.
  unfold overlap_score, calculate_overlap.
  destruct (decide (A = [] ∨ B = [])) as [Hnil|Hnil].
  { exists 0%Q. rewrite decide_True by tauto. simpl. repeat split; try done.
    intros -> Hl. exfalso. destruct Hnil as [->| ->]; by apply has_label_nil in Hl. }
  rewrite (decide_False (P := B = [] ∨ A = [])) by tauto.
  set (P := label_set A). set (T := label_set B).
  destruct (decide (P = ∅ ∨ T = ∅)) as [He|He].
  { exists 0%Q. rewrite decide_True by tauto. simpl. repeat split; try done.
    intros -> Hl. exfalso. apply (label_set_empty_iff B); [tauto|done]. }
  rewrite (decide_False (P := T = ∅ ∨ P = ∅)) by tauto.
  assert (HP : P ≠ ∅) by tauto. assert (HT : T ≠ ∅) by tauto.
  assert (Hu : size (P ∪ T) ≠ 0).
  { apply size_pos_of_nonempty. intros E. apply HP. apply set_eq. intros x.
    split; [|by intros ?%not_elem_of_empty]. intros Hx. rewrite <- E. set_solver. }
  assert (T ∩ P = P ∩ T) as -> by set_solver.
  assert (T ∪ P = P ∪ T) as -> by set_solver.
  rewrite !py_div_some by done. simpl.
  eexists. split; [done|]. split; [done|].
  split; [apply Qdiv_nat_bounds; [apply inter_size_le_union|done]|].
  split; [|split].
  - intros E _. apply Qdiv_nat_eq1; [done|]. f_equal.
    subst P T. rewrite <- E. set_solver.
  - intros Hd. apply Qdiv_nat_eq0; [done|]. by apply inter_size_zero.
  - intros [->|[->|[Hl|Hl]]]; try tauto.
    + destruct HP. by apply label_set_empty_iff.
    + destruct HT. by apply label_set_empty_iff.
Qed.

(** [calculate_overlap] answers with the bare float [0.0] exactly when a
    list is empty or normalises to the empty set, and with a record
    otherwise; only the record can be subscripted. *)
Lemma calculate_overlap_shape (A B : list str) :
  (A = [] ∨ B = [] ∨ label_set A = ∅ ∨ label_set B = ∅ →
   calculate_overlap A B = Some (BareFloat 0)
   ∧ calculate_overlap A B ≫= subscript_score = None)
  ∧ (¬ (A = [] ∨ B = [] ∨ label_set A = ∅ ∨ label_set B = ∅) →
     ∃ score,
       calculate_overlap A B =
         Some (OverlapRecord score
                 (elements (label_set A ∩ label_set B))
                 (elements (label_set B ∖ label_set A))
                 (elements (label_set A ∖ label_set B)))
       ∧ calculate_overlap A B ≫= subscript_score = Some score).
Proof.
  unfold calculate_overlap. split.
  - intros Hdeg. destruct (decide (A = [] ∨ B = [])); [done|].
    rewrite decide_True by tauto. done.
  - intros Hn. rewrite decide_False by tauto. rewrite decide_False by tauto.
    assert (Hu : size (label_set A ∪ label_set B) ≠ 0).
    { apply size_pos_of_nonempty. intros E.
      assert (label_set A = ∅); [|tauto]. apply set_eq. intros x.
      split; [|by intros ?%not_elem_of_empty]. intros Hx. rewrite <- E. set_solver. }
    rewrite py_div_some by done. simpl. eauto.
Qed.

End ScorerFacts.

(** C8, as stated, fails on two empty lists: the normalised sets are
    equal, yet accuracy and precision are [0]. *)
Lemma analyze_differences_empty_counterexample :
  label_set (H := AsciiEnv.env) [] = label_set (H := AsciiEnv.env) []
  ∧ ∃ r, analyze_differences (H := AsciiEnv.env) [] [] = Some r
       ∧ (accuracy r == 0)%Q ∧ (precision r == 0)%Q
       ∧ ¬ (accuracy r == 1 ∧ precision r == 1)%Q.
Proof.
  split; [reflexivity|]. eexists. split; [reflexivity|]. simpl.
  split; [reflexivity|]. split; [reflexivity|]. intros [E _]. discriminate E.
Qed.

(** C7, as stated, fails twice.  On the non-empty list that holds one
    empty string: the list equals itself and its overlap with itself is
    [0].  On two lists with no string in common whose labels differ by
    case only: their overlap is [1]. *)
Lemma calculate_overlap_blank_counterexample :
  let A : list str := [[]] in
  let C : list str := [Text.utf8 "Flu"] in
  let D : list str := [Text.utf8 "flu"] in
  (A ≠ [] ∧ overlap_score (H := AsciiEnv.env) A A = Some 0%Q ∧ ¬ (0 == 1)%Q)
  ∧ ((∀ x, x ∈ C → x ∉ D)
     ∧ overlap_score (H := AsciiEnv.env) C D = Some 1%Q ∧ ¬ (1 == 0)%Q).
Proof.
  split.
  - split; [discriminate|]. split; [reflexivity|]. intros E. discriminate E.
  - split; [|split; [reflexivity|intros E; discriminate E]].
    intros x Hx%list_elem_of_singleton Hd%list_elem_of_singleton.
    subst x. discriminate Hd.
Qed.

(** ** Progress classification *)




(** The three example trends classify the same way over doubles. *)
Example trend_examples_double :
  DoubleTrend.trend_status_double DoubleTrend.flat = Stagnating
  ∧ DoubleTrend.trend_status_double DoubleTrend.rising = Improving
  ∧ DoubleTrend.trend_status_double DoubleTrend.falling = Unstable.
Proof. repeat split; vm_compute; reflexivity. Qed.

(** ** The JSON scanner never runs out of fuel *)

Module JsonFacts.
Import Json.

Lemma lstrip_by_length (p : N -> bool) (s : str) :
  length (Text.lstrip_by p s) ≤ length s.
Proof. induction s as [|c r IH]; simpl; [done|]. destruct (p c); simpl; lia. Qed.

Lemma skip_ws_length (s : str) : length (skip_ws s) ≤ length s.
Proof. apply lstrip_by_length. Qed.

Lemma cons_fst_fmap_some (c : N) (o : option (str * str)) t rest :
  cons_fst c <$> o = Some (t, rest) → ∃ t', o = Some (t', rest).
Proof. destruct o as [[t' r']|]; simpl; [|done]. intros [= _ <-]. eauto. Qed.

Lemma scan_string_shorter (s t rest : str) :
  scan_string s = Some (t, rest) → length rest < length s.
Proof.
  remember (length s) as n eqn:En. revert s t rest En.
  induction n as [n IH] using lt_wf_ind. intros s t rest -> Hs.
  destruct s as [|c r]; [done|]. simpl in Hs.
  repeat (case_match; simplify_eq; try done);
    try (simpl; lia);
    match goal with
    | Hs : cons_fst _ <$> scan_string ?x = Some _ |- _ =>
      apply cons_fst_fmap_some in Hs as [t' Hs];
      assert (length rest < length x)
        by (eapply (IH (length x)); [simpl; lia|reflexivity|exact Hs]);
      simpl in *; lia
    end.
Qed.

Lemma take_digits_length (s : str) : length (take_digits s).2 ≤ length s.
Proof.
  induction s as [|c r IH]; simpl; [done|].
  destruct (is_digit c); simpl; lia.
Qed.

Lemma take_digits_nonempty (s ds rest : str) :
  take_digits s = (ds, rest) → ds ≠ [] → length rest < length s.
Proof.
  destruct s as [|c r]; simpl; [by intros [= <- <-]|].
  destruct (is_digit c); [|by intros [= <- <-]].
  intros [= <- <-] _. pose proof (take_digits_length r). simpl. lia.
Qed.

Lemma scan_fraction_length (s : str) : length (scan_fraction s).2 ≤ length s.
Proof.
  unfold scan_fraction. destruct s as [|d r]; [done|].
  destruct (d =? 46)%N; [|done].
  destruct (take_digits r) as [[|x ds] rest] eqn:E; [done|]. simpl.
  apply take_digits_nonempty in E; [|done]. lia.
Qed.

Lemma scan_exponent_length (s : str) : length (scan_exponent s).2 ≤ length s.
Proof.
  unfold scan_exponent. destruct s as [|e r]; [done|].
  destruct ((e =? 101) || (e =? 69))%N; [|done].
  set (sg := match r with
             | g :: r2 =>
               if (g =? 45)%N then (true, r2)
               else if (g =? 43)%N then (false, r2) else (false, r)
             | [] => (false, r)
             end).
  assert (Hsg : length sg.2 ≤ length r).
  { subst sg. destruct r as [|g r2]; [done|].
    destruct (g =? 45)%N; [simpl; lia|]. destruct (g =? 43)%N; simpl; lia. }
  destruct sg as [eneg r1]. simpl in Hsg.
  destruct (take_digits r1) as [[|x ds] rest] eqn:E; [done|]. simpl.
  apply take_digits_nonempty in E; [|done]. lia.
Qed.

Lemma scan_number_shorter (s : str) v rest :
  scan_number s = Some (v, rest) → length rest < length s.
Proof.
  unfold scan_number.
  set (sg := match s with
             | c :: r => if (c =? 45)%N then (true, r) else (false, s)
             | [] => (false, s)
             end).
  assert (Hsg : length sg.2 ≤ length s).
  { subst sg. destruct s as [|c r]; [done|]. destruct (c =? 45)%N; simpl; lia. }
  destruct sg as [neg s1]. simpl in Hsg.
  destruct s1 as [|c r]; [done|].
  destruct (is_digit c) eqn:Hc; [|done]. cbn [negb].
  assert (Hip : length (if (c =? 48)%N then ([c], r)
                        else take_digits (c :: r)).2 < length (c :: r)).
  { destruct (c =? 48)%N; [simpl; lia|].
    simpl. rewrite Hc. pose proof (take_digits_length r). simpl. lia. }
  destruct (if (c =? 48)%N then ([c], r) else take_digits (c :: r))
    as [ipd s2]. simpl in Hip.
  pose proof (scan_fraction_length s2) as Hf.
  destruct (scan_fraction s2) as [fr s3]. simpl in Hf.
  pose proof (scan_exponent_length s3) as He.
  destruct (scan_exponent s3) as [ex s4]. simpl in He.
  destruct fr, ex; intros [= _ <-]; simpl in *; lia.
Qed.

Lemma scan_scalar_shorter (s : str) v rest :
  scan_scalar s = Some (v, rest) → length rest < length s.
Proof.
  unfold scan_scalar. destruct s as [|c r]; [done|].
  destruct (c =? 34)%N.
  { destruct (scan_string r) as [[t rest']|] eqn:E; simpl; [|done].
    intros [= _ <-]. apply scan_string_shorter in E. simpl. lia. }
  repeat (case_match; [intros [= _ <-]; rewrite length_drop; simpl; lia|]).
  apply scan_number_shorter.
Qed.

Section ContainerFacts.
Context (scan : str -> res (json * str)) (Hscan : well_behaved scan).

Lemma scan_items_adequate (fuel : nat) (s : str) :
  length s < fuel →
  scan_items scan fuel s ≠ Err OutOfFuel
  ∧ ∀ vs rest, scan_items scan fuel s = Ok (vs, rest) → length rest < length s.
Proof.
  revert s. induction fuel as [|fuel IH]; intros s Hlen; [lia|]. simpl.
  destruct (Hscan s) as [Hne Hsh].
  destruct (scan s) as [[v s1]|e] eqn:E; simpl; [|by split; [congruence|]].
  specialize (Hsh _ _ eq_refl). pose proof (skip_ws_length s1) as Hw1.
  destruct (skip_ws s1) as [|c r] eqn:E1; [done|]. simpl in Hw1.
  destruct (c =? 93)%N; [split; [done|intros ?? [= _ <-]; lia]|].
  destruct (c =? 44)%N; [|done].
  pose proof (skip_ws_length r) as Hw2.
  destruct (IH (skip_ws r)) as [Hne' Hsh']; [lia|].
  destruct (scan_items scan fuel (skip_ws r)) as [[vs rest]|e] eqn:E2; simpl.
  - split; [done|]. intros ?? [= _ <-]. specialize (Hsh' _ _ eq_refl). lia.
  - split; [congruence|done].
Qed.

Lemma scan_array_adequate (s : str) :
  scan_array scan s ≠ Err OutOfFuel
  ∧ ∀ v rest, scan_array scan s = Ok (v, rest) → length rest < S (length s).
Proof.
  unfold scan_array. pose proof (skip_ws_length s) as Hw.
  destruct (skip_ws s) as [|c r] eqn:E; [done|]. simpl in Hw.
  destruct (c =? 93)%N; [split; [done|intros ?? [= _ <-]; lia]|].
  destruct (scan_items_adequate (S (length s)) (c :: r)) as [Hne Hsh];
    [simpl; lia|].
  destruct (scan_items scan (S (length s)) (c :: r)) as [[vs rest]|e] eqn:E2; simpl.
  - split; [done|]. intros ?? [= _ <-]. specialize (Hsh _ _ eq_refl).
    simpl in Hsh. lia.
  - split; [congruence|done].
Qed.

Lemma scan_pairs_adequate (fuel : nat) (s : str) :
  length s < fuel →
  scan_pairs scan fuel s ≠ Err OutOfFuel
  ∧ ∀ kvs rest, scan_pairs scan fuel s = Ok (kvs, rest) → length rest < length s.
Proof.
  revert s. induction fuel as [|fuel IH]; intros s Hlen; [lia|]. simpl.
  destruct s as [|q r0]; [done|]. destruct (q =? 34)%N; simpl; [|done].
  destruct (scan_string r0) as [[k s1]|] eqn:Ek; simpl; [|done].
  apply scan_string_shorter in Ek. pose proof (skip_ws_length s1) as Hw1.
  destruct (skip_ws s1) as [|c r1] eqn:E1; [done|]. simpl in Hw1.
  destruct (c =? 58)%N; simpl; [|done].
  pose proof (skip_ws_length r1) as Hw2.
  destruct (Hscan (skip_ws r1)) as [Hne Hsh].
  destruct (scan (skip_ws r1)) as [[v s2]|e] eqn:E; simpl; [|by split; [congruence|]].
  specialize (Hsh _ _ eq_refl). pose proof (skip_ws_length s2) as Hw3.
  destruct (skip_ws s2) as [|d r2] eqn:E2; [done|]. simpl in Hw3.
  destruct (d =? 125)%N; [split; [done|intros ?? [= _ <-]; simpl; lia]|].
  destruct (d =? 44)%N; [|done].
  pose proof (skip_ws_length r2) as Hw4.
  destruct (IH (skip_ws r2)) as [Hne' Hsh']; [simpl in Hlen; lia|].
  destruct (scan_pairs scan fuel (skip_ws r2)) as [[kvs rest]|e] eqn:E3; simpl.
  - split; [done|]. intros ?? [= _ <-]. specialize (Hsh' _ _ eq_refl). simpl. lia.
  - split; [congruence|done].
Qed.

Lemma scan_object_adequate (s : str) :
  scan_object scan s ≠ Err OutOfFuel
  ∧ ∀ v rest, scan_object scan s = Ok (v, rest) → length rest < S (length s).
Proof.
  unfold scan_object. pose proof (skip_ws_length s) as Hw.
  destruct (skip_ws s) as [|c r] eqn:E; [done|]. simpl in Hw.
  destruct (c =? 125)%N; [split; [done|intros ?? [= _ <-]; lia]|].
  destruct (scan_pairs_adequate (S (length s)) (c :: r)) as [Hne Hsh];
    [simpl; lia|].
  destruct (scan_pairs scan (S (length s)) (c :: r)) as [[vs rest]|e] eqn:E2; simpl.
  - split; [done|]. intros ?? [= _ <-]. specialize (Hsh _ _ eq_refl).
    simpl in Hsh. lia.
  - split; [congruence|done].
Qed.

End ContainerFacts.

Lemma decode_scalar_behaved (s : str) :
  decode (scan_scalar s) ≠ Err OutOfFuel
  ∧ ∀ v rest, decode (scan_scalar s) = Ok (v, rest) → length rest < length s.
Proof.
  destruct (scan_scalar s) as [[v rest]|] eqn:E; cbn [decode]; [|split; done].
  split; [done|]. intros ?? [= _ <-]. by apply scan_scalar_shorter in E.
Qed.

Lemma scan_value_well_behaved (depth : nat) : well_behaved (scan_value depth).
Proof.
  induction depth as [|depth IH]; intros s; destruct s as [|c r];
    cbn [scan_value]; try (split; done).
  - destruct ((c =? 91) || (c =? 123))%N; [split; done|].
    apply decode_scalar_behaved.
  - destruct ((c =? 91) || (c =? 123))%N; [|apply decode_scalar_behaved].
    destruct (c =? 91)%N.
    + apply (scan_array_adequate _ IH r).
    + apply (scan_object_adequate _ IH r).
Qed.

(** [loads] never fails for lack of fuel: its errors are the exceptions
    of [json.loads]. *)
Lemma loads_fuel_adequate `{PyEnv} (s : str) : loads s ≠ Err OutOfFuel.
Proof.
  unfold loads. destruct s as [|c r]; [done|]. destruct (c =? 65279)%N; [done|].
  destruct (scan_value_well_behaved recursion_limit (skip_ws (c :: r))) as [Hne _].
  destruct (scan_value recursion_limit (skip_ws (c :: r))) as [[v rest]|e];
    simpl; [|congruence].
  by destruct (skip_ws rest).
Qed.

End JsonFacts.

(** ** The pattern of [QwenAPI.predict] *)

Module RegexFacts.
Import Regex.

Lemma starts_with_prefix (l s : str) :
  Text.starts_with l s = true ↔ ∃ s', s = l ++ s'.
Proof.
  revert s. induction l as [|a l IH]; intros s; simpl.
  - split; [eauto|done].
  - destruct s as [|b s]; [split; [done|by intros [? ?]]|].
    rewrite andb_true_iff, N.eqb_eq, IH. split.
    + intros [-> [s' ->]]. eauto.
    + intros [s' [= -> ->]]. eauto.
Qed.

Lemma lit_some (l : str) (k : cont) (s rest : str) :
  lit l k s = Some rest → ∃ s', s = l ++ s' ∧ k s' = Some rest.
Proof.
  unfold lit. destruct (Text.starts_with l s) eqn:E; [|done].
  apply starts_with_prefix in E as [s' ->].
  rewrite drop_app_length. eauto.
Qed.

Lemma star_some (p : N -> bool) (k : cont) (s rest : str) :
  star p k s = Some rest →
  ∃ run s', s = run ++ s' ∧ Forall (fun c => p c = true) run ∧ k s' = Some rest.
Proof.
  induction s as [|c r IH]; simpl.
  - intros Hk. exists [], []. eauto.
  - destruct (p c) eqn:Hc.
    + destruct (star p k r) as [rest'|] eqn:E.
      * intros [= ->]. destruct (IH eq_refl) as (run & s' & -> & Hrun & Hk).
        exists (c :: run), s'. eauto.
      * intros Hk. exists [], (c :: r). eauto.
    + intros Hk. exists [], (c :: r). eauto.
Qed.

Lemma json_pattern_some (s rest : str) :
  json_pattern s = Some rest → ∃ m, s = m ++ rest ∧ pattern_shape m.
Proof.
  unfold json_pattern. intros Hs.
  apply lit_some in Hs as (s1 & -> & Hs).
  apply star_some in Hs as (r1 & s2 & -> & Hr1 & Hs).
  apply lit_some in Hs as (s3 & -> & Hs).
  apply star_some in Hs as (w1 & s4 & -> & Hw1 & Hs).
  apply lit_some in Hs as (s5 & -> & Hs).
  apply star_some in Hs as (w2 & s6 & -> & Hw2 & Hs).
  apply lit_some in Hs as (s7 & -> & Hs).
  apply star_some in Hs as (r2 & s8 & -> & Hr2 & Hs).
  apply lit_some in Hs as (s9 & -> & Hs).
  apply star_some in Hs as (r3 & s10 & -> & Hr3 & Hs).
  apply lit_some in Hs as (s11 & -> & [= ->]).
  eexists. split; [|exists r1, w1, w2, r2, r3; eauto 10].
  by rewrite <- !app_assoc.
Qed.

(** The first match is a piece of the text with the shape of the
    pattern, and the pattern matches at no earlier offset. *)
Lemma first_match_some (s m : str) :
  first_match s = Some m →
  pattern_shape m
  ∧ ∃ pre post, s = pre ++ m ++ post
      ∧ ∀ k, k < length pre → json_pattern (drop k s) = None.
Proof.
  induction s as [|c r IH]; cbn [first_match].
  - intros Hs. vm_compute in Hs. done.
  - destruct (json_pattern (c :: r)) as [rest|] eqn:E.
    + pose proof E as E'. apply json_pattern_some in E' as (m' & E' & Hm').
      assert (take (length (c :: r) - length rest) (c :: r) = m') as ->.
      { rewrite E', length_app.
        replace (length m' + length rest - length rest) with (length m') by lia.
        apply take_app_length. }
      intros [= <-]. split; [done|].
      exists [], rest. split; [done|]. simpl. lia.
    + intros Hr. destruct (IH Hr) as (Hm & pre & post & -> & Hleft).
      split; [done|]. exists (c :: pre), post. split; [done|].
      intros [|k] Hk; simpl; [done|]. apply Hleft. simpl in Hk. lia.
Qed.

End RegexFacts.

(** ** The response parser *)

Section ParserFacts.
Context `{PyEnv}.

(** In a list of diseases every label that is kept is non-empty. *)
Lemma diseases_of_list_nonblank (items : list json) :
  Forall (fun s => s ≠ []) (diseases_of_value (JArr items)).
Proof.
  simpl. induction items as [|d items IH]; simpl; [constructor|].
  destruct (Json.truthy d && nonempty (Text.strip (str_of d))) eqn:E; [|done].
  simpl. constructor; [|done].
  apply andb_true_iff in E as [_ E]. by destruct (Text.strip (str_of d)).
Qed.

(** A document that carries an [error] field yields no label. *)
Lemma diseases_of_error_document (pairs : list (str * json)) :
  Json.obj_has key_error pairs = true → diseases_of_document (JObj pairs) = [].
Proof. simpl. by intros ->. Qed.

(** A parse failure of any kind yields no label. *)
Lemma extract_parse_failure (response : str) (e : Json.json_error) :
  Json.loads (strip_fence response) = Json.Err e →
  extract_diseases_from_response response = [].
Proof. unfold extract_diseases_from_response. by intros ->. Qed.

(** C6, as amended: when the direct parse of the fence-stripped text
    fails, [extract_diseases_from_response] returns the empty list at
    once; the scan is done before, by [QwenAPI.predict], on the raw reply
    whose direct parse failed with a decode error: it takes the leftmost
    text of the shape of the pattern, answers with the labels of that
    text when it parses, and with the empty document when it does not
    parse or when nothing matches. *)
Theorem parse_failure_fallback :
  (∀ response e,
     Json.loads (strip_fence response) = Json.Err e →
     extract_diseases_from_response response = [])
  ∧ (∀ content,
       Json.loads content = Json.Err Json.DecodeError →
       (Regex.first_match content = None →
        qwen_clean content = Dumps.dumps_diseases [])
       ∧ ∀ m, Regex.first_match content = Some m →
           Regex.pattern_shape m
           ∧ (∃ pre post, content = pre ++ m ++ post
                ∧ ∀ k, k < length pre → Regex.json_pattern (drop k content) = None)
           ∧ qwen_clean content =
               match Json.loads m with
               | Json.Ok result => qwen_standardise result
               | Json.Err _ => Dumps.dumps_diseases []
               end).
Proof.
  split; [apply extract_parse_failure|].
  intros content Hfail. unfold qwen_clean. rewrite Hfail. split.
  - by intros ->.
  - intros m Hm. rewrite Hm.
    destruct (RegexFacts.first_match_some _ _ Hm) as [Hshape Hleft]. done.
Qed.

End ParserFacts.

(** C6, as stated, fails on a reply with text before the document: the
    direct parse fails, the text of the shape is there and would parse to
    one label, and the parser returns the empty list.  Nor is it the
    smallest text of the shape that [QwenAPI.predict] takes: of two such
    texts in a reply it takes the first, here the longer one. *)
Lemma extract_no_scan_counterexample :
  let response := Text.jtext "abc {'diseases': ['x']}" in
  let piece := Text.jtext "{'diseases': ['x']}" in
  let long := Text.jtext "{'diseases': ['x'], 'n': 1}" in
  let short := Text.jtext "{'diseases': ['y']}" in
  let reply := long ++ Text.utf8 " and " ++ short in
  (Json.loads (H := AsciiEnv.env) (strip_fence response) = Json.Err Json.DecodeError
   ∧ response = Text.utf8 "abc " ++ piece
   ∧ Regex.first_match response = Some piece
   ∧ extract_diseases_from_response (H := AsciiEnv.env) piece = [Text.utf8 "x"]
   ∧ extract_diseases_from_response (H := AsciiEnv.env) response = [])
  ∧ (Json.loads (H := AsciiEnv.env) reply = Json.Err Json.DecodeError
     ∧ Regex.first_match short = Some short
     ∧ length short < length long
     ∧ Regex.first_match reply = Some long
     ∧ extract_diseases_from_response (H := AsciiEnv.env)
         (qwen_clean (H := AsciiEnv.env) reply) = [Text.utf8 "x"]).
Proof.
  cbv zeta. split; [repeat split; vm_compute; reflexivity|].
  split; [vm_compute; reflexivity|]. split; [vm_compute; reflexivity|].
  split; [vm_compute; lia|]. split; vm_compute; reflexivity.
Qed.

(** C5: on a document whose [diseases] is a string of spaces the parser
    returns one string, and that string is empty. *)
Theorem extract_blank_scalar_label :
  extract_diseases_from_response (H := AsciiEnv.env)
    (Text.jtext "{'diseases': '  '}") = [[]].
Proof. vm_compute. reflexivity. Qed.

(** ** [generate_prompt] and the optimization history *)

Section OptimizerFacts.
Context `{PyEnv} {World : Type} `{Services World}.

Lemma build_request_none (self : PromptOptimizer) (base_prompt : str) :
  build_request self base_prompt = None →
  current_iteration self ≠ 1%Z
  ∧ (optimization_history self = []
     ∨ ∃ last_iteration,
         last (optimization_history self) = Some last_iteration
         ∧ (it_analysis_results last_iteration = None
            ∨ it_new_prompt last_iteration = None
            ∨ it_summary last_iteration = None
            ∨ ∃ results, it_analysis_results last_iteration = Some results
                         ∧ omap case_analysis_of results = [])).
Proof.
  unfold build_request. destruct (current_iteration self =? 1)%Z eqn:Ei; [done|].
  apply Z.eqb_neq in Ei. intros Hb. split; [done|].
  destruct (last (optimization_history self)) as [li|] eqn:El; simpl in Hb.
  - right. exists li. split; [done|].
    destruct (it_analysis_results li) as [results|]; simpl in Hb; [|tauto].
    destruct (it_new_prompt li); simpl in Hb; [|tauto].
    destruct (it_summary li); simpl in Hb; [|tauto].
    destruct (omap case_analysis_of results) eqn:Eo; [|done].
    right. right. right. eauto.
  - left. by apply last_None.
Qed.

Lemma build_request_failing (self : PromptOptimizer) (context : gen_context)
    (w : World) :
  build_request (entered self context) (base_prompt_of context) = None →
  failing_invocation self context w.
Proof.
  intros (Hi & [Hh | (li & Hl & Hli)])%build_request_none.
  - by apply MissingHistory.
  - by eapply IncompleteHistory.
Qed.

Lemma build_request_some_not_missing (self : PromptOptimizer) (base_prompt : str)
    (request : optimizer_request) :
  build_request self base_prompt = Some request →
  current_iteration self = 1%Z
  ∨ ∃ last_iteration results new_prompt summary,
      last (optimization_history self) = Some last_iteration
      ∧ it_analysis_results last_iteration = Some results
      ∧ it_new_prompt last_iteration = Some new_prompt
      ∧ it_summary last_iteration = Some summary
      ∧ omap case_analysis_of results ≠ [].
Proof.
  unfold build_request. destruct (current_iteration self =? 1)%Z eqn:Ei.
  { left. by apply Z.eqb_eq. }
  intros Hb. right.
  destruct (last (optimization_history self)) as [li|]; simpl in Hb; [|done].
  destruct (it_analysis_results li) as [results|] eqn:E1; simpl in Hb; [|done].
  destruct (it_new_prompt li) as [np|] eqn:E2; simpl in Hb; [|done].
  destruct (it_summary li) as [sm|] eqn:E3; simpl in Hb; [|done].
  destruct (omap case_analysis_of results) eqn:Eo; [done|].
  exists li, results, np, sm. rewrite Eo. done.
Qed.

(** C10: a failing invocation of [generate_prompt] (an empty context, no
    cases, a missing or incomplete history after the first iteration, an
    optimizer that raises or returns no valid prompt, no case analysed)
    returns the base prompt and leaves [optimization_history] as it was;
    every other invocation appends exactly one record to it and returns
    the optimized prompt, which is the record's new prompt. *)
Theorem generate_prompt_atomic (self : PromptOptimizer) (context : gen_context)
    (w : World) :
  let '(prompt, self', _) := generate_prompt self context w in
  (failing_invocation self context w →
   prompt = base_prompt_of context
   ∧ optimization_history self' = optimization_history self)
  ∧ (¬ failing_invocation self context w →
     ∃ record request,
       optimization_history self' = optimization_history self ++ [record]
       ∧ build_request (entered self context) (base_prompt_of context) = Some request
       ∧ valid_optimized (optimizer_generate_prompt request w).1 = Some prompt
       ∧ it_new_prompt record = Some prompt
       ∧ it_old_prompt record = base_prompt_of context).
Proof.
  unfold generate_prompt.
  destruct (context_is_empty context) eqn:Ee.
  { split.
    - intros _. split; [|done]. unfold context_is_empty in Ee.
      unfold base_prompt_of.
      destruct (ctx_base_prompt context) as [bp|] eqn:Eb; [discriminate Ee|].
      reflexivity.
    - intros Hn. destruct Hn. by apply EmptyContext. }
  destruct (default [] (ctx_all_cases context)) as [|case0 cases] eqn:Ec.
  { split; [done|]. intros Hn. destruct Hn. by apply NoCases. }
  destruct (build_request (entered self context) (base_prompt_of context))
    as [request|] eqn:Eb.
  2:{ split; [done|]. intros Hn. destruct Hn. by apply build_request_failing. }
  destruct (optimizer_generate_prompt request w) as [reply w1] eqn:Eo.
  destruct (valid_optimized reply) as [optimized_prompt|] eqn:Ev.
  2:{ split; [done|]. intros Hn. destruct Hn.
      apply (InvalidOptimizerOutput _ _ _ request); [done|]. by rewrite Eo. }
  destruct (analyze_cases optimized_prompt (case0 :: cases) w1)
    as [[[analysis_results total_missed] total_wrong] w2] eqn:Ea.
  destruct analysis_results as [|r0 results].
  { split; [done|]. intros Hn. destruct Hn.
    apply (NoCaseAnalysed _ _ _ request optimized_prompt); [done|by rewrite Eo|].
    rewrite Eo, Ec. cbn [fst snd]. by rewrite Ea. }
  split.
  - intros Hf. exfalso. destruct Hf as [He|Hc|Hi Hh|li Hi Hl Hli|req Hb Hv|req p Hb Hv Ha].
    + congruence.
    + congruence.
    + apply build_request_some_not_missing in Eb as [E1|(li & ? & ? & ? & Hl & _)];
        [done|]. simpl in Hl. rewrite Hh in Hl. done.
    + apply build_request_some_not_missing in Eb
        as [E1|(li' & rs & np & sm & Hl' & H1 & H2 & H3 & H4)]; [done|].
      simpl in Hl'. rewrite Hl in Hl'. injection Hl' as <-.
      destruct Hli as [?|[?|[?|(rs' & Hrs & Ho)]]]; try congruence.
    + rewrite Eb in Hb. injection Hb as <-. rewrite Eo in Hv. simpl in Hv. congruence.
    + rewrite Eb in Hb. injection Hb as <-. rewrite Eo in Hv, Ha.
      cbn [fst snd] in Hv, Ha.
      rewrite Ev in Hv. injection Hv as <-. rewrite Ec, Ea in Ha. done.
  - intros _. eexists _, request. simpl. split; [done|]. rewrite Eo. simpl.
    repeat split; done.
Qed.

End OptimizerFacts.

Section OutcomeFacts.
Context `{PyEnv} {World : Type} `{Services World}.

Lemma build_request_base (self : PromptOptimizer) (base_prompt : str)
    (request : optimizer_request) :
  build_request self base_prompt = Some request →
  req_base_prompt request = base_prompt.
Proof.
  unfold build_request. destruct (current_iteration self =? 1)%Z.
  { by intros [= <-]. }
  destruct (last (optimization_history self)) as [li|]; simpl; [|done].
  destruct (it_analysis_results li) as [results|]; simpl; [|done].
  destruct (it_new_prompt li); simpl; [|done].
  destruct (it_summary li); simpl; [|done].
  destruct (omap case_analysis_of results); [done|]. by intros [= <-].
Qed.

(** What [generate_prompt] returns: the base prompt, or the valid reply
    of the optimizer to the request it built in the world it started in. *)
Lemma generate_prompt_result (self : PromptOptimizer) (context : gen_context)
    (w : World) :
  (generate_prompt self context w).1.1 = base_prompt_of context
  ∨ ∃ request,
      build_request (entered self context) (base_prompt_of context) = Some request
      ∧ valid_optimized (optimizer_generate_prompt request w).1
        = Some (generate_prompt self context w).1.1.
Proof.
  unfold generate_prompt.
  destruct (context_is_empty context) eqn:Ee.
  { left. unfold context_is_empty in Ee. unfold base_prompt_of.
    destruct (ctx_base_prompt context) as [bp|] eqn:Eb; [discriminate Ee|].
    reflexivity. }
  destruct (default [] (ctx_all_cases context)) as [|case0 cases]; [by left|].
  destruct (build_request (entered self context) (base_prompt_of context))
    as [request|] eqn:Eb; [|by left].
  destruct (optimizer_generate_prompt request w) as [reply w1] eqn:Eo.
  destruct (valid_optimized reply) as [optimized_prompt|] eqn:Ev; [|by left].
  destruct (analyze_cases optimized_prompt (case0 :: cases) w1)
    as [[[[|r0 results] total_missed] total_wrong] w2]; [by left|].
  right. exists request. rewrite Eo. done.
Qed.

End OutcomeFacts.

(** ** Rejected candidates *)

Section ClientFacts.
Context `{PyEnv} {World : Type} `{Oracles World}.

Lemma forallb_false_elem {A} (f : A → bool) (l : list A) :
  forallb f l = false ↔ ∃ x, x ∈ l ∧ f x = false.
Proof.
  induction l as [|a l IH]; simpl.
  - split; [done|]. by intros (x & Hx%not_elem_of_nil & _).
  - rewrite andb_false_iff, IH. split.
    + intros [Ha|(x & Hx & Hf)]; [exists a|exists x]; split; try done;
        by constructor.
    + intros (x & Hx & Hf). apply elem_of_cons in Hx as [->|Hx]; eauto.
Qed.

Lemma skeleton_ok_false (content : str) :
  skeleton_ok content = false
  ↔ (∃ marker, marker ∈ section_markers ∧ Text.contains marker content = false)
    ∨ length (Text.split_on left_bracket content) ≠ 5.
Proof.
  unfold skeleton_ok.
  rewrite andb_false_iff, forallb_false_elem, bool_decide_eq_false. done.
Qed.

Lemma deepseek_rejects (request : optimizer_request) (w w1 : World) (content : str) :
  chat_optimizer request w = (Some content, w1) →
  skeleton_ok content = false →
  deepseek_generate_prompt request w = (Some (JStr (req_base_prompt request)), w1).
Proof. unfold deepseek_generate_prompt. by intros -> ->. Qed.

Lemma generate_prompt_rejects (self : PromptOptimizer) (context : gen_context)
    (w : World) :
  candidate_invalid_at w →
  (generate_prompt self context w).1.1 = base_prompt_of context.
Proof.
  intros Hbad.
  destruct (generate_prompt_result self context w) as [E|(request & Eb & Ev)];
    [done|].
  apply build_request_base in Eb. simpl in Ev.
  unfold deepseek_generate_prompt in Ev.
  destruct (chat_optimizer request w) as [[content|] w1] eqn:Eo.
  - rewrite (Hbad _ _ _ Eo) in Ev. simpl in Ev.
    destruct (nonempty (req_base_prompt request)
              && Text.contains marker_rules (req_base_prompt request));
      [|done]. injection Ev as Ev. by rewrite <- Ev.
  - simpl in Ev.
    destruct (nonempty (req_base_prompt request)
              && Text.contains marker_rules (req_base_prompt request));
      [|done]. injection Ev as Ev. by rewrite <- Ev.
Qed.

Lemma run_round_rejects (all_cases : list case) (i : nat) (st : loop_state)
    (w : World) :
  candidate_invalid_at w →
  rl_new_prompt (run_round all_cases i st w).1.1 = best_prompt st
  ∧ rl_evaluated_cases (run_round all_cases i st w).1.1 = all_cases
  ∧ best_prompt (run_round all_cases i st w).1.2 = best_prompt st.
Proof.
  intros Hbad. unfold run_round.
  set (context := {| ctx_base_prompt := Some (best_prompt st);
                     ctx_all_cases := _; ctx_iteration := _;
                     ctx_previous_results := _ |}).
  pose proof (generate_prompt_rejects (optimizer st) context w Hbad) as Hg.
  destruct (generate_prompt (optimizer st) context w) as [[generated optimizer1] w1].
  simpl in Hg. subst generated.
  set (decision := match evaluate_optimization_progress optimizer1 with
                   | Some _ => _ | None => _ end).
  assert (Hd : decision.1.1 = best_prompt st).
  { subst decision. destruct (evaluate_optimization_progress optimizer1) as [p|];
      [|done]. destruct (status p); try done. by destruct (decide _). }
  destruct decision as [[new_prompt stagnation1] context_cases]. simpl in Hd.
  subst new_prompt.
  destruct (evaluate_cases _ _ _ _ _) as [[[total_overlap total_files] all_results] w2].
  simpl. split; [done|]. split; [done|]. by destruct (Qgtb _ _).
Qed.

(** C3: a candidate that lacks one of the four section markers, or that
    does not split into exactly five parts on the opening bracket, is
    rejected by the client, which returns the prompt it was given; the
    optimizer then returns its base prompt; the round of the main loop
    goes on with the previous best prompt, evaluates it on the cases and
    keeps it as the best prompt. *)
Theorem invalid_candidate_rejected :
  (∀ content,
     skeleton_ok content = false
     ↔ (∃ marker, marker ∈ section_markers ∧ Text.contains marker content = false)
       ∨ length (Text.split_on left_bracket content) ≠ 5)
  ∧ (∀ request w content w1,
       chat_optimizer request w = (Some content, w1) →
       skeleton_ok content = false →
       deepseek_generate_prompt request w
       = (Some (JStr (req_base_prompt request)), w1))
  ∧ (∀ self context w,
       candidate_invalid_at w →
       (generate_prompt self context w).1.1 = base_prompt_of context)
  ∧ (∀ all_cases i st w,
       candidate_invalid_at w →
       rl_new_prompt (run_round all_cases i st w).1.1 = best_prompt st
       ∧ rl_evaluated_cases (run_round all_cases i st w).1.1 = all_cases
       ∧ best_prompt (run_round all_cases i st w).1.2 = best_prompt st).
Proof.
  split; [apply skeleton_ok_false|].
  split; [intros ???? Hc Hs; exact (deepseek_rejects _ _ _ _ Hc Hs)|].
  split; [intros ??? Hbad; by apply generate_prompt_rejects|].
  intros ???? Hbad. by apply run_round_rejects.
Qed.

End ClientFacts.

(** ** The evaluation loop and the decision step *)

Section MainFacts.
Context `{PyEnv} {World : Type} `{Services World}.
Context (all_cases : list case).

Lemma subscript_score_value (r : overlap_result) (q : Q) :
  subscript_score r = Some q → overlap_value r = q.
Proof. destruct r; simpl; [done|by intros [= ->]]. Qed.

Lemma evaluate_case_bounds (round : nat) (new_prompt : str) (c : case)
    (w : World) (s : case_score) :
  (evaluate_case round new_prompt c w).1 = Some s →
  (0 <= cs_overlap s <= 1)%Q.
Proof.
  unfold evaluate_case.
  destruct (predict_diseases new_prompt (input_data c) w) as [predicted w1].
  set (A := process_input_data (JArr (JStr <$> predicted))).
  set (B := process_input_data (gt_data c)). simpl.
  destruct (calculate_overlap_properties A B) as (q & Hq & _ & Hb & _).
  unfold overlap_score in Hq.
  destruct (calculate_overlap A B) as [r|]; simpl in *; [|done].
  injection Hq as Hq.
  destruct (subscript_score r) as [q'|] eqn:Es; simpl; [|done].
  apply subscript_score_value in Es. intros [= <-]. simpl. by rewrite <- Es, Hq.
Qed.

(** A case whose prediction is empty raises at the subscript and leaves
    the accumulators as they were. *)
Lemma evaluate_case_empty_prediction (round : nat) (new_prompt : str)
    (c : case) (w : World) :
  (predict_diseases new_prompt (input_data c) w).1 = [] →
  (evaluate_case round new_prompt c w).1 = None.
Proof.
  unfold evaluate_case.
  destruct (predict_diseases new_prompt (input_data c) w) as [predicted w1].
  simpl. by intros ->.
Qed.

Lemma evaluate_case_world (round : nat) (new_prompt : str) (c : case) (w : World) :
  (evaluate_case round new_prompt c w).2
  = (predict_diseases new_prompt (input_data c) w).2.
Proof.
  unfold evaluate_case.
  by destruct (predict_diseases new_prompt (input_data c) w).
Qed.

Lemma evaluate_cases_skip (round : nat) (new_prompt : str) (c : case)
    (rest : list case) (acc : Q * nat * list case_score) (w : World) :
  (predict_diseases new_prompt (input_data c) w).1 = [] →
  evaluate_cases round new_prompt (c :: rest) acc w
  = evaluate_cases round new_prompt rest acc
      (predict_diseases new_prompt (input_data c) w).2.
Proof.
  intros He. cbn [evaluate_cases].
  pose proof (evaluate_case_empty_prediction round new_prompt c w He) as E1.
  pose proof (evaluate_case_world round new_prompt c w) as E2.
  destruct (evaluate_case round new_prompt c w) as [r w1]. simpl in E1, E2.
  by subst.
Qed.


(** The sum of the scores never exceeds the number of scored cases. *)
Lemma evaluate_cases_bounds (round : nat) (new_prompt : str) (cases : list case)
    (total : Q) (files : nat) (results : list case_score) (w : World) :
  (0 <= total <= inject_Z (Z.of_nat files))%Q →
  let '(total', files', _, _) :=
    evaluate_cases round new_prompt cases (total, files, results) w in
  (0 <= total' <= inject_Z (Z.of_nat files'))%Q.
Proof.
  revert total files results w.
  induction cases as [|c rest IH]; intros total files results w Hb; [done|].
  cbn [evaluate_cases].
  pose proof (evaluate_case_bounds round new_prompt c w) as Hs.
  destruct (evaluate_case round new_prompt c w) as [[s|] w1]; [|by apply IH].
  specialize (Hs s eq_refl). apply IH.
  rewrite Nat2Z.inj_succ, <- Z.add_1_r, inject_Z_plus. split.
  - apply (Qplus_le_compat 0 total 0 (cs_overlap s)); tauto.
  - apply Qplus_le_compat; tauto.
Qed.

Lemma average_bounds (total : Q) (files : nat) :
  (0 <= total <= inject_Z (Z.of_nat files))%Q →
  (0 <= average total files <= 1)%Q.
Proof.
  intros [H0' H1']. unfold average. destruct (decide (0 < files)); [|done].
  assert (Hpos : (0 < inject_Z (Z.of_nat files))%Q) by (apply inject_nat_pos; lia).
  split.
  - apply Qle_shift_div_l; [done|]. by rewrite Qmult_0_l.
  - apply Qle_shift_div_r; [done|]. by rewrite Qmult_1_l.
Qed.

(** What one round does to the quantities the decision step reads. *)
Lemma run_round_facts (i : nat) (st : loop_state) (w : World) :
  let log := (run_round all_cases i st w).1.1 in
  let st1 := (run_round all_cases i st w).1.2 in
  rl_round log = i + 1
  ∧ (0 <= rl_avg_overlap log <= 1)%Q
  ∧ rl_stagnation_count log ≤ S (stagnation_count st)
  ∧ stagnation_count st1 = rl_stagnation_count log
  ∧ best_avg_overlap st1
    = (if Qgtb (rl_avg_overlap log) (best_avg_overlap st)
       then rl_avg_overlap log else best_avg_overlap st)
  ∧ best_prompt st1
    = (if Qgtb (rl_avg_overlap log) (best_avg_overlap st)
       then rl_new_prompt log else best_prompt st)
  ∧ rl_exit log
    = (if Qgtb (rl_avg_overlap log) (best_avg_overlap st)
          && Qeq_bool (rl_avg_overlap log) 1
       then PerfectMatch
       else if decide (stagnation_limit ≤ rl_stagnation_count log) then Stagnated
       else NextRound).
Proof.
  unfold run_round.
  destruct (generate_prompt _ _ _) as [[generated optimizer1] w1].
  set (decision := match evaluate_optimization_progress optimizer1 with
                   | Some _ => _ | None => _ end).
  assert (Hd : decision.1.2 ≤ S (stagnation_count st)).
  { subst decision. destruct (evaluate_optimization_progress optimizer1) as [p|];
      [|simpl; lia]. destruct (status p); simpl; try lia.
    destruct (decide _); simpl; lia. }
  destruct decision as [[new_prompt stagnation1] context_cases]. simpl in Hd.
  pose proof (evaluate_cases_bounds (i + 1) new_prompt all_cases 0 0 [] w1) as Hb.
  destruct (evaluate_cases _ _ _ _ _) as [[[total_overlap total_files] all_results] w2].
  simpl. split; [done|]. split; [|done].
  apply average_bounds, Hb. done.
Qed.


(** The generation step is always given the first three cases, and the
    evaluation loop always runs over all of them. *)
Lemma round_case_subsets (i : nat) (st : loop_state) (w : World) :
  rl_generation_cases (run_round all_cases i st w).1.1 = take 3 all_cases
  ∧ rl_evaluated_cases (run_round all_cases i st w).1.1 = all_cases
  ∧ rl_scored (run_round all_cases i st w).1.1 ≤ length all_cases.
Proof.
  unfold run_round.
  destruct (generate_prompt _ _ _) as [[generated optimizer1] w1].
  destruct (match evaluate_optimization_progress optimizer1 with
            | Some _ => _ | None => _ end)
    as [[new_prompt stagnation1] context_cases].
  assert (Hn : ∀ cases acc w',
             (evaluate_cases (i + 1) new_prompt cases acc w').1.1.2
             ≤ acc.1.2 + length cases).
  { induction cases as [|c rest IH]; intros acc w'; simpl; [lia|].
    destruct (evaluate_case (i + 1) new_prompt c w') as [[s|] w'']; simpl.
    - destruct acc as [[t n] rs]. etrans; [apply IH|]. simpl. lia.
    - etrans; [apply IH|]. lia. }
  specialize (Hn all_cases (0%Q, 0, []) w1).
  destruct (evaluate_cases _ _ _ _ _) as [[[total_overlap total_files] all_results] w2].
  simpl in *. done.
Qed.

End MainFacts.

(** ** Termination of the loop *)

Section LoopFacts.
Context `{PyEnv} {World : Type} `{Services World}.
Context (all_cases : list case).




(** C9: [calculate_overlap] answers with the bare float [0.0] exactly
    when one of the two lists is empty or normalises to the empty set, and
    with a record of score, overlap, missed and extra labels otherwise;
    the subscript of line 261 raises on the float, so that a case whose
    prediction is empty is skipped by the evaluation loop, which leaves
    the running sum, the count and the results unchanged. *)
Theorem bare_float_overlap :
  (∀ A B : list str,
     (A = [] ∨ B = [] ∨ label_set A = ∅ ∨ label_set B = ∅ →
      calculate_overlap A B = Some (BareFloat 0)
      ∧ calculate_overlap A B ≫= subscript_score = None)
     ∧ (¬ (A = [] ∨ B = [] ∨ label_set A = ∅ ∨ label_set B = ∅) →
        ∃ score,
          calculate_overlap A B =
            Some (OverlapRecord score
                    (elements (label_set A ∩ label_set B))
                    (elements (label_set B ∖ label_set A))
                    (elements (label_set A ∖ label_set B)))
          ∧ calculate_overlap A B ≫= subscript_score = Some score))
  ∧ (∀ round new_prompt c rest acc w,
       (predict_diseases new_prompt (input_data c) w).1 = [] →
       (evaluate_case round new_prompt c w).1 = None
       ∧ evaluate_cases round new_prompt (c :: rest) acc w
         = evaluate_cases round new_prompt rest acc
             (predict_diseases new_prompt (input_data c) w).2).
Proof.
  split; [apply calculate_overlap_shape|].
  intros round new_prompt c rest acc w He. split.
  - by apply evaluate_case_empty_prediction.
  - by apply evaluate_cases_skip.
Qed.

End LoopFacts.

(** ** The concrete run *)

(** With the predictor of [Demo.reply_none] every prediction is empty. *)
Lemma demo_predictions_empty (candidate : option str) (prompt : str)
    (data : json) (w : unit) :
  (predict_diseases (H := AsciiEnv.env)
     (H0 := Demo.services candidate Demo.reply_none) prompt data w).1 = [].
Proof. vm_compute. reflexivity. Defined.

Lemma demo_candidate_invalid (reply : str) :
  candidate_invalid_at
    (H0 := Demo.oracles (Some Demo.candidate_without_rules) reply) tt.
Proof.
  intros request content w1. simpl. intros [= <- _]. vm_compute. reflexivity.
Defined.


(** C3, at the first round of the concrete run whose optimizer service
    answers with a candidate that lacks the rules marker. *)
Lemma invalid_candidate_rejected_witness :
  skeleton_ok Demo.candidate_without_rules = false
  ∧ rl_new_prompt
      (run_round (H := AsciiEnv.env)
         (H0 := Demo.services (Some Demo.candidate_without_rules) Demo.reply_a)
         Demo.cases10 0 initial_state tt).1.1
    = base_prompt_template.
Proof.
  split; [vm_compute; reflexivity|].
  apply (invalid_candidate_rejected (H := AsciiEnv.env)
           (H0 := Demo.oracles (Some Demo.candidate_without_rules) Demo.reply_a)).
  apply demo_candidate_invalid.
Defined.

(** C9, at the first case of the concrete run whose predictor names no
    label. *)
Lemma bare_float_overlap_witness :
  (predict_diseases (H := AsciiEnv.env)
     (H0 := Demo.services None Demo.reply_none)
     base_prompt_template (input_data (Demo.mk_case 0)) tt).1 = []
  ∧ (evaluate_case (H := AsciiEnv.env)
       (H0 := Demo.services None Demo.reply_none)
       1 base_prompt_template (Demo.mk_case 0) tt).1 = None.
Proof.
  split; [apply demo_predictions_empty|].
  apply (bare_float_overlap (H := AsciiEnv.env)
           (H0 := Demo.services None Demo.reply_none)).
  - exact [].
  - exact (0%Q, 0, []).
  - apply demo_predictions_empty.
Defined.

(** C1: in the concrete run of ten cases whose predictor always names one
    of the two true labels, round 5 is the round in which the stagnation
    counter reaches 3; [optimization_context['all_cases']] is then set to
    the first [min(10, 3 + 3) = 6] cases, yet [generate_prompt] was given
    three cases and the evaluation loop ran over, and scored, all ten. *)
Theorem stagnation_growth_unused :
  (fun l => (rl_round l, rl_stagnation_count l, length (rl_context_cases l),
             length (rl_generation_cases l), length (rl_evaluated_cases l),
             rl_scored l))
    <$> (Demo.run None Demo.reply_a).1.1 !! 4
  = Some (5, 3, 6, 3, 10, 10).
Proof. vm_compute. reflexivity. Qed.

(** * Further properties *)

(** ** Stripping *)

Module TextFacts.

Lemma lstrip_no_lead (p : N -> bool) (s : str) : no_lead p (Text.lstrip_by p s).
Proof.
  induction s as [|c r IH]; simpl; [done|]. destruct (p c) eqn:E; [done|].
  simpl. done.
Qed.

Lemma lstrip_id (p : N -> bool) (s : str) :
  no_lead p s → Text.lstrip_by p s = s.
Proof. destruct s as [|c r]; simpl; [done|]. by intros ->. Qed.

Lemma lstrip_app_keep (p : N -> bool) (x y : str) (c : N) :
  p c = false →
  Text.lstrip_by p (x ++ c :: y) = Text.lstrip_by p x ++ c :: y.
Proof.
  intros Hc. induction x as [|a x IH]; simpl; [by rewrite Hc|].
  by destruct (p a).
Qed.

Lemma rstrip_no_trail (p : N -> bool) (s : str) : no_trail p (Text.rstrip_by p s).
Proof.
  unfold no_trail, Text.rstrip_by. rewrite rev_involutive. apply lstrip_no_lead.
Qed.

Lemma rstrip_id (p : N -> bool) (s : str) :
  no_trail p s → Text.rstrip_by p s = s.
Proof.
  unfold no_trail, Text.rstrip_by. intros Hs.
  by rewrite lstrip_id, rev_involutive.
Qed.

Lemma rstrip_keeps_no_lead (p : N -> bool) (s : str) :
  no_lead p s → no_lead p (Text.rstrip_by p s).
Proof.
  destruct s as [|c r]; [done|]. simpl. intros Hc. unfold Text.rstrip_by.
  simpl. rewrite lstrip_app_keep by done. rewrite rev_app_distr. simpl. done.
Qed.

Lemma strip_by_id (p : N -> bool) (s : str) :
  no_lead p s → no_trail p s → Text.strip_by p s = s.
Proof.
  intros Hl Ht. unfold Text.strip_by. by rewrite lstrip_id, rstrip_id.
Qed.

Lemma strip_by_stripped (p : N -> bool) (s : str) :
  no_lead p (Text.strip_by p s) ∧ no_trail p (Text.strip_by p s).
Proof.
  unfold Text.strip_by. split.
  - apply rstrip_keeps_no_lead, lstrip_no_lead.
  - apply rstrip_no_trail.
Qed.

Lemma strip_by_idem (p : N -> bool) (s : str) :
  Text.strip_by p (Text.strip_by p s) = Text.strip_by p s.
Proof. destruct (strip_by_stripped p s). by apply strip_by_id. Qed.

Lemma strip_stripped (s : str) : stripped (Text.strip s).
Proof. apply strip_by_stripped. Qed.

Lemma strip_id (s : str) : stripped s → Text.strip s = s.
Proof. intros [Hl Ht]. by apply strip_by_id. Qed.

Lemma strip_idem (s : str) : Text.strip (Text.strip s) = Text.strip s.
Proof. apply strip_by_idem. Qed.

(** Trailing characters that are stripped do not change the result. *)
Lemma rstrip_app_dropped (p : N -> bool) (s t : str) :
  Forall (fun c => p c = true) t →
  Text.rstrip_by p (s ++ t) = Text.rstrip_by p s.
Proof.
  intros Ht. unfold Text.rstrip_by. rewrite rev_app_distr. f_equal.
  apply Forall_rev in Ht. induction Ht as [|c r Hc _ IH]; simpl; [done|].
  by rewrite Hc.
Qed.

Lemma lstrip_app_dropped (p : N -> bool) (s t : str) :
  Forall (fun c => p c = true) t →
  Text.lstrip_by p (t ++ s) = Text.lstrip_by p s.
Proof.
  intros Ht. induction Ht as [|c r Hc _ IH]; simpl; [done|]. by rewrite Hc.
Qed.

End TextFacts.

(** ** Encoding and decoding of a list of labels *)

Module RoundTrip.
Import Json Dumps.

Lemma scan_string_unicode_escape (h1 h2 h3 h4 u : N) (t : str) :
  hex4 h1 h2 h3 h4 = Some u →
  is_high_surrogate u = false →
  scan_string (92 :: 117 :: h1 :: h2 :: h3 :: h4 :: t)%N
  = cons_fst u <$> scan_string t.
Proof.
  intros Hh Hs. cbn [scan_string].
  change (92 =? 34)%N with false. change (92 =? 92)%N with true.
  change (117 =? 117)%N with true. cbv iota. rewrite Hh, Hs. cbn [andb].
  by destruct t as [|? [|? [|? [|? [|? [|? ?]]]]]].
Qed.

Lemma below_32 (c : N) :
  (c < 32)%N → In c (N.of_nat <$> seq 0 32).
Proof.
  intros Hc. apply list_elem_of_In, list_elem_of_fmap. exists (N.to_nat c).
  split; [lia|]. apply elem_of_seq. lia.
Qed.

(** One escaped character is read back as that character. *)
Lemma scan_string_escape_char (c : N) (t : str) :
  scan_string (escape_char c ++ t) = cons_fst c <$> scan_string t.
Proof.
  destruct (c <? 32)%N eqn:Hlt.
  - apply N.ltb_lt, below_32 in Hlt. cbn in Hlt.
    repeat (destruct Hlt as [<-|Hlt];
            [first [reflexivity
                   |by apply scan_string_unicode_escape]|]).
    done.
  - apply N.ltb_ge in Hlt.
    destruct (c =? 34)%N eqn:E34; [apply N.eqb_eq in E34 as ->; reflexivity|].
    destruct (c =? 92)%N eqn:E92; [apply N.eqb_eq in E92 as ->; reflexivity|].
    unfold escape_char. rewrite E34, E92.
    replace (c =? 10)%N with false by (symmetry; apply N.eqb_neq; lia).
    replace (c =? 13)%N with false by (symmetry; apply N.eqb_neq; lia).
    replace (c =? 9)%N with false by (symmetry; apply N.eqb_neq; lia).
    replace (c =? 8)%N with false by (symmetry; apply N.eqb_neq; lia).
    replace (c =? 12)%N with false by (symmetry; apply N.eqb_neq; lia).
    replace (c <? 32)%N with false by (symmetry; apply N.ltb_ge; lia).
    cbn [app scan_string]. rewrite E34, E92.
    replace (c <=? 31)%N with false by (symmetry; apply N.leb_gt; lia).
    done.
Qed.

Lemma cons_fst_fmap_ok (c : N) (s rest : str) (o : option (str * str)) :
  o = Some (s, rest) → cons_fst c <$> o = Some (c :: s, rest).
Proof. by intros ->. Qed.

(** The body of an encoded string, up to its closing quotation mark, is
    read back as the string. *)
Lemma scan_string_escaped (s rest : str) :
  scan_string (concat (escape_char <$> s) ++ 34%N :: rest) = Some (s, rest).
Proof.
  induction s as [|c s IH]; [done|].
  rewrite fmap_cons, concat_cons, <- app_assoc, scan_string_escape_char.
  by apply cons_fst_fmap_ok.
Qed.

Lemma scan_scalar_dumps_str (s rest : str) :
  scan_scalar (dumps_str s ++ rest) = Some (JStr s, rest).
Proof.
  unfold dumps_str. rewrite <- !app_assoc. cbn [app scan_scalar].
  change (34 =? 34)%N with true. cbv iota.
  by rewrite scan_string_escaped.
Qed.

Lemma scan_value_dumps_str (depth : nat) (s rest : str) :
  scan_value depth (dumps_str s ++ rest) = Ok (JStr s, rest).
Proof.
  pose proof (scan_scalar_dumps_str s rest) as Hs.
  unfold dumps_str in *. rewrite <- !app_assoc in *. cbn [app] in *.
  destruct depth; cbn [scan_value]; change ((34 =? 91) || (34 =? 123))%N with false;
    cbv iota; by rewrite Hs.
Qed.

Lemma skip_ws_newline_indent (level : nat) (s : str) :
  skip_ws (newline_indent level ++ s) = skip_ws s.
Proof.
  unfold newline_indent, skip_ws. cbn [app Text.lstrip_by].
  change (is_ws 10) with true. cbv iota.
  induction (2 * level) as [|n IH]; [done|]. cbn [replicate app Text.lstrip_by].
  change (is_ws 32) with true. cbv iota. done.
Qed.

Lemma skip_ws_keep (c : N) (s : str) : is_ws c = false → skip_ws (c :: s) = c :: s.
Proof. intros Hc. unfold skip_ws. cbn [Text.lstrip_by]. by rewrite Hc. Qed.

Lemma skip_ws_dumps_str (s rest : str) :
  skip_ws (dumps_str s ++ rest) = dumps_str s ++ rest.
Proof. unfold dumps_str. rewrite <- !app_assoc. by apply skip_ws_keep. Qed.

Lemma skip_ws_join (x : str) (xs : list str) (t : str) :
  skip_ws (join_items (dumps_str <$> x :: xs) ++ t)
  = join_items (dumps_str <$> x :: xs) ++ t.
Proof.
  rewrite fmap_cons. cbn [join_items].
  destruct (dumps_str <$> xs); rewrite <- ?app_assoc; apply skip_ws_dumps_str.
Qed.

Lemma join_items_cons (x y : str) (ys : list str) :
  join_items (x :: y :: ys) = x ++ [44%N] ++ newline_indent 2 ++ join_items (y :: ys).
Proof. reflexivity. Qed.

(** The elements of a non-empty encoded list are read back in order. *)
Lemma scan_items_join (depth : nat) (l : str) (ls : list str) (rest : str) :
  ∀ fuel, length ls < fuel →
    scan_items (scan_value depth) fuel
      (join_items (dumps_str <$> l :: ls) ++ newline_indent 1 ++ 93%N :: rest)
    = Ok (JStr <$> l :: ls, rest).
Proof.
  revert l. induction ls as [|l' ls IH]; intros l fuel Hfuel;
    (destruct fuel as [|fuel]; [simpl in Hfuel; lia|]).
  - cbn [fmap list_fmap join_items scan_items].
    rewrite scan_value_dumps_str. cbn [mbind res_bind].
    rewrite skip_ws_newline_indent, skip_ws_keep by done.
    change (93 =? 93)%N with true. done.
  - rewrite (fmap_cons dumps_str l), (fmap_cons dumps_str l'), join_items_cons.
    rewrite <- (fmap_cons dumps_str l').
    cbn [scan_items]. rewrite <- !app_assoc, scan_value_dumps_str.
    cbn [mbind res_bind app].
    rewrite skip_ws_keep by done.
    change (44 =? 93)%N with false. change (44 =? 44)%N with true. cbv iota.
    rewrite skip_ws_newline_indent, skip_ws_join, IH by (simpl in Hfuel; lia).
    done.
Qed.

Lemma join_items_length (labels : list str) :
  length labels ≤ length (join_items (dumps_str <$> labels)).
Proof.
  induction labels as [|l ls IH]; [done|]. destruct ls as [|l' ls].
  - unfold dumps_str. simpl. lia.
  - rewrite (fmap_cons dumps_str l), (fmap_cons dumps_str l'), join_items_cons.
    rewrite <- (fmap_cons dumps_str l'), !length_app.
    simpl in IH |- *. lia.
Qed.

Lemma join_items_head (l : str) (ls : list str) (t : str) :
  ∃ r, join_items (dumps_str <$> l :: ls) ++ t = 34%N :: r.
Proof.
  destruct ls as [|l' ls].
  - cbn [fmap list_fmap join_items]. unfold dumps_str. cbn [app]. eauto.
  - rewrite (fmap_cons dumps_str l), (fmap_cons dumps_str l'), join_items_cons.
    unfold dumps_str at 1. rewrite <- !app_assoc. cbn [app]. eauto.
Qed.

Lemma scan_array_dumps_list (depth : nat) (labels : list str) (rest : str) :
  scan_value (S depth) (dumps_list labels ++ rest) = Ok (JArr (JStr <$> labels), rest).
Proof.
  unfold dumps_list. destruct labels as [|l ls]; [reflexivity|].
  rewrite <- !app_assoc. cbn [app scan_value].
  change ((91 =? 91) || (91 =? 123))%N with true.
  change (91 =? 91)%N with true. cbv iota. unfold scan_array.
  rewrite skip_ws_newline_indent, skip_ws_join.
  destruct (join_items_head l ls (newline_indent 1 ++ 93%N :: rest)) as [r Hr].
  rewrite Hr. change (34 =? 93)%N with false. cbv iota. rewrite <- Hr.
  rewrite scan_items_join; [done|].
  pose proof (join_items_length (l :: ls)) as Hlen.
  rewrite !length_app. simpl in Hlen |- *. lia.
Qed.

Lemma scan_value_object (depth : nat) (r : str) :
  scan_value (S depth) (123%N :: r) = scan_object (scan_value depth) r.
Proof. reflexivity. Qed.

Lemma scan_pairs_single (scan : str -> res (json * str)) (fuel : nat)
    (k s1 s2 rest : str) (v : json) :
  scan (skip_ws s1) = Ok (v, s2) →
  skip_ws s2 = 125%N :: rest →
  scan_pairs scan (S fuel) (dumps_str k ++ 58%N :: s1) = Ok ([(k, v)], rest).
Proof.
  intros Hv Hend. unfold dumps_str. rewrite <- !app_assoc. cbn [app scan_pairs].
  change (negb (34 =? 34)%N) with false. cbv iota.
  rewrite scan_string_escaped. cbn [decode mbind res_bind].
  rewrite skip_ws_keep by done. change (negb (58 =? 58)%N) with false. cbv iota.
  rewrite Hv. cbn [mbind res_bind]. rewrite Hend.
  change (125 =? 125)%N with true. done.
Qed.

(** [json.loads(json.dumps({'diseases': labels}, ensure_ascii=False,
    indent=2))] is the document with that one key and those labels. *)
Lemma loads_dumps_diseases `{PyEnv} (labels : list str) :
  2 ≤ recursion_limit →
  loads (dumps_diseases labels)
  = Ok (JObj [(key_diseases, JArr (JStr <$> labels))]).
Proof.
  intros Hlimit. destruct recursion_limit as [|[|depth]] eqn:El; [lia|lia|].
  unfold loads, dumps_diseases. cbn [app]. change (123 =? 65279)%N with false.
  cbv iota. rewrite El. rewrite skip_ws_keep by done.
  rewrite scan_value_object. unfold scan_object.
  rewrite skip_ws_newline_indent, skip_ws_dumps_str.
  destruct (dumps_str (Text.utf8 "diseases") ++ 58%N :: 32%N :: dumps_list labels
            ++ newline_indent 0 ++ [125%N]) as [|c r] eqn:Etext.
  { unfold dumps_str in Etext. discriminate Etext. }
  assert (Hc : (c =? 125)%N = false).
  { unfold dumps_str in Etext. cbn [app] in Etext. by injection Etext as <- _. }
  rewrite Hc, <- Etext.
  rewrite (scan_pairs_single _ _ _ _ (newline_indent 0 ++ [125%N]) []
             (JArr (JStr <$> labels))).
  - done.
  - assert (Hl : ∀ t, skip_ws (32%N :: dumps_list labels ++ t) = dumps_list labels ++ t).
    { intros t. unfold dumps_list. destruct labels; reflexivity. }
    rewrite Hl. apply scan_array_dumps_list.
  - reflexivity.
Qed.

End RoundTrip.

(** ** The parser after [QwenAPI.predict] *)

Section PipelineFacts.
Context `{PyEnv}.

Lemma strip_nil : Text.strip [] = [].
Proof. reflexivity. Qed.

Lemma nonempty_strip (l : str) : nonempty (Text.strip l) = true → nonempty l = true.
Proof. destruct l; [|done]. by rewrite strip_nil. Qed.

Lemma diseases_of_strings (labels : list str) :
  diseases_of_value (JArr (JStr <$> labels)) = kept_labels labels.
Proof.
  unfold kept_labels. cbn [diseases_of_value].
  induction labels as [|l labels IH]; [done|].
  rewrite fmap_cons. cbn [omap list_omap str_of Json.truthy].
  fold (nonempty l). rewrite IH.
  destruct (nonempty (Text.strip l)) eqn:E.
  - by rewrite (nonempty_strip l E).
  - by rewrite andb_false_r.
Qed.

Lemma kept_labels_clean (labels : list str) : Forall clean_label (kept_labels labels).
Proof.
  unfold kept_labels. induction labels as [|l labels IH]; [constructor|].
  cbn [omap list_omap]. destruct (nonempty (Text.strip l)) eqn:E; [|done].
  constructor; [|done]. split; [by destruct (Text.strip l)|apply TextFacts.strip_stripped].
Qed.

Lemma kept_labels_id (labels : list str) :
  Forall clean_label labels → kept_labels labels = labels.
Proof.
  unfold kept_labels. induction 1 as [|l labels [Hne Hs] _ IH]; [done|].
  cbn [omap list_omap]. rewrite (TextFacts.strip_id l Hs), IH.
  by destruct l.
Qed.

Lemma dumps_diseases_stripped (labels : list str) :
  stripped (Dumps.dumps_diseases labels).
Proof.
  unfold Dumps.dumps_diseases. split; [done|]. unfold no_trail.
  rewrite !app_assoc, rev_app_distr. done.
Qed.

Lemma strip_fence_dumps (labels : list str) :
  strip_fence (Dumps.dumps_diseases labels) = Dumps.dumps_diseases labels.
Proof.
  unfold strip_fence.
  rewrite (TextFacts.strip_id _ (dumps_diseases_stripped labels)). done.
Qed.

Lemma extract_dumps_round_trip_aux (labels : list str) :
  2 ≤ recursion_limit →
  Json.loads (Dumps.dumps_diseases labels)
  = Json.Ok (JObj [(key_diseases, JArr (JStr <$> labels))])
  ∧ extract_diseases_from_response (Dumps.dumps_diseases labels) = kept_labels labels.
Proof.
  intros Hlimit. split; [by apply RoundTrip.loads_dumps_diseases|].
  unfold extract_diseases_from_response.
  rewrite strip_fence_dumps, RoundTrip.loads_dumps_diseases by done.
  cbn [diseases_of_document].
  change (Json.obj_has key_error [(key_diseases, JArr (JStr <$> labels))])
    with false.
  change (Json.obj_get key_diseases [(key_diseases, JArr (JStr <$> labels))])
    with (Some (JArr (JStr <$> labels))).
  cbv iota. apply diseases_of_strings.
Qed.

(** X1: a list of labels encoded as [json.dumps({'diseases': labels},
    ensure_ascii=False, indent=2)] is decoded by
    [extract_diseases_from_response] to the labels that are not blank,
    trimmed; a list of clean labels comes back unchanged. *)
Theorem extract_dumps_round_trip (labels : list str) :
  2 ≤ recursion_limit →
  extract_diseases_from_response (Dumps.dumps_diseases labels) = kept_labels labels
  ∧ (Forall clean_label labels →
     extract_diseases_from_response (Dumps.dumps_diseases labels) = labels).
Proof.
  intros Hlimit. destruct (extract_dumps_round_trip_aux labels Hlimit) as [_ E].
  split; [done|]. intros Hc. by rewrite E, kept_labels_id.
Qed.

(** What [QwenAPI.predict] returns is always an encoded list of labels. *)
Lemma qwen_clean_shape (content : str) :
  ∃ labels, qwen_clean content = Dumps.dumps_diseases labels.
Proof.
  assert (Hs : ∀ result, ∃ labels,
             qwen_standardise result = Dumps.dumps_diseases labels).
  { intros result. unfold qwen_standardise.
    destruct result; eauto. destruct (Json.obj_get key_diseases pairs); eauto. }
  unfold qwen_clean. destruct (Json.loads content) as [result|[| |]]; eauto.
  destruct (Regex.first_match content) as [m|]; eauto.
  destruct (Json.loads m); eauto.
Qed.

(** X2: whatever the predictor service replies, the text that
    [QwenAPI.predict] hands on is parsed by
    [extract_diseases_from_response] without a failure, and every label
    that comes out is non-empty and has no surrounding white space. *)
Theorem qwen_then_extract_clean (content : str) :
  2 ≤ recursion_limit →
  (∃ labels, qwen_clean content = Dumps.dumps_diseases labels
             ∧ Json.loads (strip_fence (qwen_clean content))
               = Json.Ok (JObj [(key_diseases, JArr (JStr <$> labels))])
             ∧ extract_diseases_from_response (qwen_clean content)
               = kept_labels labels)
  ∧ Forall clean_label (extract_diseases_from_response (qwen_clean content)).
Proof.
  intros Hlimit. destruct (qwen_clean_shape content) as [labels E].
  destruct (extract_dumps_round_trip_aux labels Hlimit) as [Hl He].
  rewrite E. split.
  - exists labels. rewrite strip_fence_dumps. done.
  - rewrite He. apply kept_labels_clean.
Qed.

End PipelineFacts.

(** ** Quotients of lengths, compared *)

Lemma Qdiv_nat_le (a b c d : nat) :
  b ≠ 0 → d ≠ 0 → a * d ≤ c * b →
  (inject_Z (Z.of_nat a) / inject_Z (Z.of_nat b)
   <= inject_Z (Z.of_nat c) / inject_Z (Z.of_nat d))%Q.
Proof.
  intros Hb Hd Hle.
  apply Qle_shift_div_l; [by apply inject_nat_pos|].
  unfold Qdiv. rewrite <- Qmult_assoc, (Qmult_comm (/ _)), Qmult_assoc.
  apply Qle_shift_div_r; [by apply inject_nat_pos|].
  rewrite <- !inject_Z_mult, <- Zle_Qle. lia.
Qed.

(** ** [process_input_data] *)

Section ProcessFacts.
Context `{PyEnv}.

Lemma stripped_strs_strings (labels : list str) :
  stripped_strs (JStr <$> labels) = Text.strip <$> labels.
Proof.
  unfold stripped_strs. induction labels as [|l labels IH]; [done|].
  rewrite !fmap_cons. cbn [omap list_omap str_of]. by rewrite IH.
Qed.

Lemma stripped_strs_trimmed (items : list json) :
  Forall stripped (stripped_strs items).
Proof.
  unfold stripped_strs. induction items as [|d items IH]; [constructor|].
  cbn [omap list_omap].
  destruct d; try done; constructor; try done; apply TextFacts.strip_stripped.
Qed.

Lemma process_input_data_trimmed (data : json) :
  Forall stripped (process_input_data data).
Proof.
  destruct data as [| | | | |items|pairs]; try constructor.
  - apply stripped_strs_trimmed.
  - cbn [process_input_data].
    destruct (Json.obj_get key_diseases pairs) as [d|]; [|constructor].
    destruct d; try constructor; try apply TextFacts.strip_stripped; try constructor.
    apply stripped_strs_trimmed.
Qed.

Lemma strip_fmap_id (labels : list str) :
  Forall stripped labels → Text.strip <$> labels = labels.
Proof.
  induction 1 as [|l labels Hl _ IH]; [done|].
  by rewrite fmap_cons, (TextFacts.strip_id l Hl), IH.
Qed.

Lemma process_strings_id (labels : list str) :
  Forall stripped labels → process_input_data (JArr (JStr <$> labels)) = labels.
Proof.
  intros Hl. cbn [process_input_data].
  by rewrite stripped_strs_strings, strip_fmap_id.
Qed.

(** X3: every string that [process_input_data] returns is trimmed, the
    function applied to its own result returns that result, and anything
    that is neither a list nor a dict (a number, a string, [None]) gives
    the empty list, as does a dict without the key [diseases] or with
    [None] under it. *)
Theorem process_input_data_stable (data : json) :
  Forall stripped (process_input_data data)
  ∧ process_input_data (JArr (JStr <$> process_input_data data))
    = process_input_data data
  ∧ (match data with JArr _ | JObj _ => False | _ => True end →
     process_input_data data = [])
  ∧ (∀ pairs, data = JObj pairs →
       Json.obj_get key_diseases pairs = None
       ∨ Json.obj_get key_diseases pairs = Some JNull →
       process_input_data data = []).
Proof.
  split; [apply process_input_data_trimmed|].
  split; [apply process_strings_id, process_input_data_trimmed|].
  split.
  - by destruct data.
  - intros pairs -> [E|E]; cbn [process_input_data]; by rewrite E.
Qed.

End ProcessFacts.

(** ** More on the two scorers *)

Lemma union_size_eq_inter (X Y : gset str) : size (X ∩ Y) = size (X ∪ Y) ↔ X = Y.
Proof.
  split.
  - intros E. assert (X ∩ Y = X ∪ Y) as E'.
    { apply set_subseteq_size_eq; [set_solver|lia]. }
    apply set_eq. intros x. split; intros Hx.
    + assert (x ∈ X ∩ Y) by (rewrite E'; set_solver). set_solver.
    + assert (x ∈ X ∩ Y) by (rewrite E'; set_solver). set_solver.
  - intros ->. f_equal. set_solver.
Qed.

Lemma elements_nil_iff (X : gset str) : elements X = [] ↔ X = ∅.
Proof. rewrite elements_empty_iff. split; [apply leibniz_equiv|by intros ->]. Qed.

Lemma union_size_bounds (X Y : gset str) :
  size X ≤ size (X ∪ Y) ∧ size Y ≤ size (X ∪ Y).
Proof. split; apply subseteq_size; set_solver. Qed.

Section ScorerMore.
Context `{PyEnv}.

Lemma label_set_nonempty_iff (labels : list str) :
  label_set labels ≠ ∅ ↔ has_label labels.
Proof.
  split.
  - intros Hne. apply set_choose_L in Hne as [x Hx]. unfold label_set in Hx.
    apply elem_of_list_to_set, list_elem_of_fmap in Hx as (d & _ & Hd).
    apply list_elem_of_filter in Hd as [Hd Hin]. by exists d.
  - intros Hl E. by apply label_set_empty_iff in E.
Qed.

(** X4: when [calculate_overlap] returns a record, its score is [1]
    exactly when the two normalised label sets are equal, which is
    exactly when both difference lists are empty; the score is positive
    exactly when some label is shared; and the three lists have no
    repeated and no common label. *)
Theorem overlap_record_exact (A B : list str) (score : Q)
    (overlap_diseases missed_diseases extra_diseases : list str) :
  calculate_overlap A B
  = Some (OverlapRecord score overlap_diseases missed_diseases extra_diseases) →
  ((score == 1)%Q ↔ label_set A = label_set B)
  ∧ ((score == 1)%Q ↔ missed_diseases = [] ∧ extra_diseases = [])
  ∧ ((0 < score)%Q ↔ overlap_diseases ≠ [])
  ∧ NoDup (overlap_diseases ++ missed_diseases ++ extra_diseases)
  ∧ (∀ x, x ∈ overlap_diseases ++ missed_diseases ++ extra_diseases
          ↔ x ∈ label_set A ∪ label_set B).
Proof.
  intros Hr.
  destruct (calculate_overlap_shape A B) as [Hdeg Hrec].
  destruct (decide (A = [] ∨ B = [] ∨ label_set A = ∅ ∨ label_set B = ∅)) as [Hd|Hd].
  { destruct (Hdeg Hd) as [E _]. congruence. }
  destruct (Hrec Hd) as (score' & E & _). rewrite E in Hr.
  injection Hr as <- <- <- <-. clear Hdeg Hrec.
  unfold calculate_overlap in E. rewrite !decide_False in E by tauto.
  set (P := label_set A) in *. set (T := label_set B) in *.
  assert (Hu : size (P ∪ T) ≠ 0).
  { pose proof (union_size_bounds P T) as [Hp _].
    assert (size P ≠ 0) by (apply size_pos_of_nonempty; tauto). lia. }
  rewrite py_div_some in E by done. simpl in E. injection E as <-.
  assert (H1 : (inject_Z (Z.of_nat (size (P ∩ T))) / inject_Z (Z.of_nat (size (P ∪ T))) == 1)%Q
               ↔ P = T).
  { rewrite Qdiv_nat_eq1 by done. apply union_size_eq_inter. }
  split; [done|]. split; [|split; [|split]].
  - rewrite H1, !elements_nil_iff. split.
    + intros ->. split; set_solver.
    + intros [Hm He]. apply set_eq. intros x. split; intros Hx.
      * destruct (decide (x ∈ T)); [done|]. assert (x ∈ P ∖ T) by set_solver.
        rewrite He in *. set_solver.
      * destruct (decide (x ∈ P)); [done|]. assert (x ∈ T ∖ P) by set_solver.
        rewrite Hm in *. set_solver.
  - rewrite elements_nil_iff. split.
    + intros Hpos Hinter. rewrite Hinter, size_empty in Hpos.
      assert (E0 : (inject_Z (Z.of_nat 0) / inject_Z (Z.of_nat (size (P ∪ T))) == 0)%Q)
        by (by apply Qdiv_nat_eq0).
      rewrite E0 in Hpos. by apply Qlt_irrefl in Hpos.
    + intros Hne. apply Qlt_shift_div_l; [by apply inject_nat_pos|].
      rewrite Qmult_0_l. apply inject_nat_pos. by apply size_pos_of_nonempty.
  - rewrite <- !elements_disj_union by set_solver. apply NoDup_elements.
  - intros x. rewrite !elem_of_app, !elem_of_elements. split; [set_solver|].
    intros Hx. destruct (decide (x ∈ P)), (decide (x ∈ T)); set_solver.
Qed.

Lemma analyze_differences_bounds (predicted ground_truth : list str) :
  ∃ r, analyze_differences predicted ground_truth = Some r
       ∧ (0 <= accuracy r <= 1)%Q ∧ (0 <= precision r <= 1)%Q.
Proof.
  destruct (analyze_differences_some predicted ground_truth)
    as (r & Hr & Ha & Hp & _).
  exists r. split; [done|]. rewrite Ha, Hp. split.
  - destruct (decide (label_set ground_truth = ∅)); [done|].
    apply Qdiv_nat_bounds; [|lia].
    pose proof (inter_size_le_r (label_set predicted) (label_set ground_truth)). lia.
  - destruct (decide (label_set predicted = ∅)); [done|].
    apply Qdiv_nat_bounds; [|lia].
    pose proof (inter_size_le_l (label_set predicted) (label_set ground_truth)). lia.
Qed.

(** X5: the overlap score of [main.calculate_overlap] never exceeds the
    accuracy nor the precision that [analyze_differences] reports for the
    same prediction and ground truth, and all three lie in [0,1]. *)
Theorem overlap_below_accuracy_and_precision (predicted ground_truth : list str) :
  ∃ s r,
    overlap_score predicted ground_truth = Some s
    ∧ analyze_differences predicted ground_truth = Some r
    ∧ (s <= accuracy r)%Q ∧ (s <= precision r)%Q
    ∧ (0 <= accuracy r <= 1)%Q ∧ (0 <= precision r <= 1)%Q.
Proof.
  destruct (analyze_differences_some predicted ground_truth)
    as (r & Hr & Ha & Hp & _).
  set (P := label_set predicted) in *. set (T := label_set ground_truth) in *.
  assert (Hacc : (0 <= accuracy r <= 1)%Q).
  { rewrite Ha. destruct (decide (T = ∅)); [done|].
    apply Qdiv_nat_bounds; [|lia]. pose proof (inter_size_le_r P T). lia. }
  assert (Hprec : (0 <= precision r <= 1)%Q).
  { rewrite Hp. destruct (decide (P = ∅)); [done|].
    apply Qdiv_nat_bounds; [|lia]. pose proof (inter_size_le_l P T). lia. }
  destruct (calculate_overlap_shape predicted ground_truth) as [Hdeg Hrec].
  destruct (decide (predicted = [] ∨ ground_truth = [] ∨ P = ∅ ∨ T = ∅)) as [Hd|Hd].
  { destruct (Hdeg Hd) as [E _]. exists 0%Q, r. unfold overlap_score. rewrite E.
    repeat split; try done; tauto. }
  clear Hdeg Hrec. unfold overlap_score, calculate_overlap.
  rewrite !decide_False by tauto. fold P T.
  pose proof (union_size_bounds P T) as [HuP HuT].
  assert (HP : size P ≠ 0) by (apply size_pos_of_nonempty; tauto).
  assert (HT : size T ≠ 0) by (apply size_pos_of_nonempty; tauto).
  rewrite py_div_some by lia. simpl. eexists _, r. split; [done|].
  split; [done|]. rewrite Ha, Hp, !decide_False by tauto.
  repeat split; try tauto.
  - apply Qdiv_nat_le; [lia|lia|]. apply Nat.mul_le_mono_l. lia.
  - apply Qdiv_nat_le; [lia|lia|]. apply Nat.mul_le_mono_l. lia.
  - rewrite Ha, decide_False in Hacc by tauto. tauto.
  - rewrite Ha, decide_False in Hacc by tauto. tauto.
  - rewrite Hp, decide_False in Hprec by tauto. tauto.
  - rewrite Hp, decide_False in Hprec by tauto. tauto.
Qed.

(** X6: the three lists of a difference report have no repeated and no
    common label; the correct and the missed labels together are the
    normalised ground truth, the correct and the wrong ones the
    normalised prediction; accuracy is [1] exactly when nothing is missed
    and the ground truth has a label, precision is [1] exactly when
    nothing is wrong and the prediction has a label. *)
Theorem difference_report_partition (predicted ground_truth : list str) :
  ∃ r,
    analyze_differences predicted ground_truth = Some r
    ∧ NoDup (correct_diagnoses r ++ missed_diagnoses r ++ wrong_diagnoses r)
    ∧ (∀ x, x ∈ correct_diagnoses r ++ missed_diagnoses r ↔ x ∈ label_set ground_truth)
    ∧ (∀ x, x ∈ correct_diagnoses r ++ wrong_diagnoses r ↔ x ∈ label_set predicted)
    ∧ length (correct_diagnoses r) + length (missed_diagnoses r)
      = size (label_set ground_truth)
    ∧ ((accuracy r == 1)%Q ↔ missed_diagnoses r = [] ∧ has_label ground_truth)
    ∧ ((precision r == 1)%Q ↔ wrong_diagnoses r = [] ∧ has_label predicted).
Proof.
  destruct (analyze_differences_some predicted ground_truth)
    as (r & Hr & Ha & Hp & Hc & Hm & Hw).
  exists r. split; [done|]. rewrite Ha, Hp, Hc, Hm, Hw. clear Hr Ha Hp Hc Hm Hw.
  set (P := label_set predicted). set (T := label_set ground_truth).
  split; [|split; [|split; [|split; [|split]]]].
  - rewrite <- !elements_disj_union by set_solver. apply NoDup_elements.
  - intros x. rewrite elem_of_app, !elem_of_elements.
    destruct (decide (x ∈ P)); set_solver.
  - intros x. rewrite elem_of_app, !elem_of_elements.
    destruct (decide (x ∈ T)); set_solver.
  - rewrite <- length_app, <- elements_disj_union by set_solver.
    change (length (elements ?X)) with (size X). f_equal.
    apply set_eq. intros x. destruct (decide (x ∈ P)); set_solver.
  - rewrite guarded_ratio_one by apply inter_size_le_r.
    rewrite inter_size_full_r, elements_nil_iff.
    rewrite <- label_set_nonempty_iff. fold T. split.
    + intros [HT Hsub]. split; [set_solver|done].
    + intros [Hemp HT]. split; [done|]. intros x Hx.
      destruct (decide (x ∈ P)); [done|]. assert (x ∈ T ∖ P) by set_solver.
      rewrite Hemp in *. set_solver.
  - rewrite guarded_ratio_one by apply inter_size_le_l.
    rewrite inter_size_full_l, elements_nil_iff.
    rewrite <- label_set_nonempty_iff. fold P. split.
    + intros [HP Hsub]. split; [set_solver|done].
    + intros [Hemp HP]. split; [done|]. intros x Hx.
      destruct (decide (x ∈ T)); [done|]. assert (x ∈ P ∖ T) by set_solver.
      rewrite Hemp in *. set_solver.
Qed.

End ScorerMore.

(** ** The per-case loop of [generate_prompt] and the history *)

Section HistoryFacts.
Context `{PyEnv} {World : Type} `{Services World}.

Lemma analyze_results_complete (optimized_prompt : str) (input gt : json)
    (w : World) (r : case_result) :
  (analyze_results optimized_prompt input gt w).1 = Some r →
  cr_case_id r = None
  ∧ is_Some (cr_predictions r) ∧ is_Some (cr_ground_truth r)
  ∧ is_Some (cr_analysis_report r)
  ∧ ∃ d, cr_differences r = Some d
         ∧ (0 <= accuracy d <= 1)%Q ∧ (0 <= precision d <= 1)%Q.
Proof.
  unfold analyze_results.
  destruct (predict_diseases optimized_prompt input w) as [predicted w1].
  destruct (gt_diseases_of gt) as [gt_diseases|]; [|done].
  destruct (truth_labels gt_diseases) as [labels|]; [|done]. cbn [mbind option_bind].
  destruct (analyze_differences_bounds predicted labels) as (d & Hd & Ha & Hp).
  rewrite Hd.
  destruct (analyzer_analyze_results _ w1) as [[report|] w2]; [|done].
  cbn [fst]. intros [= <-]. cbn. eauto 10.
Qed.

Lemma analyze_cases_facts (optimized_prompt : str) (cases : list case_dict)
    (w : World) :
  let '(results, total_missed, total_wrong, _) :=
    analyze_cases optimized_prompt cases w in
  length results ≤ length cases
  ∧ sublist (cr_case_id <$> results) (cd_case_id <$> cases)
  ∧ Forall complete_result results
  ∧ (∀ x, x ∈ total_missed
          ↔ ∃ r d, r ∈ results ∧ cr_differences r = Some d
                   ∧ x ∈ missed_diagnoses d)
  ∧ (∀ x, x ∈ total_wrong
          ↔ ∃ r d, r ∈ results ∧ cr_differences r = Some d
                   ∧ x ∈ wrong_diagnoses d).
Proof.
  revert w. induction cases as [|case cases IH]; intros w.
  { cbn. split; [done|]. split; [constructor|]. split; [constructor|].
    split; intros x; (split; [by intros ?%not_elem_of_empty|]);
      by intros (r & d & Hr%not_elem_of_nil & _). }
  cbn [analyze_cases].
  destruct (cd_case_id case) as [cid|] eqn:Ecid.
  2:{ specialize (IH w). destruct (analyze_cases optimized_prompt cases w)
        as [[[results missed] wrong] w'].
      destruct IH as (Hlen & Hsub & Hall & Hm & Hw).
      split; [simpl; lia|]. split; [rewrite fmap_cons; by constructor|]. done. }
  destruct (cd_input_data case) as [input|].
  2:{ specialize (IH w). destruct (analyze_cases optimized_prompt cases w)
        as [[[results missed] wrong] w'].
      destruct IH as (Hlen & Hsub & Hall & Hm & Hw).
      split; [simpl; lia|]. split; [rewrite fmap_cons; by constructor|]. done. }
  destruct (cd_gt_data case) as [gt|].
  2:{ specialize (IH w). destruct (analyze_cases optimized_prompt cases w)
        as [[[results missed] wrong] w'].
      destruct IH as (Hlen & Hsub & Hall & Hm & Hw).
      split; [simpl; lia|]. split; [rewrite fmap_cons; by constructor|]. done. }
  pose proof (analyze_results_complete optimized_prompt input gt w) as Hc.
  destruct (analyze_results optimized_prompt input gt w) as [case_analysis w1].
  specialize (IH w1).
  destruct (analyze_cases optimized_prompt cases w1) as [[[results missed] wrong] w2].
  destruct IH as (Hlen & Hsub & Hall & Hm & Hw).
  destruct case_analysis as [r|].
  2:{ split; [simpl; lia|]. split; [rewrite fmap_cons; by constructor|]. done. }
  destruct (Hc r eq_refl) as (_ & Hp & Hg & Hr & d & Hd & Ha & Hpr).
  rewrite Hd. cbn [fmap option_fmap option_map default].
  split; [simpl; lia|]. split; [rewrite !fmap_cons, Ecid; by constructor|].
  split.
  { constructor; [|done]. repeat split; try done; cbn; eauto. }
  split.
  - intros x. rewrite elem_of_union, elem_of_list_to_set, Hm. split.
    + intros [Hx|(r' & d' & Hr' & Hd' & Hx)].
      * eexists _, d. split; [by left|]. done.
      * exists r', d'. split; [by right|]. done.
    + intros (r' & d' & Hr' & Hd' & Hx). apply elem_of_cons in Hr' as [->|Hr'].
      * cbn in Hd'. left. by simplify_eq.
      * right. eauto.
  - intros x. rewrite elem_of_union, elem_of_list_to_set, Hw. split.
    + intros [Hx|(r' & d' & Hr' & Hd' & Hx)].
      * eexists _, d. split; [by left|]. done.
      * exists r', d'. split; [by right|]. done.
    + intros (r' & d' & Hr' & Hd' & Hx). apply elem_of_cons in Hr' as [->|Hr'].
      * cbn in Hd'. left. by simplify_eq.
      * right. eauto.
Qed.

(** X7: the per-case loop of [generate_prompt] returns at most one
    result per case, in the order of the cases and under their ids, each
    with all its keys; and the two sets of the summary are the unions,
    over the analysed cases, of their missed and of their wrong labels. *)
Theorem analyze_cases_summary (optimized_prompt : str) (cases : list case_dict)
    (w : World) :
  let '(results, total_missed, total_wrong, _) :=
    analyze_cases optimized_prompt cases w in
  length results ≤ length cases
  ∧ sublist (cr_case_id <$> results) (cd_case_id <$> cases)
  ∧ Forall complete_result results
  ∧ (∀ x, x ∈ total_missed
          ↔ ∃ r d, r ∈ results ∧ cr_differences r = Some d
                   ∧ x ∈ missed_diagnoses d)
  ∧ (∀ x, x ∈ total_wrong
          ↔ ∃ r d, r ∈ results ∧ cr_differences r = Some d
                   ∧ x ∈ wrong_diagnoses d).
Proof. apply analyze_cases_facts. Qed.

End HistoryFacts.

(** ** The history that [generate_prompt] builds *)

Section HistoryInvariant.
Context `{PyEnv} {World : Type} `{Services World}.

Lemma valid_optimized_marker (reply : option json) (p : str) :
  valid_optimized reply = Some p →
  reply = Some (JStr p) ∧ p ≠ [] ∧ Text.contains marker_rules p = true.
Proof.
  unfold valid_optimized. destruct reply as [[]|]; try done.
  destruct (nonempty s) eqn:En; [|done].
  destruct (Text.contains marker_rules s) eqn:Ec; [|done].
  cbn. intros [= ->]. split; [done|]. split; [|done].
  by destruct p.
Qed.

Lemma generate_prompt_history (self : PromptOptimizer) (context : gen_context)
    (w : World) :
  let '(_, self', _) := generate_prompt self context w in
  optimization_history self' = optimization_history self
  ∨ ∃ record, optimization_history self' = optimization_history self ++ [record]
              ∧ well_formed_record record.
Proof.
  unfold generate_prompt.
  destruct (context_is_empty context); [by left|].
  destruct (default [] (ctx_all_cases context)) as [|case0 cases]; [by left|].
  destruct (build_request _ _) as [request|]; [|by left].
  destruct (optimizer_generate_prompt request w) as [reply w1].
  destruct (valid_optimized reply) as [p|] eqn:Ev; [|by left].
  apply valid_optimized_marker in Ev as (_ & _ & Hm).
  pose proof (analyze_cases_facts p (case0 :: cases) w1) as Ha.
  destruct (analyze_cases p (case0 :: cases) w1) as [[[results missed] wrong] w2].
  destruct Ha as (_ & _ & Hall & _).
  destruct results as [|r results]; [by left|].
  right. eexists. split; [reflexivity|].
  split; [|split]; cbn; eauto.
Qed.

End HistoryInvariant.

Lemma inject_nat_succ (n : nat) :
  (inject_Z (Z.of_nat (S n)) == inject_Z (Z.of_nat n) + 1)%Q.
Proof. rewrite Nat2Z.inj_succ. unfold Z.succ. by rewrite inject_Z_plus. Qed.

Lemma fold_Qplus_bounds (l : list Q) :
  Forall (fun x => 0 <= x <= 1)%Q l →
  ∀ a : Q, (a <= fold_left Qplus l a
            ∧ fold_left Qplus l a <= a + inject_Z (Z.of_nat (length l)))%Q.
Proof.
  induction 1 as [|x l Hx _ IH]; intros a.
  - cbn [fold_left length]. change (inject_Z (Z.of_nat 0)) with 0%Q. lra.
  - cbn [fold_left length]. destruct (IH (a + x)%Q) as [IH1 IH2].
    pose proof (inject_nat_succ (length l)). lra.
Qed.

Lemma iteration_accuracy_bounds (results : list case_result) :
  Forall complete_result results →
  (0 <= iteration_accuracy results <= 1)%Q.
Proof.
  intros Hall. unfold iteration_accuracy.
  set (scored := omap (λ r, accuracy <$> cr_differences r) results).
  assert (Forall (fun x => 0 <= x <= 1)%Q scored) as Hs.
  { subst scored. induction Hall as [|r results Hr _ IH]; [constructor|].
    cbn. destruct Hr as (_ & _ & _ & _ & d & -> & Ha & _). cbn.
    by constructor. }
  clearbody scored. destruct (decide (scored = [])) as [->|Hne]; [lra|].
  assert (length scored ≠ 0) as Hl by (by destruct scored).
  replace (match scored with
           | [] => 0%Q
           | _ :: _ => (Qsum scored / inject_Z (Z.of_nat (length scored)))%Q
           end) with (Qsum scored / inject_Z (Z.of_nat (length scored)))%Q
    by (by destruct scored).
  destruct (fold_Qplus_bounds _ Hs 0%Q) as [H1 H2].
  pose proof (inject_nat_pos _ Hl) as Hpos. unfold Qsum. split.
  - apply Qle_shift_div_l; [done|]. lra.
  - apply Qle_shift_div_r; [done|]. lra.
Qed.

Lemma trend_of_well_formed (history : list iteration_data) :
  Forall well_formed_record history →
  ∃ trend, trend_of history = Some trend
           ∧ length trend = length history
           ∧ Forall (fun a => 0 <= a <= 1)%Q trend.
Proof.
  unfold trend_of. induction 1 as [|it history Hit _ (trend & Ht & Hl & Hb)].
  - exists []. by repeat split.
  - destruct Hit as ((results & Hr & _ & Hall) & _).
    exists (iteration_accuracy results :: trend).
    cbn. rewrite Hr. cbn. rewrite Ht. cbn. split; [done|]. split; [by rewrite Hl|].
    constructor; [by apply iteration_accuracy_bounds|done].
Qed.

Lemma trend_of_length (history : list iteration_data) (trend : list Q) :
  trend_of history = Some trend → length trend = length history.
Proof. unfold trend_of. intros Hm. symmetry. by eapply length_mapM. Qed.

Lemma best_of_spec (trend : list Q) :
  ∀ (i : nat) (best : Q) (best_i : nat),
    let '(b, bi) := best_of i trend best best_i in
    (best <= b)%Q
    ∧ Forall (fun a => a <= b)%Q trend
    ∧ ((bi = best_i ∧ b = best)
       ∨ ∃ k, bi = i + k ∧ trend !! k = Some b ∧ (best < b)%Q
              ∧ ∀ j a, j < k → trend !! j = Some a → (a < b)%Q).
Proof.
  induction trend as [|a rest IH]; intros i best best_i.
  { cbn. split; [lra|]. split; [constructor|]. by left. }
  cbn [best_of]. destruct (Qgtb a best) eqn:Eg.
  - apply Qgtb_lt in Eg. specialize (IH (S i) a i).
    destruct (best_of (S i) rest a i) as [b bi].
    destruct IH as (Hab & Hall & [[-> ->]|(k & -> & Hk & Hlt & Hbefore)]).
    + split; [lra|]. split; [constructor; [lra|done]|].
      right. exists 0. split; [lia|]. split; [done|]. split; [done|].
      intros j a' Hj. lia.
    + split; [lra|]. split; [constructor; [lra|done]|].
      right. exists (S k). split; [lia|]. split; [done|]. split; [lra|].
      intros [|j] a' Hj Hl.
      * cbn in Hl. injection Hl as <-. done.
      * cbn in Hl. apply (Hbefore j); [lia|done].
  - assert (a <= best)%Q as Hle.
    { unfold Qgtb in Eg. apply negb_false_iff in Eg. by apply Qle_bool_iff. }
    specialize (IH (S i) best best_i).
    destruct (best_of (S i) rest best best_i) as [b bi].
    destruct IH as (Hab & Hall & [[-> ->]|(k & -> & Hk & Hlt & Hbefore)]).
    + split; [lra|]. split; [constructor; [lra|done]|]. by left.
    + split; [lra|]. split; [constructor; [lra|done]|].
      right. exists (S k). split; [lia|]. split; [done|]. split; [lra|].
      intros [|j] a' Hj Hl.
      * cbn in Hl. injection Hl as <-. lra.
      * cbn in Hl. apply (Hbefore j); [lia|done].
Qed.

Lemma complete_result_analysis (r : case_result) :
  complete_result r → is_Some (case_analysis_of r).
Proof.
  intros ([cid Hc] & [p Hp] & [g Hg] & [a Ha] & d & Hd & _).
  unfold case_analysis_of. rewrite Hc, Hp, Hg, Hd, Ha. cbn. eauto.
Qed.

Lemma build_request_well_formed (self : PromptOptimizer) (base_prompt : str) :
  Forall well_formed_record (optimization_history self) →
  optimization_history self ≠ [] →
  is_Some (build_request self base_prompt).
Proof.
  intros Hall Hne. unfold build_request.
  destruct (current_iteration self =? 1)%Z; [eauto|].
  destruct (last (optimization_history self)) as [li|] eqn:El.
  2:{ by apply last_None in El. }
  assert (well_formed_record li) as Hli.
  { rewrite Forall_forall in Hall. apply Hall.
    rewrite last_lookup in El. by eapply list_elem_of_lookup_2. }
  destruct Hli as ((results & Hr & Hne' & Hc) & (p & Hp & _) & [sm Hs]).
  cbn. rewrite Hr. cbn. rewrite Hp. cbn. rewrite Hs. cbn.
  destruct results as [|r results]; [done|].
  apply Forall_cons in Hc as [Hr0 _].
  destruct (complete_result_analysis r Hr0) as [ca Hca].
  cbn. rewrite Hca. eauto.
Qed.

Lemma progress_well_formed (self : PromptOptimizer) :
  Forall well_formed_record (optimization_history self) →
  ∃ p, evaluate_optimization_progress self = Some p
       ∧ Forall (fun a => 0 <= a <= 1)%Q (accuracy_trend p)
       ∧ (0 <= best_accuracy p <= 1)%Q.
Proof.
  intros Hall. unfold evaluate_optimization_progress.
  destruct (optimization_history self) as [|it history] eqn:Eh.
  { eexists. split; [done|]. cbn. split; [constructor|lra]. }
  destruct (trend_of_well_formed _ Hall) as (trend & -> & _ & Hb).
  cbn [mbind option_bind].
  pose proof (best_of_spec trend 1 0%Q 0) as Hs.
  destruct (best_of 1 trend 0%Q 0) as [b bi].
  eexists. split; [done|]. cbn. split; [done|].
  destruct Hs as (H0 & _ & [[_ ->]|(k & _ & Hk & _)]); [lra|].
  rewrite Forall_forall in Hb. apply Hb. by eapply list_elem_of_lookup_2.
Qed.

Section HistoryInvariant2.
Context `{PyEnv} {World : Type} `{Services World}.

Lemma generate_prompt_well_formed (self : PromptOptimizer) (context : gen_context)
    (w : World) :
  Forall well_formed_record (optimization_history self) →
  Forall well_formed_record
    (optimization_history (generate_prompt self context w).1.2).
Proof.
  intros Hall. pose proof (generate_prompt_history self context w) as Hg.
  destruct (generate_prompt self context w) as [[prompt self'] w'].
  cbn [fst snd]. destruct Hg as [->|(record & -> & Hr)]; [done|].
  apply Forall_app. split; [done|]. by constructor.
Qed.

(** X8: [generate_prompt] only ever appends records that have their
    results (at least one, each with all its keys and with accuracy and
    precision between 0 and 1), a new prompt with the rules marker and a
    summary.  So on a history built by [generate_prompt] alone
    [evaluate_optimization_progress] never raises and reports a trend and a
    best accuracy between 0 and 1, and once a record exists the next
    request for the optimizer can always be built: the branches for an
    incomplete history are never taken. *)
Theorem history_stays_well_formed (self : PromptOptimizer)
    (context : gen_context) (w : World) :
  Forall well_formed_record (optimization_history self) →
  let '(_, self', _) := generate_prompt self context w in
  Forall well_formed_record (optimization_history self')
  ∧ (∃ p, evaluate_optimization_progress self' = Some p
          ∧ Forall (fun a => 0 <= a <= 1)%Q (accuracy_trend p)
          ∧ (0 <= best_accuracy p <= 1)%Q)
  ∧ (optimization_history self' ≠ [] →
     ∀ base_prompt, is_Some (build_request self' base_prompt)).
Proof.
  intros Hall. pose proof (generate_prompt_well_formed self context w Hall) as Hw.
  destruct (generate_prompt self context w) as [[prompt self'] w']. cbn in Hw.
  split; [done|]. split; [by apply progress_well_formed|].
  intros Hne base_prompt. by apply build_request_well_formed.
Qed.

End HistoryInvariant2.


Lemma progress_stagnating (self : PromptOptimizer) (p : progress) :
  evaluate_optimization_progress self = Some p →
  status p = Stagnating →
  3 ≤ length (optimization_history self).
Proof.
  unfold evaluate_optimization_progress.
  destruct (optimization_history self) as [|it history] eqn:Eh.
  { by intros [= <-]. }
  destruct (trend_of (it :: history)) as [trend|] eqn:Et; [|done].
  cbn [mbind option_bind]. apply trend_of_length in Et. rewrite <- Et.
  destruct (best_of 1 trend 0%Q 0) as [b bi]. intros [= <-]. cbn [status].
  unfold trend_status. destruct (is_improving trend); [done|].
  destruct (is_stagnating trend) eqn:Es; [|done]. intros _.
  unfold is_stagnating in Es. rewrite <- (length_rev trend).
  destruct (rev trend) as [|a [|b' [|c r]]]; try done. cbn. lia.
Qed.

Section MainInvariants.
Context `{PyEnv} {World : Type} `{Services World}.
Context (all_cases : list case).

(** What a round does to the optimizer and to the stagnation counter. *)
Lemma run_round_history (i : nat) (st : loop_state) (w : World) :
  Forall well_formed_record (optimization_history (optimizer st)) →
  length (optimization_history (optimizer st)) ≤ i →
  stagnation_count st = 0 ∨ stagnation_count st + 2 ≤ i →
  let log := (run_round all_cases i st w).1.1 in
  let st1 := (run_round all_cases i st w).1.2 in
  Forall well_formed_record (optimization_history (optimizer st1))
  ∧ length (optimization_history (optimizer st1)) ≤ S i
  ∧ (stagnation_count st1 = 0 ∨ stagnation_count st1 + 2 ≤ S i)
  ∧ rl_stagnation_count log = stagnation_count st1.
Proof.
  intros Hwf Hlen Hst. unfold run_round.
  pose proof (generate_prompt_history (optimizer st)
    {| ctx_base_prompt := Some (best_prompt st);
       ctx_all_cases := Some (to_dict <$> take 3 all_cases);
       ctx_iteration := Some (Z.of_nat (i + 1));
       ctx_previous_results := Some (best_avg_overlap st, Z.of_nat i) |} w) as Hg.
  destruct (generate_prompt _ _ _) as [[generated optimizer1] w1].
  assert (Forall well_formed_record (optimization_history optimizer1)
          ∧ length (optimization_history optimizer1) ≤ S i) as [Hwf1 Hlen1].
  { destruct Hg as [->|(record & -> & Hr)]; [split; [done|lia]|].
    split; [apply Forall_app; split; [done|by constructor]|].
    rewrite length_app. cbn. lia. }
  set (decision := match evaluate_optimization_progress optimizer1 with
                   | Some _ => _ | None => _ end).
  assert (Hd : decision.1.2 = 0 ∨ decision.1.2 + 2 ≤ S i).
  { subst decision.
    destruct (evaluate_optimization_progress optimizer1) as [p|] eqn:Ep.
    2:{ cbn. lia. }
    destruct (status p) eqn:Es; cbn; try (by left).
    pose proof (progress_stagnating _ _ Ep Es).
    destruct (decide _); cbn; lia. }
  destruct decision as [[new_prompt stagnation1] context_cases]. cbn in Hd.
  destruct (evaluate_cases _ _ _ _ _) as [[[total_overlap total_files] all_results] w2].
  cbn. done.
Qed.

Lemma run_rounds_history (remaining : nat) :
  ∀ (i : nat) (st : loop_state) (w : World),
    Forall well_formed_record (optimization_history (optimizer st)) →
    length (optimization_history (optimizer st)) ≤ i →
    stagnation_count st = 0 ∨ stagnation_count st + 2 ≤ i →
    let logs := (run_rounds all_cases remaining i st w).1.1 in
    let st' := (run_rounds all_cases remaining i st w).1.2 in
    Forall (fun l => rl_stagnation_count l = 0
                     ∨ rl_stagnation_count l + 2 ≤ rl_round l) logs
    ∧ Forall well_formed_record (optimization_history (optimizer st'))
    ∧ length (optimization_history (optimizer st')) ≤ i + length logs.
Proof.
  induction remaining as [|remaining IH]; intros i st w Hwf Hlen Hst.
  { cbn. split; [constructor|]. split; [done|lia]. }
  cbn [run_rounds].
  pose proof (run_round_history i st w Hwf Hlen Hst) as (Hwf1 & Hlen1 & Hst1 & Hc).
  pose proof (run_round_facts all_cases i st w) as (Hr & _).
  destruct (run_round all_cases i st w) as [[log st1] w1]. cbn [fst snd] in *.
  assert (rl_stagnation_count log = 0
          ∨ rl_stagnation_count log + 2 ≤ rl_round log) as Hlog.
  { rewrite Hc, Hr. lia. }
  destruct (rl_exit log).
  - specialize (IH (S i) st1 w1 Hwf1 Hlen1 Hst1).
    destruct (run_rounds all_cases remaining (S i) st1 w1) as [[logs st2] w2].
    cbn [fst snd] in *. destruct IH as (Hl & Hw & Hn).
    split; [by constructor|]. split; [done|]. cbn. lia.
  - cbn. split; [constructor; [done|constructor]|]. split; [done|lia].
  - cbn. split; [constructor; [done|constructor]|]. split; [done|lia].
Qed.

Lemma run_rounds_exits (remaining : nat) :
  ∀ (i : nat) (st : loop_state) (w : World),
    Forall (fun l => rl_exit l = Stagnated →
                     stagnation_limit ≤ rl_stagnation_count l)
           (run_rounds all_cases remaining i st w).1.1.
Proof.
  induction remaining as [|remaining IH]; intros i st w; [constructor|].
  cbn [run_rounds].
  pose proof (run_round_facts all_cases i st w) as (_ & _ & _ & _ & _ & _ & He).
  destruct (run_round all_cases i st w) as [[log st1] w1]. cbn [fst snd] in *.
  assert (rl_exit log = Stagnated → stagnation_limit ≤ rl_stagnation_count log) as Hl.
  { rewrite He. destruct (_ && _); [done|]. by destruct (decide _). }
  specialize (IH (S i) st1 w1).
  destruct (rl_exit log) eqn:Ee.
  - destruct (run_rounds all_cases remaining (S i) st1 w1) as [[logs st2] w2].
    cbn [fst snd] in *. constructor; [by rewrite Ee|done].
  - constructor; [by rewrite Ee|constructor].
  - constructor; [intros _; by apply Hl|constructor].
Qed.

(** X10: in [main] the stagnation counter of a round is 0 or at most the
    round number less 2, so the loop never leaves by the stagnation
    [break] before round 7; the history of the optimizer holds complete
    records only, at most one per round, so the final call of
    [evaluate_optimization_progress] returns. *)
Theorem stagnation_exit_late (w : World) :
  let '(logs, st, _) := main_loop all_cases w in
  Forall (fun l => (rl_stagnation_count l = 0
                    ∨ rl_stagnation_count l + 2 ≤ rl_round l)
                   ∧ (rl_exit l = Stagnated → 7 ≤ rl_round l)) logs
  ∧ Forall well_formed_record (optimization_history (optimizer st))
  ∧ length (optimization_history (optimizer st)) ≤ length logs
  ∧ is_Some (evaluate_optimization_progress (optimizer st)).
Proof.
  unfold main_loop.
  pose proof (run_rounds_history max_iterations 0 initial_state w) as Hh.
  pose proof (run_rounds_exits max_iterations 0 initial_state w) as He.
  destruct (run_rounds all_cases max_iterations 0 initial_state w)
    as [[logs st] w'].
  cbn [fst snd] in *.
  destruct Hh as (Hl & Hw & Hn); [constructor|cbn; lia|by left|].
  split.
  { rewrite Forall_forall in *. intros l Hin. split; [by apply Hl|].
    intros Hs. specialize (Hl l Hin). specialize (He l Hin Hs).
    unfold stagnation_limit in He. lia. }
  split; [done|]. split; [done|].
  destruct (progress_well_formed _ Hw) as (p & -> & _). eauto.
Qed.



End MainInvariants.

Section SkeletonInvariant.
Context `{PyEnv} {World : Type} `{Oracles World}.
Context (all_cases : list case).

Lemma valid_optimized_str (s p : str) :
  valid_optimized (Some (JStr s)) = Some p → p = s.
Proof.
  unfold valid_optimized.
  destruct (nonempty s && Text.contains marker_rules s); [|done].
  by intros [= ->].
Qed.

Lemma generate_prompt_skeleton (self : PromptOptimizer) (context : gen_context)
    (w : World) :
  skeleton_ok (base_prompt_of context) = true →
  skeleton_ok (generate_prompt self context w).1.1 = true.
Proof.
  intros Hb.
  destruct (generate_prompt_result self context w) as [->|(request & Eb & Ev)];
    [done|].
  apply build_request_base in Eb. cbn in Ev.
  unfold deepseek_generate_prompt in Ev.
  destruct (chat_optimizer request w) as [[content|] w1].
  - destruct (skeleton_ok content) eqn:Es; cbn [fst] in Ev;
      apply valid_optimized_str in Ev as ->; [done|by rewrite Eb].
  - cbn [fst] in Ev. apply valid_optimized_str in Ev as ->. by rewrite Eb.
Qed.

Lemma run_round_skeleton (i : nat) (st : loop_state) (w : World) :
  skeleton_ok (best_prompt st) = true →
  skeleton_ok (rl_new_prompt (run_round all_cases i st w).1.1) = true
  ∧ skeleton_ok (best_prompt (run_round all_cases i st w).1.2) = true.
Proof.
  intros Hb. unfold run_round.
  set (context := {| ctx_base_prompt := Some (best_prompt st);
                     ctx_all_cases := _; ctx_iteration := _;
                     ctx_previous_results := _ |}).
  pose proof (generate_prompt_skeleton (optimizer st) context w Hb) as Hg.
  destruct (generate_prompt (optimizer st) context w) as [[generated optimizer1] w1].
  cbn [fst] in Hg.
  set (decision := match evaluate_optimization_progress optimizer1 with
                   | Some _ => _ | None => _ end).
  assert (Hd : skeleton_ok decision.1.1 = true).
  { subst decision. destruct (evaluate_optimization_progress optimizer1) as [p|];
      [|done]. destruct (status p); try done. by destruct (decide _). }
  destruct decision as [[new_prompt stagnation1] context_cases]. cbn [fst] in Hd.
  destruct (evaluate_cases _ _ _ _ _) as [[[total_overlap total_files] all_results] w2].
  cbn. split; [done|]. by destruct (Qgtb _ _).
Qed.

Lemma run_rounds_skeleton (remaining : nat) :
  ∀ (i : nat) (st : loop_state) (w : World),
    skeleton_ok (best_prompt st) = true →
    Forall (fun l => skeleton_ok (rl_new_prompt l) = true)
           (run_rounds all_cases remaining i st w).1.1
    ∧ skeleton_ok (best_prompt (run_rounds all_cases remaining i st w).1.2) = true.
Proof.
  induction remaining as [|remaining IH]; intros i st w Hb.
  { cbn. split; [constructor|done]. }
  cbn [run_rounds].
  pose proof (run_round_skeleton i st w Hb) as [Hn Hb1].
  destruct (run_round all_cases i st w) as [[log st1] w1]. cbn [fst snd] in *.
  specialize (IH (S i) st1 w1 Hb1).
  destruct (rl_exit log).
  - destruct (run_rounds all_cases remaining (S i) st1 w1) as [[logs st2] w2].
    cbn [fst snd] in *. destruct IH as [Hl Hb2]. split; [by constructor|done].
  - cbn. split; [constructor; [done|constructor]|done].
  - cbn. split; [constructor; [done|constructor]|done].
Qed.

(** X12: with the clients of [api_clients.py], whatever the optimizer
    service answers, every prompt that [main] tests in a round, and the
    best prompt it saves, keeps the skeleton of the template: it holds the
    four section markers and splits into exactly five parts on the opening
    bracket. *)
Theorem main_prompts_keep_skeleton (w : World) :
  let '(logs, st, _) := main_loop all_cases w in
  Forall (fun l => skeleton_ok (rl_new_prompt l) = true) logs
  ∧ skeleton_ok (best_prompt st) = true
  ∧ (∀ p, p = best_prompt st ∨ p ∈ rl_new_prompt <$> logs →
          Forall (fun marker => Text.contains marker p = true) section_markers
          ∧ length (Text.split_on left_bracket p) = 5).
Proof.
  unfold main_loop.
  assert (skeleton_ok (best_prompt initial_state) = true) as Hi
    by (vm_compute; reflexivity).
  pose proof (run_rounds_skeleton max_iterations 0 initial_state w Hi) as [Hl Hb].
  destruct (run_rounds all_cases max_iterations 0 initial_state w)
    as [[logs st] w'].
  cbn [fst snd] in *. split; [done|]. split; [done|].
  assert (∀ p, skeleton_ok p = true →
               Forall (fun marker => Text.contains marker p = true) section_markers
               ∧ length (Text.split_on left_bracket p) = 5) as Hs.
  { intros p Hp. unfold skeleton_ok in Hp.
    apply andb_true_iff in Hp as [Hm Hn]. apply bool_decide_eq_true in Hn.
    split; [|done]. apply Forall_forall. intros m Hin.
    rewrite forallb_forall in Hm. apply Hm. by apply list_elem_of_In. }
  intros p [->|Hin]; [by apply Hs|].
  apply list_elem_of_fmap in Hin as (l & -> & Hin).
  rewrite Forall_forall in Hl. by apply Hs, Hl.
Qed.

End SkeletonInvariant.

(** ** [center_log] *)

Lemma py_repeat_single (c : N) (n : Z) :
  py_repeat [c] n = replicate (Z.to_nat n) c.
Proof.
  unfold py_repeat. induction (Z.to_nat n) as [|k IH]; [done|].
  cbn. f_equal. exact IH.
Qed.

(** X13: with a fill of one character, [center_log] logs the text between
    two spaces, with as many fill characters on the left as half the
    room (rounded down) and the same number or one more on the right; the
    line between the two newlines is [width] long, or the text with its
    two spaces when that is longer. *)
Theorem center_log_width (text : str) (width : Z) (c : N) :
  ∃ left right : nat,
    center_log text width [c]
    = [10%N] ++ replicate left c ++ [32%N] ++ text ++ [32%N]
      ++ replicate right c ++ [10%N]
    ∧ Z.of_nat left = Z.max 0 ((width - Z.of_nat (length text) - 2) / 2)
    ∧ (right = left ∨ right = S left)
    ∧ Z.of_nat (left + length text + 2 + right)
      = Z.max width (Z.of_nat (length text) + 2).
Proof.
  unfold center_log. rewrite !py_repeat_single.
  set (n := length ([32%N] ++ text ++ [32%N])).
  assert (n = length text + 2) as Hn.
  { subst n. rewrite !length_app. cbn. lia. }
  set (padding := ((width - Z.of_nat n) / 2)%Z).
  set (k := Z.to_nat padding).
  assert (Z.of_nat k = Z.max 0 ((width - Z.of_nat (length text) - 2) / 2)) as Hk.
  { subst k padding. rewrite Hn.
    replace (width - Z.of_nat (length text + 2))%Z
      with (width - Z.of_nat (length text) - 2)%Z by lia. lia. }
  assert (length (replicate k c ++ ([32%N] ++ text ++ [32%N]) ++ replicate k c)
          = k + n + k) as Hl.
  { rewrite !length_app, !length_replicate. cbn [length]. lia. }
  pose proof (Z.div_mod (width - Z.of_nat (length text) - 2) 2 ltac:(lia)) as Hdm.
  pose proof (Z.mod_pos_bound (width - Z.of_nat (length text) - 2) 2 ltac:(lia)) as Hmb.
  destruct (decide _) as [Hlt|Hge]; rewrite Hl in *.
  - exists k, (S k). split.
    { rewrite replicate_S_end, <- !app_assoc. reflexivity. }
    split; [done|]. split; [by right|]. lia.
  - exists k, k. split.
    { rewrite <- !app_assoc. reflexivity. }
    split; [done|]. split; [by left|]. lia.
Qed.

(** ** [APIClient.make_request] *)



Section MakeRequestFacts.
Context `{PyEnv} {World : Type}.
Context (create : World -> option str * World).



End MakeRequestFacts.

(** ** Searching a text *)

Module SearchFacts.

Lemma find_zero (s sub : str) :
  Text.find s sub 0
  = match Text.index_of sub s with
    | Some i => Z.of_nat i
    | None => (-1)%Z
    end.
Proof.
  unfold Text.find. change (Z.to_nat 0) with 0.
  destruct (decide (length s < 0)) as [Hl|_]; [lia|].
  rewrite drop_0. by destruct (Text.index_of sub s).
Qed.

Lemma index_of_unfold (sub s : str) :
  Text.index_of sub s
  = if Text.starts_with sub s then Some 0
    else match s with
         | [] => None
         | _ :: r => S <$> Text.index_of sub r
         end.
Proof. by destruct s. Qed.

(** The offset found is the first one where the text starts with [sub]. *)
Lemma index_of_first (sub s : str) (i : nat) :
  Text.index_of sub s = Some i →
  Text.starts_with sub (drop i s) = true
  ∧ ∀ j, j < i → Text.starts_with sub (drop j s) = false.
Proof.
  revert i. induction s as [|c r IH]; intros i; rewrite index_of_unfold.
  - destruct (Text.starts_with sub []) eqn:E; [|done].
    intros [= <-]. split; [done|]. intros j. lia.
  - destruct (Text.starts_with sub (c :: r)) eqn:E.
    + intros [= <-]. split; [done|]. intros j. lia.
    + destruct (Text.index_of sub r) as [k|]; [|done]. cbn. intros [= <-].
      destruct (IH k eq_refl) as [Hk Hb]. split; [done|].
      intros [|j] Hj; [done|]. cbn. apply Hb. lia.
Qed.

Lemma index_of_none (sub s : str) (j : nat) :
  Text.index_of sub s = None → Text.starts_with sub (drop j s) = false.
Proof.
  revert j. induction s as [|c r IH]; intros j; rewrite index_of_unfold.
  - destruct (Text.starts_with sub []) eqn:E; [done|]. intros _.
    by rewrite drop_nil.
  - destruct (Text.starts_with sub (c :: r)) eqn:E; [done|].
    destruct (Text.index_of sub r) as [k|]; [done|]. intros _.
    destruct j as [|j]; [done|]. cbn. by apply IH.
Qed.

Lemma index_of_some (sub s : str) (j : nat) :
  Text.starts_with sub (drop j s) = true →
  ∃ i, Text.index_of sub s = Some i ∧ i ≤ j.
Proof.
  intros Hj. destruct (Text.index_of sub s) as [i|] eqn:Ei.
  - exists i. split; [done|]. destruct (index_of_first _ _ _ Ei) as [_ Hb].
    destruct (decide (i ≤ j)) as [|Hgt]; [done|].
    rewrite Hb in Hj by lia. done.
  - by rewrite (index_of_none _ _ j Ei) in Hj.
Qed.

Lemma lstrip_suffix (p : N -> bool) (s : str) :
  ∃ a, s = a ++ Text.lstrip_by p s.
Proof.
  induction s as [|c r [a Ha]]; [by exists []|]. cbn.
  destruct (p c); [|by exists []]. exists (c :: a). cbn. by f_equal.
Qed.

Lemma strip_by_infix (p : N -> bool) (s : str) :
  ∃ a b, s = a ++ Text.strip_by p s ++ b.
Proof.
  unfold Text.strip_by, Text.rstrip_by.
  destruct (lstrip_suffix p s) as [a Ha].
  destruct (lstrip_suffix p (rev (Text.lstrip_by p s))) as [b Hb].
  exists a, (rev b). rewrite <- rev_app_distr, <- Hb, rev_involutive. done.
Qed.

(** An occurrence in a part of a text is an occurrence in the text. *)
Lemma starts_with_infix (sub a x b : str) (j : nat) :
  sub ≠ [] →
  Text.starts_with sub (drop j x) = true →
  Text.starts_with sub (drop (length a + j) (a ++ x ++ b)) = true
  ∧ j + length sub ≤ length x.
Proof.
  intros Hne (r & Hr)%RegexFacts.starts_with_prefix.
  assert (j + length sub ≤ length x) as Hl.
  { assert (length (drop j x) = length (sub ++ r)) as Hd by (by rewrite Hr).
    rewrite length_drop, length_app in Hd.
    destruct sub; [done|]. cbn in *. lia. }
  split; [|done]. apply RegexFacts.starts_with_prefix. exists (r ++ b).
  rewrite drop_app_ge by lia.
  replace (length a + j - length a) with j by lia.
  rewrite drop_app_le by lia. rewrite Hr. by rewrite <- app_assoc.
Qed.

(** A block that neither starts nor ends with a stripped character stays
    at the front of the text. *)
Lemma strip_by_keeps_block (p : N -> bool) (m x : str) :
  m ≠ [] → no_lead p m → no_trail p m →
  Text.strip_by p (m ++ x) = m ++ Text.rstrip_by p x.
Proof.
  intros Hne Hl Ht. unfold Text.strip_by.
  rewrite (TextFacts.lstrip_id p (m ++ x)) by (by destruct m).
  unfold Text.rstrip_by. rewrite rev_app_distr.
  unfold no_trail in Ht. destruct (rev m) as [|c m'] eqn:Em.
  { apply (f_equal (@rev N)) in Em. rewrite rev_involutive in Em. done. }
  cbn in Ht. rewrite (TextFacts.lstrip_app_keep p _ _ c Ht).
  rewrite rev_app_distr, <- Em, rev_involutive. done.
Qed.

Lemma contains_app_r (sub a b : str) :
  Text.contains sub b = true → Text.contains sub (a ++ b) = true.
Proof.
  unfold Text.contains.
  destruct (Text.index_of sub b) as [i|] eqn:Ei; [|done]. intros _.
  destruct (index_of_first _ _ _ Ei) as [Hi _].
  destruct (index_of_some sub (a ++ b) (length a + i)) as (k & -> & _); [|done].
  rewrite drop_app_ge by lia. by replace (length a + i - length a) with i by lia.
Qed.

End SearchFacts.

(** ** [extract_rules] *)

Lemma marker_rules_points :
  marker_rules = [12304; 37325; 35201; 35268; 21017; 12305]%N.
Proof. vm_compute. reflexivity. Qed.

Lemma marker_requirements_points :
  marker_requirements = [12304; 36755; 20986; 35201; 27714; 12305]%N.
Proof. vm_compute. reflexivity. Qed.

(** The two markers cannot overlap: where the text starts with the rules
    marker, the next five offsets do not start the requirements marker. *)
Lemma markers_apart (t : str) (d : nat) :
  Text.starts_with marker_rules t = true →
  d < 6 →
  Text.starts_with marker_requirements (drop d t) = false.
Proof.
  intros (r & ->)%RegexFacts.starts_with_prefix Hd.
  rewrite marker_rules_points, marker_requirements_points.
  do 6 (destruct d as [|d]; [reflexivity|]). lia.
Qed.

Lemma extract_rules_found (prompt : str) (s e : nat) :
  Text.index_of marker_rules prompt = Some s →
  Text.index_of marker_requirements prompt = Some e →
  extract_rules prompt = Text.strip (take (e - s) (drop s prompt)).
Proof.
  intros Hs He. unfold extract_rules. rewrite !SearchFacts.find_zero, Hs, He.
  destruct (decide _) as [_|Hn]; [|lia].
  unfold Text.slice. by rewrite !Nat2Z.id.
Qed.

(** X15: [extract_rules] answers that no rules were found exactly when
    one of the two markers is absent.  When both are present and the
    requirements marker comes first, it returns the empty string; when
    the rules marker comes first, the two markers do not overlap and the
    result is the trimmed text from the rules marker up to the
    requirements marker: it starts with the rules marker and does not
    contain the requirements marker. *)
Theorem extract_rules_cases (prompt : str) :
  (extract_rules prompt = rules_not_found
   ↔ Text.contains marker_rules prompt = false
     ∨ Text.contains marker_requirements prompt = false)
  ∧ (∀ s e,
       Text.index_of marker_rules prompt = Some s →
       Text.index_of marker_requirements prompt = Some e →
       s ≠ e
       ∧ (e < s → extract_rules prompt = [])
       ∧ (s < e →
          s + 6 ≤ e
          ∧ extract_rules prompt = Text.strip (take (e - s) (drop s prompt))
          ∧ Text.starts_with marker_rules (extract_rules prompt) = true
          ∧ Text.contains marker_requirements (extract_rules prompt) = false
          ∧ stripped (extract_rules prompt))).
Proof.
  assert (∀ s e,
    Text.index_of marker_rules prompt = Some s →
    Text.index_of marker_requirements prompt = Some e →
    s ≠ e
    ∧ (e < s → extract_rules prompt = [])
    ∧ (s < e →
       s + 6 ≤ e
       ∧ extract_rules prompt = Text.strip (take (e - s) (drop s prompt))
       ∧ Text.starts_with marker_rules (extract_rules prompt) = true
       ∧ Text.contains marker_requirements (extract_rules prompt) = false
       ∧ stripped (extract_rules prompt))) as Hfound.
  { intros s e Hs He.
    pose proof (extract_rules_found prompt s e Hs He) as Hx.
    destruct (SearchFacts.index_of_first _ _ _ Hs) as [Hs1 Hs2].
    destruct (SearchFacts.index_of_first _ _ _ He) as [He1 He2].
    assert (∀ d, d < 6 → e ≠ s + d) as Hapart.
    { intros d Hd ->. pose proof (markers_apart (drop s prompt) d Hs1 Hd) as Hm.
      rewrite drop_drop in Hm. congruence. }
    split; [intros ->; by apply (Hapart 0); [lia|rewrite Nat.add_0_r]|].
    split.
    { intros Hlt. rewrite Hx. replace (e - s) with 0 by lia. done. }
    intros Hlt.
    assert (s + 6 ≤ e) as Hse.
    { destruct (decide (s + 6 ≤ e)) as [|Hn]; [done|].
      exfalso. apply (Hapart (e - s)); lia. }
    split; [done|]. split; [done|]. rewrite Hx.
    apply RegexFacts.starts_with_prefix in Hs1 as (r & Hr).
    set (x := take (e - s) (drop s prompt)).
    assert (x = marker_rules ++ take (e - s - 6) r) as Hxr.
    { subst x. rewrite Hr, take_app_ge; rewrite marker_rules_points; cbn [length];
        [done|lia]. }
    split; [|split; [|apply TextFacts.strip_stripped]].
    - rewrite Hxr. unfold Text.strip.
      rewrite SearchFacts.strip_by_keeps_block;
        [|by rewrite marker_rules_points..].
      apply RegexFacts.starts_with_prefix. eauto.
    - destruct (Text.contains marker_requirements (Text.strip x)) eqn:Ec; [|done].
      exfalso. unfold Text.contains in Ec.
      destruct (Text.index_of marker_requirements (Text.strip x)) as [j|] eqn:Ej;
        [|done].
      destruct (SearchFacts.index_of_first _ _ _ Ej) as [Hj _].
      destruct (SearchFacts.strip_by_infix Text.is_space x) as (a & b & Hab).
      fold (Text.strip x) in Hab.
      assert (marker_requirements ≠ []) as Hne
        by (by rewrite marker_requirements_points).
      destruct (SearchFacts.starts_with_infix _ a _ b j Hne Hj) as [Hin Hlen].
      rewrite <- Hab in Hin.
      assert (length a + j + 6 ≤ length x) as Hbound.
      { assert (length x = length a + length (Text.strip x) + length b) as Hl.
        { rewrite Hab at 1. rewrite !length_app. lia. }
        rewrite marker_requirements_points in Hlen. cbn [length] in Hlen. lia. }
      assert (length x ≤ e - s) as Hxl by (subst x; rewrite length_take; lia).
      destruct (SearchFacts.starts_with_infix marker_requirements
                  (take s prompt) x (drop (e - s) (drop s prompt))
                  (length a + j) Hne Hin) as [Hp _].
      assert (take s prompt ++ x ++ drop (e - s) (drop s prompt) = prompt) as Hpr.
      { subst x. by rewrite take_drop, take_drop. }
      rewrite Hpr in Hp.
      assert (s ≤ length prompt) as Hsl.
      { destruct (decide (s ≤ length prompt)) as [|Hn]; [done|].
        rewrite drop_ge in Hr by lia. by destruct marker_rules eqn:E;
          [rewrite marker_rules_points in E|]. }
      rewrite length_take, Nat.min_l in Hp by lia.
      rewrite (He2 (s + (length a + j))) in Hp by lia. done. }
  split; [|exact Hfound].
  unfold Text.contains. split.
  - intros Hx.
    destruct (Text.index_of marker_rules prompt) as [s|] eqn:Hs; [|by left].
    destruct (Text.index_of marker_requirements prompt) as [e|] eqn:He; [|by right].
    exfalso. destruct (Hfound s e eq_refl eq_refl) as (Hne & Hlt & Hgt).
    destruct (decide (e < s)) as [Hes|Hes].
    + rewrite (Hlt Hes) in Hx. vm_compute in Hx. done.
    + destruct (Hgt ltac:(lia)) as (_ & _ & Hst & _). rewrite Hx in Hst.
      vm_compute in Hst. done.
  - intros Hc. unfold extract_rules. rewrite !SearchFacts.find_zero.
    destruct (Text.index_of marker_rules prompt) as [s|];
      destruct (Text.index_of marker_requirements prompt) as [e|];
      destruct (decide _) as [[H1 H2]|_]; try done; destruct Hc; done.
Qed.

(** ** From the spreadsheet to the scorer *)

Lemma split_on_length (d : N) (s : str) :
  length (Text.split_on d s) = S (Text.count_char d s).
Proof.
  induction s as [|c r IH]; [done|]. cbn [Text.split_on Text.count_char].
  destruct (c =? d)%N; [cbn; by rewrite IH|].
  destruct (Text.split_on d r) as [|p ps]; [done|]. cbn in *. lia.
Qed.

Section GroundTruthFacts.
Context `{PyEnv} {World : Type} `{Services World}.

Lemma gt_labels_stripped (gt : option str) : Forall stripped (gt_labels gt).
Proof.
  destruct gt as [s|]; [|constructor]. cbn. apply Forall_fmap, Forall_forall.
  intros x _. apply TextFacts.strip_stripped.
Qed.

Lemma truth_labels_strings (labels : list str) :
  truth_labels (JArr (JStr <$> labels)) = Some (filter (fun d => d ≠ []) labels).
Proof.
  unfold truth_labels. cbn [py_iter mbind option_bind].
  induction labels as [|l labels IH]; [done|].
  rewrite fmap_cons, !filter_cons. cbn [Json.truthy].
  destruct l as [|c l]; repeat case_decide; try done.
  all: try (exfalso; auto; fail).
  cbn [mapM]. rewrite IH. done.
Qed.

(** A case is left out of the scores exactly when the prediction or the
    ground truth has no label. *)
Lemma evaluate_case_none_iff (round : nat) (new_prompt : str) (c : case)
    (w : World) :
  (evaluate_case round new_prompt c w).1 = None
  ↔ ¬ has_label (process_input_data
                   (JArr (JStr <$> (predict_diseases new_prompt (input_data c) w).1)))
    ∨ ¬ has_label (process_input_data (gt_data c)).
Proof.
  unfold evaluate_case.
  destruct (predict_diseases new_prompt (input_data c) w) as [predicted w1].
  cbn [fst]. set (P := process_input_data (JArr (JStr <$> predicted))).
  set (G := process_input_data (gt_data c)). clearbody P G.
  rewrite <- !label_set_empty_iff. unfold calculate_overlap.
  destruct (decide (P = [] ∨ G = [])) as [Hnil|Hnil].
  { cbn. split; [|done]. intros _. destruct Hnil as [-> | ->]; [left|right]; done. }
  destruct (decide (label_set P = ∅ ∨ label_set G = ∅)) as [He|He].
  { cbn. done. }
  unfold py_div. destruct (decide (size (label_set P ∪ label_set G) = 0)) as [Hz|Hz].
  { exfalso. apply size_empty_inv in Hz. apply He. left.
    apply leibniz_equiv. set_solver. }
  cbn. split; [done|]. intros Hor. by destruct He.
Qed.

Lemma ground_truth_round_trip_aux (gt : option str) :
  2 ≤ recursion_limit →
  let doc := JObj [(key_diseases, JArr (JStr <$> gt_labels gt))] in
  load_example_data (gt_file gt) = Json.Ok doc
  ∧ process_input_data doc = gt_labels gt
  ∧ gt_diseases_of doc ≫= truth_labels
    = Some (filter (fun d => d ≠ []) (gt_labels gt)).
Proof.
  intros Hlimit doc. split; [by apply RoundTrip.loads_dumps_diseases|].
  assert (Json.obj_get key_diseases [(key_diseases, JArr (JStr <$> gt_labels gt))]
          = Some (JArr (JStr <$> gt_labels gt))) as Hget.
  { cbn [Json.obj_get]. by rewrite decide_True. }
  split.
  - subst doc. cbn [process_input_data]. rewrite Hget.
    rewrite stripped_strs_strings. apply strip_fmap_id, gt_labels_stripped.
  - subst doc. cbn [gt_diseases_of]. rewrite Hget. cbn [default mbind option_bind].
    apply truth_labels_strings.
Qed.

(** X16: the ground truth of a row survives the way from the spreadsheet
    to the scorers.  The file that [process_excel_data] writes for the
    [gt] cell is read back by [load_example_data] without an error;
    [process_input_data] returns from it exactly the labels written, the
    comma-separated pieces of the cell, trimmed, one more than the cell
    has commas; [analyze_results] compares against those that are not
    empty; and when none is left (a missing or blank cell) the case is
    left out of every round's score. *)
Theorem ground_truth_round_trip (gt : option str) :
  2 ≤ recursion_limit →
  ∃ doc,
    load_example_data (gt_file gt) = Json.Ok doc
    ∧ process_input_data doc = gt_labels gt
    ∧ gt_diseases_of doc ≫= truth_labels
      = Some (filter (fun d => d ≠ []) (gt_labels gt))
    ∧ Forall stripped (gt_labels gt)
    ∧ (∀ s, gt = Some s → length (gt_labels gt) = S (Text.count_char 44 s))
    ∧ (¬ has_label (gt_labels gt) →
       ∀ cid input round new_prompt w,
         (evaluate_case round new_prompt
            {| case_id := cid; input_data := input; gt_data := doc |} w).1
         = None).
Proof.
  intros Hlimit.
  destruct (ground_truth_round_trip_aux gt Hlimit) as (Hl & Hp & Ht).
  eexists. split; [exact Hl|]. split; [exact Hp|]. split; [exact Ht|].
  split; [apply gt_labels_stripped|]. split.
  - intros s ->. cbn. by rewrite length_fmap, split_on_length.
  - intros Hno cid input round new_prompt w.
    apply evaluate_case_none_iff. right. cbn [gt_data]. by rewrite Hp.
Qed.

End GroundTruthFacts.

(** ** What [predict_diseases] returns with the client of [api_clients.py] *)

Section PredictFacts.
Context `{PyEnv} {World : Type} `{Oracles World}.

Lemma qwen_api_predict_labels (prompt : str) (data : json) (w : World) :
  2 ≤ recursion_limit →
  ∃ response,
    (qwen_api_predict prompt data w).1 = Some response
    ∧ (qwen_api_predict prompt data w).2
      = (chat_predictor (enhanced_prompt prompt) data w).2
    ∧ Forall clean_label (extract_diseases_from_response response).
Proof.
  intros Hlimit. unfold qwen_api_predict.
  destruct (chat_predictor (enhanced_prompt prompt) data w) as [[raw|] w1].
  - eexists. split; [done|]. split; [done|].
    destruct (qwen_clean_shape (Text.strip raw)) as [labels ->].
    destruct (extract_dumps_round_trip_aux labels Hlimit) as [_ ->].
    apply kept_labels_clean.
  - eexists. split; [done|]. split; [done|].
    destruct (extract_dumps_round_trip_aux [] Hlimit) as [_ ->]. constructor.
Qed.

Lemma predict_attempts_clean (remaining : nat) :
  ∀ (prompt : str) (data : json) (w : World),
    2 ≤ recursion_limit →
    let step := fun w => (chat_predictor (enhanced_prompt prompt) data w).2 in
    Forall clean_label (predict_attempts remaining prompt data w).1
    ∧ ∃ n, n ≤ remaining
           ∧ (predict_attempts remaining prompt data w).2 = Nat.iter n step w
           ∧ ((predict_attempts remaining prompt data w).1 = [] → n = remaining)
           ∧ (0 < remaining → 0 < n).
Proof.
  induction remaining as [|remaining IH]; intros prompt data w Hlimit step.
  { cbn. split; [constructor|]. exists 0. split; [lia|]. split; [done|].
    split; [done|lia]. }
  cbn [predict_attempts].
  destruct (qwen_api_predict_labels prompt data w Hlimit)
    as (response & Hr & Hw & Hc).
  change (qwen_predict prompt data w) with (qwen_api_predict prompt data w).
  destruct (qwen_api_predict prompt data w) as [reply w1]. cbn [fst snd] in *.
  subst reply.
  assert (Nat.iter 1 step w = w1) as H1 by (by rewrite Hw).
  destruct (IH prompt data w1 Hlimit) as (Hall & n & Hn & Hwn & He & _).
  destruct (extract_diseases_from_response response) as [|d ds] eqn:Ex.
  - split; [done|]. exists (S n). split; [lia|]. split.
    { rewrite Hwn, <- H1. symmetry. exact (Nat.iter_succ_r n step w). }
    split; [|lia]. intros Hnil. by rewrite (He Hnil).
  - cbn [fst snd]. split; [done|]. exists 1. split; [lia|].
    split; [done|]. split; [done|lia].
Qed.

(** X17: with the client of [api_clients.py], whatever the predictor
    service replies, [predict_diseases] returns labels that are non-empty
    and trimmed, so that [process_input_data] in [main] hands them on
    unchanged; it calls the service one to three times, always with the
    prompt that carries the format instruction, and three times when no
    label comes out. *)
Theorem predict_diseases_clean (prompt : str) (data : json) (w : World) :
  2 ≤ recursion_limit →
  let '(predicted, w') := predict_diseases prompt data w in
  Forall clean_label predicted
  ∧ process_input_data (JArr (JStr <$> predicted)) = predicted
  ∧ Text.contains key_diseases (enhanced_prompt prompt) = true
  ∧ ∃ n, 1 ≤ n ≤ 3
         ∧ w' = Nat.iter n
                  (fun w => (chat_predictor (enhanced_prompt prompt) data w).2) w
         ∧ (predicted = [] → n = 3).
Proof.
  intros Hlimit. unfold predict_diseases.
  pose proof (predict_attempts_clean max_retries prompt data w Hlimit) as Hp.
  destruct (predict_attempts max_retries prompt data w) as [predicted w'].
  cbn [fst snd] in Hp. destruct Hp as (Hall & n & Hn & Hw & He & Hpos).
  split; [done|]. split.
  { apply process_strings_id. eapply Forall_impl; [exact Hall|].
    by intros l [_ Hs]. }
  split.
  { unfold enhanced_prompt.
    destruct (Text.contains key_diseases prompt) eqn:Ec; [done|].
    do 2 apply SearchFacts.contains_app_r. vm_compute. reflexivity. }
  exists n. unfold max_retries in *. split; [lia|]. split; [done|]. done.
Qed.

End PredictFacts.

(** ** The evaluation loop of [main] *)

Section EvaluationFacts.
Context `{PyEnv} {World : Type} `{Services World}.




End EvaluationFacts.

(** ** A reply inside a Markdown code fence *)

Module FenceFacts.
Import SearchFacts.

Lemma index_of_at (sub s : str) (i : nat) :
  Text.starts_with sub (drop i s) = true →
  (∀ j, j < i → Text.starts_with sub (drop j s) = false) →
  Text.index_of sub s = Some i.
Proof.
  intros Hi Hb. destruct (index_of_some sub s i Hi) as (k & Hk & Hle).
  destruct (index_of_first _ _ _ Hk) as [Hk1 _].
  destruct (decide (k = i)) as [->|Hne]; [done|].
  rewrite Hb in Hk1 by lia. done.
Qed.

Lemma find_from (s sub : str) (k i : nat) :
  k ≤ length s →
  Text.index_of sub (drop k s) = Some i →
  Text.find s sub (Z.of_nat k) = Z.of_nat (k + i).
Proof.
  intros Hk Hi. unfold Text.find. rewrite Nat2Z.id.
  destruct (decide (length s < k)); [lia|]. by rewrite Hi.
Qed.

Lemma index_of_char (c : N) (a b : str) :
  c ∉ a → Text.index_of [c] (a ++ c :: b) = Some (length a).
Proof.
  intros Hc. apply index_of_at.
  - rewrite drop_app_length. cbn. by rewrite N.eqb_refl.
  - intros j Hj. rewrite drop_app_le by lia.
    destruct (drop j a) as [|x r] eqn:Ed.
    { apply (f_equal length) in Ed. rewrite length_drop in Ed. cbn in Ed. lia. }
    cbn. destruct (c =? x)%N eqn:E; [|done]. apply N.eqb_eq in E as ->.
    exfalso. apply Hc. rewrite <- (take_drop j a). apply elem_of_app. right.
    rewrite Ed. by left.
Qed.

Lemma starts_with_app_long (sub q x : str) :
  length sub ≤ length q →
  Text.starts_with sub (q ++ x) = Text.starts_with sub q.
Proof.
  revert q. induction sub as [|a sub IH]; intros q Hl; [by destruct q|].
  destruct q as [|b q]; [cbn in Hl; lia|]. cbn. rewrite IH; [done|].
  cbn in Hl. lia.
Qed.

(** The closing fence is the first fence after the payload starts. *)
Lemma closing_fence (payload rest : str) :
  Text.contains fence payload = false →
  last payload ≠ Some 96%N →
  Text.index_of fence (payload ++ fence ++ rest) = Some (length payload).
Proof.
  intros Hc Hlast. apply index_of_at.
  { rewrite drop_app_length. apply RegexFacts.starts_with_prefix. eauto. }
  intros j Hj. rewrite drop_app_le by lia.
  assert (Text.index_of fence payload = None) as Hn.
  { unfold Text.contains in Hc. by destruct (Text.index_of fence payload). }
  pose proof (index_of_none fence payload j Hn) as Hq.
  assert (last (drop j payload) = last payload) as Hl.
  { rewrite <- (take_drop j payload) at 2. rewrite last_app.
    destruct (last (drop j payload)) eqn:E; [done|].
    apply last_None in E. apply (f_equal length) in E.
    rewrite length_drop in E. cbn in E. lia. }
  destruct (drop j payload) as [|c1 [|c2 [|c3 q]]] eqn:Ed.
  - apply (f_equal length) in Ed. rewrite length_drop in Ed. cbn in Ed. lia.
  - cbn in Hl. cbn -[N.eqb]. destruct (96 =? c1)%N eqn:E; [|done].
    apply N.eqb_eq in E as <-. congruence.
  - cbn in Hl. cbn -[N.eqb]. destruct (96 =? c1)%N; [|done].
    destruct (96 =? c2)%N eqn:E; [|done]. apply N.eqb_eq in E as <-. congruence.
  - rewrite starts_with_app_long; [done|]. cbn. lia.
Qed.

Lemma contains_infix (sub a x b : str) :
  sub ≠ [] →
  Text.contains sub (a ++ x ++ b) = false → Text.contains sub x = false.
Proof.
  intros Hne Hc. unfold Text.contains in *.
  destruct (Text.index_of sub x) as [j|] eqn:Ej; [|done].
  destruct (index_of_first _ _ _ Ej) as [Hj _].
  destruct (starts_with_infix sub a x b j Hne Hj) as [Hin _].
  destruct (index_of_some _ _ _ Hin) as (k & Hk & _). by rewrite Hk in Hc.
Qed.

End FenceFacts.

Section FencedReply.
Context `{PyEnv}.

Lemma strip_fence_plain (payload : str) :
  Text.contains fence payload = false →
  strip_fence payload = Text.strip payload.
Proof.
  intros Hc. unfold strip_fence.
  destruct (Text.starts_with fence (Text.strip payload)) eqn:Es; [|done].
  exfalso.
  destruct (SearchFacts.strip_by_infix Text.is_space payload) as (a & b & Hab).
  fold (Text.strip payload) in Hab. rewrite Hab in Hc.
  apply FenceFacts.contains_infix in Hc; [|done].
  unfold Text.contains in Hc.
  destruct (SearchFacts.index_of_some fence (Text.strip payload) 0 Es)
    as (k & Hk & _).
  by rewrite Hk in Hc.
Qed.

Lemma strip_fence_fenced (response tag payload rest : str) :
  Text.strip response = fence ++ tag ++ [10%N] ++ payload ++ fence ++ rest →
  10%N ∉ tag →
  Text.contains fence payload = false →
  last payload ≠ Some 96%N →
  strip_fence response = Text.strip payload.
Proof.
  intros Hs Htag Hc Hlast. unfold strip_fence. rewrite Hs.
  set (cleaned := fence ++ tag ++ [10%N] ++ payload ++ fence ++ rest).
  assert (Text.starts_with fence cleaned = true) as Hst.
  { apply RegexFacts.starts_with_prefix. eauto. }
  rewrite Hst.
  assert (Text.find cleaned fence 0 = 0%Z) as ->.
  { rewrite SearchFacts.find_zero.
    rewrite (FenceFacts.index_of_at fence cleaned 0 Hst); [done|]. intros j. lia. }
  change (0 =? -1)%Z with false. cbv iota.
  assert (Text.find cleaned [10%N] 0 = Z.of_nat (3 + length tag)) as ->.
  { rewrite SearchFacts.find_zero. subst cleaned.
    change (fence ++ tag ++ [10%N] ++ payload ++ fence ++ rest)
      with (fence ++ tag ++ 10%N :: (payload ++ fence ++ rest)).
    rewrite app_assoc, FenceFacts.index_of_char.
    - by rewrite length_app.
    - intros [Hf|Ht]%elem_of_app; [|done].
      unfold fence in Hf. set_solver. }
  set (k := 3 + length tag + 1).
  replace (Z.of_nat (3 + length tag) + 1)%Z with (Z.of_nat k) by lia.
  assert (drop k cleaned = payload ++ fence ++ rest) as Hd.
  { subst cleaned k.
    replace (fence ++ tag ++ [10%N] ++ payload ++ fence ++ rest)
      with ((fence ++ tag ++ [10%N]) ++ payload ++ fence ++ rest)
      by (by rewrite <- !app_assoc).
    rewrite drop_app_length'; [done|]. rewrite !length_app. cbn. lia. }
  assert (k ≤ length cleaned) as Hk.
  { subst cleaned k. rewrite !length_app. cbn. lia. }
  rewrite (FenceFacts.find_from cleaned fence k (length payload) Hk)
    by (rewrite Hd; by apply FenceFacts.closing_fence).
  destruct (Z.of_nat (k + length payload) =? -1)%Z eqn:E;
    [apply Z.eqb_eq in E; lia|].
  unfold Text.slice. rewrite !Nat2Z.id, Hd.
  replace (k + length payload - k) with (length payload) by lia.
  by rewrite take_app_length.
Qed.

(** X19: a reply wrapped in a Markdown code fence is read like the text
    inside the fence.  If the trimmed response is an opening fence, a
    first line without a line break, the payload, and a closing fence
    (whatever follows it), where the payload holds no fence itself and
    does not end with a backtick, then the text that is parsed is the
    trimmed payload, and [extract_diseases_from_response] returns for the
    response what it returns for the payload alone. *)
Theorem fenced_response (response tag payload rest : str) :
  Text.strip response = fence ++ tag ++ [10%N] ++ payload ++ fence ++ rest →
  10%N ∉ tag →
  Text.contains fence payload = false →
  last payload ≠ Some 96%N →
  strip_fence response = Text.strip payload
  ∧ extract_diseases_from_response response
    = extract_diseases_from_response payload.
Proof.
  intros Hs Htag Hc Hlast.
  pose proof (strip_fence_fenced response tag payload rest Hs Htag Hc Hlast) as Hf.
  split; [done|]. unfold extract_diseases_from_response.
  by rewrite Hf, strip_fence_plain.
Qed.

End FencedReply.

(** ** The rounds of [main] with the clients of [api_clients.py] *)

Section RecordedRounds.
Context `{PyEnv} {World : Type} `{Oracles World}.
Context (all_cases : list case).

Lemma analyze_results_api (optimized_prompt : str) (input gt : json) (w : World) :
  is_Some (gt_diseases_of gt ≫= truth_labels) →
  is_Some (analyze_results optimized_prompt input gt w).1.
Proof.
  intros [labels Hl]. unfold analyze_results.
  destruct (predict_diseases optimized_prompt input w) as [predicted w1].
  destruct (gt_diseases_of gt) as [gt_diseases|]; [|done]. cbn in Hl. rewrite Hl.
  cbn [mbind option_bind].
  destruct (analyze_differences_some predicted labels) as (r & -> & _).
  cbn [analyzer_analyze_results api_services]. unfold deepseek_analyze_results.
  destruct (chat_analyzer _ w1) as [reply w2]. cbn. eauto.
Qed.

Lemma analyze_cases_api (optimized_prompt : str) (cases : list case) :
  ∀ w : World,
    Forall readable_truth cases →
    length (analyze_cases optimized_prompt (to_dict <$> cases) w).1.1.1
    = length cases.
Proof.
  induction cases as [|c cases IH]; intros w Hall; [done|].
  apply Forall_cons in Hall as [Hc Hall]. rewrite fmap_cons.
  cbn [analyze_cases to_dict cd_case_id cd_input_data cd_gt_data].
  pose proof (analyze_results_api optimized_prompt (input_data c) (gt_data c) w Hc)
    as [r Hr].
  destruct (analyze_results optimized_prompt (input_data c) (gt_data c) w)
    as [case_analysis w1].
  cbn [fst] in Hr. subst case_analysis. specialize (IH w1 Hall).
  destruct (analyze_cases optimized_prompt (to_dict <$> cases) w1)
    as [[[results missed] wrong] w2].
  cbn [fst snd length] in *. by rewrite IH.
Qed.

Lemma contains_nil (m : str) : m ≠ [] → Text.contains m [] = false.
Proof. by destruct m. Qed.

Lemma skeleton_ok_valid (p : str) :
  skeleton_ok p = true → valid_optimized (Some (JStr p)) = Some p.
Proof.
  intros Hs. unfold skeleton_ok in Hs. apply andb_true_iff in Hs as [Hm _].
  rewrite forallb_forall in Hm.
  assert (Text.contains marker_rules p = true) as Hc.
  { apply Hm. apply list_elem_of_In. unfold section_markers. set_solver. }
  unfold valid_optimized. rewrite Hc.
  destruct p as [|c p]; [|done].
  rewrite contains_nil in Hc; [done|]. by rewrite marker_rules_points.
Qed.

Lemma deepseek_reply_valid (request : optimizer_request) (w : World) :
  skeleton_ok (req_base_prompt request) = true →
  ∃ p, valid_optimized (deepseek_generate_prompt request w).1 = Some p
       ∧ skeleton_ok p = true.
Proof.
  intros Hb. unfold deepseek_generate_prompt.
  destruct (chat_optimizer request w) as [[content|] w1].
  - destruct (skeleton_ok content) eqn:Es; cbn [fst].
    + exists content. by rewrite skeleton_ok_valid.
    + exists (req_base_prompt request). by rewrite skeleton_ok_valid.
  - exists (req_base_prompt request). cbn [fst]. by rewrite skeleton_ok_valid.
Qed.

(** A call of [generate_prompt] as [main] makes it appends a record. *)
Lemma generate_prompt_api_appends (self : PromptOptimizer) (cases : list case)
    (base_prompt : str) (iteration : Z) (previous : Q * Z) (w : World) :
  let context := {| ctx_base_prompt := Some base_prompt;
                    ctx_all_cases := Some (to_dict <$> cases);
                    ctx_iteration := Some iteration;
                    ctx_previous_results := Some previous |} in
  cases ≠ [] →
  Forall readable_truth cases →
  skeleton_ok base_prompt = true →
  iteration = 1%Z ∨ (Forall well_formed_record (optimization_history self)
                     ∧ optimization_history self ≠ []) →
  ∃ record results,
    optimization_history (generate_prompt self context w).1.2
    = optimization_history self ++ [record]
    ∧ it_new_prompt record = Some (generate_prompt self context w).1.1
    ∧ it_analysis_results record = Some results
    ∧ length results = length cases.
Proof.
  intros context Hne Hall Hb Hit. unfold generate_prompt.
  change (context_is_empty context) with false. cbv iota.
  change (default [] (ctx_all_cases context)) with (to_dict <$> cases).
  change (base_prompt_of context) with base_prompt.
  destruct (to_dict <$> cases) as [|case0 rest] eqn:Ec.
  { by destruct cases. }
  assert (is_Some (build_request (entered self context) base_prompt)) as [request Hr].
  { destruct Hit as [->|[Hwf Hh]].
    - unfold build_request. cbn. eauto.
    - by apply build_request_well_formed. }
  rewrite Hr. pose proof (build_request_base _ _ _ Hr) as Hbase.
  cbn [optimizer_generate_prompt api_services].
  destruct (deepseek_reply_valid request w) as (p & Hp & Hs); [by rewrite Hbase|].
  destruct (deepseek_generate_prompt request w) as [reply w1]. cbn [fst] in Hp.
  rewrite Hp. rewrite <- Ec.
  pose proof (analyze_cases_api p cases w1 Hall) as Hlen.
  destruct (analyze_cases p (to_dict <$> cases) w1)
    as [[[results missed] wrong] w2].
  cbn [fst] in Hlen.
  destruct results as [|r results].
  { destruct cases; [done|]. cbn in Hlen. lia. }
  cbn [fst snd]. eexists _, _. split; [reflexivity|]. cbn. done.
Qed.

Lemma run_round_api (i : nat) (st : loop_state) (w : World) :
  all_cases ≠ [] →
  Forall readable_truth (take 3 all_cases) →
  skeleton_ok (best_prompt st) = true →
  Forall well_formed_record (optimization_history (optimizer st)) →
  length (optimization_history (optimizer st)) = i →
  let log := (run_round all_cases i st w).1.1 in
  let st1 := (run_round all_cases i st w).1.2 in
  skeleton_ok (best_prompt st1) = true
  ∧ Forall well_formed_record (optimization_history (optimizer st1))
  ∧ ∃ record results,
      optimization_history (optimizer st1)
      = optimization_history (optimizer st) ++ [record]
      ∧ it_new_prompt record = Some (rl_new_prompt log)
      ∧ it_analysis_results record = Some results
      ∧ length results = Nat.min 3 (length all_cases).
Proof.
  intros Hne Hall Hb Hwf Hlen.
  pose proof (run_round_skeleton all_cases i st w Hb) as [_ Hb1].
  pose proof (run_round_history all_cases i st w Hwf ltac:(lia)) as Hh.
  cbv zeta. split; [done|].
  revert Hh. unfold run_round.
  pose proof (generate_prompt_api_appends (optimizer st) (take 3 all_cases)
                (best_prompt st) (Z.of_nat (i + 1)) (best_avg_overlap st, Z.of_nat i) w)
    as Hg.
  cbv zeta in Hg.
  destruct Hg as (record & results & Hh' & Hn & Hr & Hl).
  { by destruct all_cases. }
  { done. }
  { done. }
  { destruct i as [|i]; [by left|]. right. split; [done|].
    by destruct (optimization_history (optimizer st)). }
  pose proof (generate_prompt_well_formed (optimizer st)
    {| ctx_base_prompt := Some (best_prompt st);
       ctx_all_cases := Some (to_dict <$> take 3 all_cases);
       ctx_iteration := Some (Z.of_nat (i + 1));
       ctx_previous_results := Some (best_avg_overlap st, Z.of_nat i) |} w Hwf) as Hw1.
  destruct (generate_prompt _ _ _) as [[generated optimizer1] w1].
  cbn [fst snd] in Hh', Hn, Hw1.
  destruct (progress_well_formed optimizer1 Hw1) as (p & Hp & _). rewrite Hp.
  set (decision := match status p with Stagnating => _ | _ => _ end).
  assert (decision.1.1 = generated) as Hd.
  { subst decision. destruct (status p); try done. by destruct (decide _). }
  destruct decision as [[new_prompt stagnation1] context_cases]. cbn [fst] in Hd.
  subst new_prompt.
  destruct (evaluate_cases _ _ _ _ _) as [[[total_overlap total_files] all_results] w2].
  cbn [fst snd optimizer rl_new_prompt]. intros _. split; [done|].
  exists record, results. split; [done|]. split; [done|]. split; [done|].
  by rewrite Hl, length_take.
Qed.

Lemma run_rounds_api (remaining : nat) :
  ∀ (i : nat) (st : loop_state) (w : World),
    all_cases ≠ [] →
    Forall readable_truth (take 3 all_cases) →
    skeleton_ok (best_prompt st) = true →
    Forall well_formed_record (optimization_history (optimizer st)) →
    length (optimization_history (optimizer st)) = i →
    let logs := (run_rounds all_cases remaining i st w).1.1 in
    let st' := (run_rounds all_cases remaining i st w).1.2 in
    ∃ records,
      optimization_history (optimizer st')
      = optimization_history (optimizer st) ++ records
      ∧ Forall2 (fun l record =>
                   it_new_prompt record = Some (rl_new_prompt l)
                   ∧ ∃ results, it_analysis_results record = Some results
                                ∧ length results = Nat.min 3 (length all_cases))
                logs records.
Proof.
  induction remaining as [|remaining IH]; intros i st w Hne Hall Hb Hwf Hlen.
  { cbn. exists []. by rewrite app_nil_r. }
  cbn [run_rounds].
  pose proof (run_round_api i st w Hne Hall Hb Hwf Hlen)
    as (Hb1 & Hwf1 & record & results & Hh & Hn & Hr & Hl).
  destruct (run_round all_cases i st w) as [[log st1] w1]. cbn [fst snd] in *.
  assert (length (optimization_history (optimizer st1)) = S i) as Hlen1.
  { rewrite Hh, length_app. cbn. lia. }
  specialize (IH (S i) st1 w1 Hne Hall Hb1 Hwf1 Hlen1).
  destruct (rl_exit log).
  - destruct (run_rounds all_cases remaining (S i) st1 w1) as [[logs st2] w2].
    cbn [fst snd] in *. destruct IH as (records & Hrec & Hf).
    exists (record :: records). split.
    { rewrite Hrec, Hh, <- app_assoc. done. }
    constructor; [|done]. eauto.
  - cbn [fst snd]. exists [record]. split; [done|].
    constructor; [eauto|constructor].
  - cbn [fst snd]. exists [record]. split; [done|].
    constructor; [eauto|constructor].
Qed.

(** X20: with the clients of [api_clients.py], at least one case, and a
    readable ground truth in the first three cases, every round of [main]
    is recorded: the optimizer's history has exactly one record per
    round, in order, whose new prompt is the prompt tested in that round
    and whose results cover each of the first three cases (all cases when
    there are fewer).  The fall-backs of [generate_prompt] to the base
    prompt without a record are never taken. *)
Theorem main_records_every_round (w : World) :
  all_cases ≠ [] →
  Forall readable_truth (take 3 all_cases) →
  let '(logs, st, _) := main_loop all_cases w in
  length (optimization_history (optimizer st)) = length logs
  ∧ Forall2 (fun l record =>
               it_new_prompt record = Some (rl_new_prompt l)
               ∧ ∃ results, it_analysis_results record = Some results
                            ∧ length results = Nat.min 3 (length all_cases))
            logs (optimization_history (optimizer st)).
Proof.
  intros Hne Hall. unfold main_loop.
  assert (skeleton_ok (best_prompt initial_state) = true) as Hi
    by (vm_compute; reflexivity).
  pose proof (run_rounds_api max_iterations 0 initial_state w Hne Hall Hi
                ltac:(constructor) eq_refl) as Hr.
  destruct (run_rounds all_cases max_iterations 0 initial_state w)
    as [[logs st] w'].
  cbn [fst snd] in Hr. destruct Hr as (records & Hh & Hf).
  cbn [app optimization_history optimizer initial_state] in Hh. rewrite Hh.
  split; [|done]. symmetry. by eapply Forall2_length.
Qed.

End RecordedRounds.

(** ** The further properties at concrete inputs *)

Lemma demo_limit : 2 ≤ recursion_limit (PyEnv := AsciiEnv.env).
Proof. cbn. lia. Defined.

(** X1, at a list with a padded and an empty label. *)
Lemma extract_dumps_round_trip_witness :
  extract_diseases_from_response (H := AsciiEnv.env)
    (Dumps.dumps_diseases [Text.utf8 " a "; []; Text.utf8 "b"])
  = kept_labels [Text.utf8 " a "; []; Text.utf8 "b"].
Proof.
  exact (proj1 (extract_dumps_round_trip (H := AsciiEnv.env)
                  [Text.utf8 " a "; []; Text.utf8 "b"] demo_limit)).
Defined.

(** X2, at a reply with prose around the document. *)
Lemma qwen_then_extract_clean_witness :
  Forall clean_label
    (extract_diseases_from_response (H := AsciiEnv.env)
       (qwen_clean (H := AsciiEnv.env) demo_prose_reply)).
Proof.
  exact (proj2 (qwen_then_extract_clean (H := AsciiEnv.env)
                  demo_prose_reply demo_limit)).
Defined.

(** X4, at the prediction [a] for the ground truth [a, b]. *)
Lemma overlap_record_exact_witness :
  ∃ score overlap_diseases missed_diseases extra_diseases,
    calculate_overlap (H := AsciiEnv.env)
      [Text.utf8 "a"] [Text.utf8 "a"; Text.utf8 "b"]
    = Some (OverlapRecord score overlap_diseases missed_diseases extra_diseases)
    ∧ ((0 < score)%Q ↔ overlap_diseases ≠ [])
    ∧ NoDup (overlap_diseases ++ missed_diseases ++ extra_diseases).
Proof.
  assert (∃ score o m e,
            calculate_overlap (H := AsciiEnv.env)
              [Text.utf8 "a"] [Text.utf8 "a"; Text.utf8 "b"]
            = Some (OverlapRecord score o m e)) as (score & o & m & e & Hc).
  { eexists _, _, _, _. vm_compute. reflexivity. }
  exists score, o, m, e. split; [exact Hc|].
  pose proof (overlap_record_exact (H := AsciiEnv.env) _ _ _ _ _ _ Hc)
    as (_ & _ & Hpos & Hnd & _).
  split; [exact Hpos|exact Hnd].
Defined.

(** X8, at the first call of the concrete run. *)
Lemma history_stays_well_formed_witness :
  Forall well_formed_record
    (optimization_history
       (generate_prompt (H := AsciiEnv.env)
          (H0 := Demo.services (Some base_prompt_template) Demo.reply_a)
          (optimizer initial_state) demo_context tt).1.2).
Proof.
  pose proof (history_stays_well_formed (H := AsciiEnv.env)
                (H0 := Demo.services (Some base_prompt_template) Demo.reply_a)
                (optimizer initial_state) demo_context tt ltac:(constructor)) as Hw.
  destruct (generate_prompt (H := AsciiEnv.env)
              (H0 := Demo.services (Some base_prompt_template) Demo.reply_a)
              (optimizer initial_state) demo_context tt) as [[prompt self'] w'].
  exact (proj1 Hw).
Defined.


(** X16, at a cell with two labels. *)
Lemma ground_truth_round_trip_witness :
  ∃ doc, load_example_data (H := AsciiEnv.env) (gt_file demo_gt_cell) = Json.Ok doc
         ∧ process_input_data (H := AsciiEnv.env) doc = gt_labels demo_gt_cell.
Proof.
  destruct (ground_truth_round_trip (H := AsciiEnv.env)
              (H0 := Demo.services None Demo.reply_a) demo_gt_cell demo_limit)
    as (doc & Hl & Hp & _).
  exists doc. split; [exact Hl|exact Hp].
Defined.

(** X17, at the first case of the concrete run. *)
Lemma predict_diseases_clean_witness :
  Forall clean_label
    (predict_diseases (H := AsciiEnv.env)
       (H0 := Demo.services None Demo.reply_a)
       base_prompt_template (input_data (Demo.mk_case 0)) tt).1.
Proof.
  pose proof (predict_diseases_clean (H := AsciiEnv.env)
                (H0 := Demo.oracles None Demo.reply_a)
                base_prompt_template (input_data (Demo.mk_case 0)) tt demo_limit)
    as Hp.
  unfold Demo.services.
  destruct (predict_diseases (H := AsciiEnv.env)
              (H0 := api_services (H := AsciiEnv.env)
                       (H0 := Demo.oracles None Demo.reply_a))
              base_prompt_template (input_data (Demo.mk_case 0)) tt)
    as [predicted w'].
  exact (proj1 Hp).
Defined.

(** X19, at a fenced reply. *)
Lemma fenced_response_witness :
  extract_diseases_from_response (H := AsciiEnv.env) demo_fenced_reply
  = extract_diseases_from_response (H := AsciiEnv.env) demo_fence_payload.
Proof.
  refine (proj2 (fenced_response (H := AsciiEnv.env) demo_fenced_reply
                   demo_fence_tag demo_fence_payload [] _ _ _ _)).
  - vm_compute. reflexivity.
  - apply (bool_decide_unpack (10%N ∉ demo_fence_tag)). vm_compute. exact I.
  - vm_compute. reflexivity.
  - vm_compute. discriminate.
Defined.

Lemma demo_truth_readable : Forall readable_truth (take 3 Demo.cases10).
Proof.
  repeat (constructor; [eexists; vm_compute; reflexivity|]). constructor.
Defined.

(** X20, at the concrete run of ten cases. *)
Lemma main_records_every_round_witness :
  length (optimization_history demo_optimizer)
  = length (Demo.run (Some base_prompt_template) Demo.reply_a).1.1.
Proof.
  pose proof (main_records_every_round (H := AsciiEnv.env)
                (H0 := Demo.oracles (Some base_prompt_template) Demo.reply_a)
                Demo.cases10 tt ltac:(discriminate) demo_truth_readable) as Hm.
  unfold demo_optimizer, Demo.run, Demo.services.
  destruct (main_loop (H := AsciiEnv.env)
              (H0 := api_services (H := AsciiEnv.env)
                       (H0 := Demo.oracles (Some base_prompt_template) Demo.reply_a))
              Demo.cases10 tt) as [[logs st] w'].
  exact (proj1 Hm).
Defined.

(** ** A document inside prose *)

Module ProseFacts.
Import Regex.

Lemma lit_app (l : str) (k : cont) (s : str) : lit l k (l ++ s) = k s.
Proof.
  unfold lit.
  assert (Text.starts_with l (l ++ s) = true) as ->
    by (apply RegexFacts.starts_with_prefix; eauto).
  by rewrite drop_app_length.
Qed.

Lemma star_extends (p : N -> bool) (k : cont) (s : str) :
  is_Some (k s) → is_Some (star p k s).
Proof.
  intros Hk. destruct s as [|c r]; [done|]. cbn [star].
  destruct (p c); [|done]. by destruct (star p k r).
Qed.

(** The matcher finds a match whenever a run of allowed characters can
    be followed by a text that the continuation accepts. *)
Lemma star_complete (p : N -> bool) (k : cont) (run s : str) :
  Forall (fun c => p c = true) run →
  is_Some (k s) → is_Some (star p k (run ++ s)).
Proof.
  intros Hrun Hk. induction Hrun as [|c run Hc _ IH]; [by apply star_extends|].
  cbn [app star]. rewrite Hc. by destruct (star p k (run ++ s)).
Qed.

Lemma space_not_brace (w : str) :
  Forall (fun c => Text.is_space c = true) w →
  Forall (fun c => not_brace c = true) w.
Proof.
  intros Hw. eapply Forall_impl; [exact Hw|]. intros c Hc. unfold not_brace.
  destruct (c =? 123)%N eqn:E1; [apply N.eqb_eq in E1 as ->; done|].
  destruct (c =? 125)%N eqn:E2; [apply N.eqb_eq in E2 as ->; done|]. done.
Qed.

Lemma brace_free_app (a b : str) :
  Forall (fun c => not_brace c = true) (a ++ b)
  ↔ Forall (fun c => not_brace c = true) a
    ∧ Forall (fun c => not_brace c = true) b.
Proof. apply Forall_app. Qed.

Lemma Forall_mid {A} (P : A → Prop) (a b : list A) (c : A) :
  Forall P (a ++ c :: b) → P c.
Proof. intros [_ Hb]%Forall_app. by apply Forall_cons in Hb as [? _]. Qed.

Lemma no_brace_125 (a b : str) :
  ¬ Forall (fun c => not_brace c = true) (a ++ 125%N :: b).
Proof. intros [_ Hb]%Forall_app. apply Forall_cons in Hb as [Hc _]. done. Qed.

Lemma json_pattern_flat (r1 w1 w2 r2 r3 post : str) :
  flat_parts r1 w1 w2 r2 r3 →
  is_Some (json_pattern (flat_document r1 w1 w2 r2 r3 ++ post)).
Proof.
  intros (H1 & Hw1 & Hw2 & H2 & H3). unfold json_pattern, flat_document.
  rewrite <- !app_assoc. rewrite lit_app. apply star_complete; [done|].
  rewrite lit_app. apply star_complete; [done|].
  rewrite lit_app. apply star_complete; [done|].
  rewrite lit_app. apply star_complete.
  { eapply Forall_impl; [exact H2|]. by intros c [? _]. }
  rewrite lit_app. apply star_complete.
  { eapply Forall_impl; [exact H3|]. by intros c [? _]. }
  rewrite lit_app. eauto.
Qed.

(** A match that starts where a flat document starts is the document. *)
Lemma flat_match_unique (r1 w1 w2 r2 r3 post m rest : str) :
  flat_parts r1 w1 w2 r2 r3 →
  flat_document r1 w1 w2 r2 r3 ++ post = m ++ rest →
  pattern_shape m →
  m = flat_document r1 w1 w2 r2 r3.
Proof.
  intros (H1 & Hw1 & Hw2 & H2 & H3) Heq (a1 & v1 & v2 & a2 & a3 & -> & Ha1 & Hv1 & Hv2 & Ha2 & Ha3).
  unfold flat_document in *.
  set (K := Text.jtext "'diseases'") in *.
  assert (Forall (fun c => not_brace c = true) K) as HK.
  { subst K. apply (bool_decide_unpack _). vm_compute. exact I. }
  set (B0 := r1 ++ K ++ w1 ++ [58%N] ++ w2 ++ [91%N] ++ r2).
  set (P0 := a1 ++ K ++ v1 ++ [58%N] ++ v2).
  assert (Forall (fun c => not_brace c = true) B0) as HB0.
  { subst B0. rewrite !brace_free_app. split; [done|]. split; [done|].
    split; [by apply space_not_brace|]. split; [by repeat constructor|].
    split; [by apply space_not_brace|]. split; [by repeat constructor|].
    eapply Forall_impl; [exact H2|]. by intros c [_ ?]. }
  assert (Forall (fun c => not_brace c = true) P0) as HP0.
  { subst P0. rewrite !brace_free_app. split; [done|]. split; [done|].
    split; [by apply space_not_brace|]. split; [by repeat constructor|].
    by apply space_not_brace. }
  assert (Forall (fun c => not_brace c = true) r3) as H3b.
  { eapply Forall_impl; [exact H3|]. by intros c [? _]. }
  assert (Forall (fun c => c ≠ 91%N) r3) as H3k.
  { eapply Forall_impl; [exact H3|]. by intros c [_ ?]. }
  assert (Forall (fun c => c ≠ 93%N) r2) as H2k.
  { eapply Forall_impl; [exact H2|]. intros c [Hc _] ->. done. }
  assert (Forall (fun c => c ≠ 93%N) a2) as Ha2k.
  { eapply Forall_impl; [exact Ha2|]. intros c Hc ->. done. }
  (* both texts as a brace, a body and what follows *)
  assert ((B0 ++ [93%N] ++ r3) ++ 125%N :: post
          = (P0 ++ [91%N] ++ a2 ++ [93%N] ++ a3) ++ 125%N :: rest) as Hbody.
  { subst B0 P0. rewrite <- !app_assoc in Heq. cbn [app] in Heq.
    injection Heq as Heq. rewrite <- !app_assoc. cbn [app]. exact Heq. }
  assert (B0 ++ [93%N] ++ r3 = P0 ++ [91%N] ++ a2 ++ [93%N] ++ a3) as Hsame.
  { apply app_eq_app in Hbody as [l [[Hb Hl]|[Hx Hl]]].
    - destruct l as [|c l]; [by rewrite app_nil_r in Hb|].
      injection Hl as <- _. exfalso.
      apply (no_brace_125 (P0 ++ [91%N] ++ a2 ++ [93%N] ++ a3) l).
      rewrite <- Hb. rewrite !brace_free_app. split; [done|].
      split; [by repeat constructor|done].
    - destruct l as [|c l]; [by rewrite app_nil_r in Hx|].
      injection Hl as <- Hl. exfalso. clear Hl.
      (* the closing brace of the document would lie inside the match *)
      replace (P0 ++ [91%N] ++ a2 ++ [93%N] ++ a3)
        with ((P0 ++ [91%N]) ++ (a2 ++ 93%N :: a3)) in Hx
        by (by rewrite <- !app_assoc).
      apply app_eq_app in Hx as [l2 [[Hp Hl2]|[Hb Hl2]]].
      + destruct l2 as [|c2 l2].
        * rewrite app_nil_r in Hp.
          apply (f_equal last) in Hp. rewrite last_snoc in Hp.
          replace (B0 ++ [93%N] ++ r3) with (B0 ++ 93%N :: r3) in Hp by done.
          rewrite last_app in Hp.
          destruct (last (93%N :: r3)) as [x|] eqn:El;
            [|by apply last_None in El].
          injection Hp as <-. apply last_Some in El as [l' El].
          assert (Forall (fun c => c ≠ 91%N) (93%N :: r3)) as Hk
            by (by constructor).
          rewrite El in Hk. by apply Forall_mid in Hk.
        * injection Hl2 as <- _.
          apply (no_brace_125 (B0 ++ [93%N] ++ r3) l2). rewrite <- Hp.
          rewrite brace_free_app. split; [done|by repeat constructor].
      + apply app_eq_app in Hl2 as [l3 [[Ha Hl3]|[Hl Hl3]]].
        * assert (Forall (fun c => c ≠ 93%N) l2) as Hl2k.
          { rewrite Ha in Ha2k. by apply Forall_app in Ha2k as [? _]. }
          replace (B0 ++ [93%N] ++ r3) with (B0 ++ 93%N :: r3) in Hb by done.
          replace ((P0 ++ [91%N]) ++ l2) with (P0 ++ 91%N :: l2) in Hb
            by (by rewrite <- app_assoc).
          apply app_eq_app in Hb as [l4 [[Hb Hl4]|[Hb Hl4]]].
          -- destruct l4 as [|c4 l4]; [by injection Hl4|].
             injection Hl4 as <- Hl4. rewrite Hl4 in Hl2k.
             by apply Forall_mid in Hl2k.
          -- destruct l4 as [|c4 l4]; [by injection Hl4|].
             injection Hl4 as <- Hl4. rewrite Hl4 in H3k.
             by apply Forall_mid in H3k.
        * destruct l3 as [|c3 l3]; [by injection Hl3|].
          injection Hl3 as <- Hl3. rewrite Hl3 in Ha3.
          by apply no_brace_125 in Ha3. }
  apply (f_equal (fun x => [123%N] ++ x ++ [125%N])) in Hsame.
  subst B0 P0. rewrite <- !app_assoc in Hsame. cbn [app] in *.
  symmetry. exact Hsame.
Qed.

Lemma first_match_skip (pre s : str) :
  Forall (fun c => not_brace c = true) pre →
  first_match (pre ++ s) = first_match s.
Proof.
  induction 1 as [|c pre Hc _ IH]; [done|]. cbn [app first_match].
  assert (json_pattern (c :: pre ++ s) = None) as ->; [|exact IH].
  unfold json_pattern, lit. cbn [Text.starts_with].
  destruct (123 =? c)%N eqn:E; [|done]. apply N.eqb_eq in E as <-. done.
Qed.

Lemma first_match_flat (pre r1 w1 w2 r2 r3 post : str) :
  Forall (fun c => not_brace c = true) pre →
  flat_parts r1 w1 w2 r2 r3 →
  first_match (pre ++ flat_document r1 w1 w2 r2 r3 ++ post)
  = Some (flat_document r1 w1 w2 r2 r3).
Proof.
  intros Hpre Hflat. rewrite first_match_skip by done.
  destruct (json_pattern_flat r1 w1 w2 r2 r3 post Hflat) as [rest Hr].
  destruct (RegexFacts.json_pattern_some _ _ Hr) as (m & Hm & Hshape).
  pose proof (flat_match_unique _ _ _ _ _ _ _ _ Hflat Hm Hshape) as ->.
  set (d := flat_document r1 w1 w2 r2 r3) in *.
  assert (d ++ post ≠ []) as Hne by (by subst d).
  destruct (d ++ post) as [|c t] eqn:Et; [done|].
  cbn [first_match]. rewrite Hr. f_equal.
  rewrite Hm, length_app.
  replace (length d + length rest - length rest) with (length d) by lia.
  apply take_app_length.
Qed.

End ProseFacts.

Section ProseAroundDocument.
Context `{PyEnv}.

(** X21: prose around the document does not change what
    [QwenAPI.predict] returns.  If the reply is not valid JSON as a whole
    and consists of a text without braces, a document of the shape of the
    pattern whose parts hold no brace, whose list holds no closing
    bracket and after whose list no bracket opens, and any text after it,
    then the first match of the pattern is exactly that document, and the
    reply is cleaned to the same text as the document alone. *)
Theorem prose_around_document (pre r1 w1 w2 r2 r3 post : str) :
  Forall (fun c => Regex.not_brace c = true) pre →
  flat_parts r1 w1 w2 r2 r3 →
  Json.loads (pre ++ flat_document r1 w1 w2 r2 r3 ++ post)
  = Json.Err Json.DecodeError →
  Regex.first_match (pre ++ flat_document r1 w1 w2 r2 r3 ++ post)
  = Some (flat_document r1 w1 w2 r2 r3)
  ∧ qwen_clean (pre ++ flat_document r1 w1 w2 r2 r3 ++ post)
    = qwen_clean (flat_document r1 w1 w2 r2 r3).
Proof.
  intros Hpre Hflat Hload.
  pose proof (ProseFacts.first_match_flat pre r1 w1 w2 r2 r3 post Hpre Hflat) as Hm.
  split; [done|]. unfold qwen_clean at 1. rewrite Hload, Hm.
  unfold qwen_clean.
  destruct (Json.loads (flat_document r1 w1 w2 r2 r3)) as [result|[| |]] eqn:El;
    try done.
  pose proof (ProseFacts.first_match_flat [] r1 w1 w2 r2 r3 [] ltac:(constructor)
                Hflat) as Hself.
  cbn [app] in Hself. rewrite app_nil_r in Hself. by rewrite Hself, El.
Qed.

End ProseAroundDocument.

Lemma demo_prose_parts :
  demo_prose_reply
  = demo_prose_before ++ flat_document [] [] [32%N] demo_prose_list [] ++ demo_prose_after.
Proof. vm_compute. reflexivity. Defined.

(** X21, at a reply with a sentence around the document. *)
Lemma prose_around_document_witness :
  Regex.first_match demo_prose_reply
  = Some (flat_document [] [] [32%N] demo_prose_list []).
Proof.
  rewrite demo_prose_parts.
  refine (proj1 (prose_around_document (H := AsciiEnv.env)
                   demo_prose_before [] [] [32%N] demo_prose_list []
                   demo_prose_after _ _ _)).
  - apply (bool_decide_unpack _). vm_compute. exact I.
  - split; [constructor|]. split; [constructor|].
    split; [by repeat constructor|].
    split; apply (bool_decide_unpack _); vm_compute; exact I.
  - vm_compute. reflexivity.
Defined.

(** ** A first round that records nothing *)

Section LostFirstRound.
Context `{PyEnv} {World : Type} `{Services World}.
Context (all_cases : list case).

(** After the first iteration, a call on an empty history returns at
    once, without a call of any service. *)
Lemma generate_prompt_no_history (self : PromptOptimizer) (context : gen_context)
    (w : World) :
  optimization_history self = [] →
  current_iteration (entered self context) ≠ 1%Z →
  context_is_empty context = false →
  generate_prompt self context w = (base_prompt_of context, entered self context, w).
Proof.
  intros Hh Hi He. unfold generate_prompt. rewrite He.
  destruct (default [] (ctx_all_cases context)); [done|].
  unfold build_request. apply Z.eqb_neq in Hi. rewrite Hi.
  cbn [optimization_history entered]. rewrite Hh. done.
Qed.

(** A call that records nothing returns the base prompt. *)
Lemma generate_prompt_unrecorded (self : PromptOptimizer) (context : gen_context)
    (w : World) :
  optimization_history (generate_prompt self context w).1.2
  = optimization_history self →
  (generate_prompt self context w).1.1 = base_prompt_of context.
Proof.
  unfold generate_prompt.
  destruct (context_is_empty context) eqn:Ee.
  { intros _. cbn [fst]. unfold context_is_empty in Ee. unfold base_prompt_of.
    destruct (ctx_base_prompt context) as [bp|] eqn:Eb; [discriminate Ee|].
    reflexivity. }
  destruct (default [] (ctx_all_cases context)) as [|case0 cases]; [done|].
  destruct (build_request _ _) as [request|]; [|done].
  destruct (optimizer_generate_prompt request w) as [reply w1].
  destruct (valid_optimized reply) as [p|]; [|done].
  destruct (analyze_cases p (case0 :: cases) w1) as [[[results missed] wrong] w2].
  destruct results as [|r results]; [done|].
  cbn [fst snd optimization_history entered]. intros Hh.
  apply (f_equal length) in Hh. rewrite length_app in Hh. cbn in Hh. lia.
Qed.

(** A round that starts and ends with an empty history tests the best
    prompt it started with. *)
Lemma run_round_unrecorded (i : nat) (st : loop_state) (w : World) :
  optimization_history (optimizer st) = [] →
  optimization_history (optimizer (run_round all_cases i st w).1.2) = [] →
  let log := (run_round all_cases i st w).1.1 in
  let st1 := (run_round all_cases i st w).1.2 in
  rl_new_prompt log = best_prompt st
  ∧ best_prompt st1 = best_prompt st
  ∧ rl_stagnation_count log = 0.
Proof.
  intros Hh. unfold run_round.
  pose proof (generate_prompt_unrecorded (optimizer st)
    {| ctx_base_prompt := Some (best_prompt st);
       ctx_all_cases := Some (to_dict <$> take 3 all_cases);
       ctx_iteration := Some (Z.of_nat (i + 1));
       ctx_previous_results := Some (best_avg_overlap st, Z.of_nat i) |} w) as Hu.
  destruct (generate_prompt _ _ _) as [[generated optimizer1] w1].
  cbn [fst snd base_prompt_of ctx_base_prompt default] in Hu. rewrite Hh in Hu.
  set (decision := match evaluate_optimization_progress optimizer1 with
                   | Some _ => _ | None => _ end).
  assert (optimization_history optimizer1 = [] →
          decision.1.1 = generated ∧ decision.1.2 = 0) as Hd.
  { intros Hh1. subst decision. unfold evaluate_optimization_progress.
    rewrite Hh1. done. }
  destruct decision as [[new_prompt stagnation1] context_cases].
  cbn [fst snd] in Hd.
  destruct (evaluate_cases _ _ _ _ _) as [[[total_overlap total_files] all_results] w2].
  cbn [fst snd optimizer rl_new_prompt rl_stagnation_count best_prompt].
  intros Hh1. destruct (Hd Hh1) as [-> ->]. rewrite (Hu Hh1).
  split; [done|]. split; [by destruct (Qgtb _ _)|done].
Qed.

Lemma run_round_no_history (i : nat) (st : loop_state) (w : World) :
  optimization_history (optimizer st) = [] →
  i ≠ 0 →
  optimization_history (optimizer (run_round all_cases i st w).1.2) = [].
Proof.
  intros Hh Hi. unfold run_round.
  rewrite generate_prompt_no_history; [|done|cbn; lia|done].
  destruct (evaluate_optimization_progress _) as [p|].
  - destruct (status p); try destruct (decide _);
      destruct (evaluate_cases _ _ _ _ _) as [[[? ?] ?] ?]; exact Hh.
  - destruct (evaluate_cases _ _ _ _ _) as [[[? ?] ?] ?]. exact Hh.
Qed.

Lemma run_rounds_no_history (remaining : nat) :
  ∀ (i : nat) (st : loop_state) (w : World),
    optimization_history (optimizer st) = [] →
    i ≠ 0 →
    let logs := (run_rounds all_cases remaining i st w).1.1 in
    let st' := (run_rounds all_cases remaining i st w).1.2 in
    optimization_history (optimizer st') = []
    ∧ best_prompt st' = best_prompt st
    ∧ Forall (fun l => rl_new_prompt l = best_prompt st
                       ∧ rl_stagnation_count l = 0
                       ∧ rl_exit l ≠ Stagnated) logs.
Proof.
  induction remaining as [|remaining IH]; intros i st w Hh Hi.
  { cbn. split; [done|]. split; [done|constructor]. }
  cbn [run_rounds].
  pose proof (run_round_no_history i st w Hh Hi) as Hh1.
  pose proof (run_round_unrecorded i st w Hh Hh1) as (Hn & Hb & Hs).
  pose proof (run_round_facts all_cases i st w) as (_ & _ & _ & _ & _ & _ & He).
  destruct (run_round all_cases i st w) as [[log st1] w1]. cbn [fst snd] in *.
  assert (rl_exit log ≠ Stagnated) as Hex.
  { rewrite He, Hs. destruct (_ && _); [done|].
    destruct (decide _) as [Hl|_]; [|done]. unfold stagnation_limit in Hl. lia. }
  specialize (IH (S i) st1 w1 Hh1 ltac:(lia)).
  assert (rl_new_prompt log = best_prompt st ∧ rl_stagnation_count log = 0
          ∧ rl_exit log ≠ Stagnated) as Hlog by done.
  clear Hex He. destruct (rl_exit log) eqn:Ee.
  - destruct (run_rounds all_cases remaining (S i) st1 w1) as [[logs st2] w2].
    cbn [fst snd] in *. destruct IH as (Hh2 & Hb2 & Hl).
    split; [done|]. split; [congruence|]. constructor; [by rewrite Ee|].
    eapply Forall_impl; [exact Hl|]. intros l (? & ? & ?).
    split; [congruence|done].
  - cbn. split; [done|]. split; [done|]. constructor; [by rewrite Ee|constructor].
  - by destruct Hlog as (_ & _ & ?).
Qed.

Lemma run_rounds_lost (n : nat) (w : World) :
  optimization_history (optimizer (run_round all_cases 0 initial_state w).1.2) = [] →
  let logs := (run_rounds all_cases (S n) 0 initial_state w).1.1 in
  let st := (run_rounds all_cases (S n) 0 initial_state w).1.2 in
  optimization_history (optimizer st) = []
  ∧ best_prompt st = base_prompt_template
  ∧ Forall (fun l => rl_new_prompt l = base_prompt_template
                     ∧ rl_stagnation_count l = 0
                     ∧ rl_exit l ≠ Stagnated) logs.
Proof.
  intros Hfirst. cbn [run_rounds].
  pose proof (run_round_unrecorded 0 initial_state w eq_refl Hfirst)
    as (Hn & Hb & Hs).
  pose proof (run_round_facts all_cases 0 initial_state w)
    as (_ & _ & _ & _ & _ & _ & He).
  pose proof (run_rounds_no_history n 1
                (run_round all_cases 0 initial_state w).1.2
                (run_round all_cases 0 initial_state w).2 Hfirst ltac:(lia)) as Hrest.
  destruct (run_round all_cases 0 initial_state w) as [[log st1] w1].
  cbn [fst snd] in *.
  change (best_prompt initial_state) with base_prompt_template in *.
  assert (rl_exit log ≠ Stagnated) as Hex.
  { rewrite He, Hs. destruct (_ && _); [done|].
    destruct (decide _) as [Hl|_]; [|done]. unfold stagnation_limit in Hl. lia. }
  assert (rl_new_prompt log = base_prompt_template ∧ rl_stagnation_count log = 0
          ∧ rl_exit log ≠ Stagnated) as Hlog by done.
  clear Hex He. destruct (rl_exit log) eqn:Ee.
  - destruct (run_rounds all_cases n 1 st1 w1) as [[logs st2] w2].
    cbn [fst snd] in *. destruct Hrest as (Hh2 & Hb2 & Hl).
    split; [done|]. split; [congruence|].
    constructor; [by rewrite Ee|]. eapply Forall_impl; [exact Hl|].
    intros l (? & ? & ?). split; [congruence|done].
  - cbn [fst snd]. split; [done|]. split; [done|].
    constructor; [by rewrite Ee|constructor].
  - by destruct Hlog as (_ & _ & ?).
Qed.

(** X22: the first round decides whether [main] optimises at all.  If
    the first call of [generate_prompt] records nothing (the optimizer's
    output is rejected, or no case can be analysed), every later round
    finds an empty history with an iteration number above 1 and falls
    back to the base prompt without calling a service: the history stays
    empty, every round tests the template again, the stagnation counter
    stays 0, the loop never leaves by the stagnation [break], and the
    template is the prompt saved at the end. *)
Theorem first_round_decides (w : World) :
  optimization_history (optimizer (run_round all_cases 0 initial_state w).1.2) = [] →
  let '(logs, st, _) := main_loop all_cases w in
  optimization_history (optimizer st) = []
  ∧ best_prompt st = base_prompt_template
  ∧ Forall (fun l => rl_new_prompt l = base_prompt_template
                     ∧ rl_stagnation_count l = 0
                     ∧ rl_exit l ≠ Stagnated) logs
  ∧ (∀ i st0 w0, i ≠ 0 → optimization_history (optimizer st0) = [] →
       generate_prompt (optimizer st0)
         {| ctx_base_prompt := Some (best_prompt st0);
            ctx_all_cases := Some (to_dict <$> take 3 all_cases);
            ctx_iteration := Some (Z.of_nat (i + 1));
            ctx_previous_results := Some (best_avg_overlap st0, Z.of_nat i) |} w0
       = (best_prompt st0,
          {| current_iteration := Z.of_nat (i + 1); optimization_history := [] |},
          w0)).
Proof.
  intros Hfirst.
  pose proof (run_rounds_lost 9 w Hfirst) as Hl. unfold main_loop.
  change max_iterations with (S 9).
  destruct (run_rounds all_cases (S 9) 0 initial_state w) as [[logs st] w'].
  cbn [fst snd] in Hl. destruct Hl as (Hh & Hb & Hall).
  split; [done|]. split; [done|]. split; [done|].
  intros i st0 w0 Hi Hh0.
  rewrite generate_prompt_no_history; [|done|cbn; lia|done].
  unfold entered. cbn. by rewrite Hh0.
Qed.

End LostFirstRound.

(** With [demo_failing_services] the first round records nothing. *)
Lemma demo_first_round_lost :
  optimization_history
    (optimizer (run_round (H := AsciiEnv.env) (H0 := demo_failing_services)
                  Demo.cases10 0 initial_state tt).1.2) = [].
Proof. vm_compute. reflexivity. Defined.

(** X22, at the run whose optimizer always raises. *)
Lemma first_round_decides_witness :
  best_prompt (main_loop (H := AsciiEnv.env) (H0 := demo_failing_services)
                 Demo.cases10 tt).1.2 = base_prompt_template.
Proof.
  pose proof (first_round_decides (H := AsciiEnv.env) (H0 := demo_failing_services)
                Demo.cases10 tt demo_first_round_lost) as Hm.
  destruct (main_loop (H := AsciiEnv.env) (H0 := demo_failing_services)
              Demo.cases10 tt) as [[logs st] w'].
  exact (proj1 (proj2 Hm)).
Defined.
